(** * The model-reload coordinator of the Qwen3-TTS demo and REST wrapper

    Shallow embedding of [src/qwen-tts/demo.py] (the Gradio front end with
    the [_use_model] / [_reload_model] coordinator), of the handlers of
    [src/qwen-tts/qwen_tts_api.py] (the REST wrapper) and of the TTS
    endpoints of [src/gateway.py].

    - Python [str] values are [string]s, one [ascii] per code point below 256.
    - Python [int]s are [Z]; a Python [float] is a finite double, read as
      the rational it denotes, a NaN or an infinity; no arithmetic is done on
      them, they are only converted by [int] and [float] and passed on.
    - An exception is its class name and its text; [except Exception] lets
      pass the classes that derive from [BaseException] only.
    - [dict]s keyed by strings are [gmap string _].
    - The threads of the Gradio queue are a pool of program counters; the
      shared [_MODEL_STATE], the lock [_STATE_LOCK] and the waiters of
      [_STATE_COND] are explicit.
    - The handlers [run_instruct], [run_voice_design] and [run_voice_clone]
      are embedded in full; any other caller of [_use_model] is a thread
      with an arbitrary body. *)

From Stdlib Require Import ZArith QArith Ascii String.
From stdpp Require Import base option list gmap strings.

Local Open Scope string_scope.
Local Open Scope Z_scope.

(** ** Exceptions *)

(** An exception value: [type(e).__name__] and [str(e)]. *)
Record exn := Exn { exn_type : string; exn_msg : string }.

Definition ValueError (msg : string) : exn := Exn "ValueError" msg.
Definition IndexError (msg : string) : exn := Exn "IndexError" msg.
Definition OverflowError (msg : string) : exn := Exn "OverflowError" msg.

(** The classes of Python and its library that derive from
    [BaseException] and not from [Exception]. *)
Definition BaseException_only : list string :=
  ["BaseException"; "SystemExit"; "KeyboardInterrupt"; "GeneratorExit";
   "CancelledError"; "BaseExceptionGroup"].

(** Whether [except Exception] catches [e]. *)
Definition is_Exception (e : exn) : bool :=
  negb (existsb (String.eqb (exn_type e)) BaseException_only).
Arguments is_Exception : simpl never.

(** [x] followed by [f], unless [x] raised. *)
Definition and_then {A B : Type} (x : exn + A) (f : A -> exn + B)
  : exn + B :=
  match x with
  | inl e => inl e
  | inr a => f a
  end.

Notation "'let!' x ':=' e 'in' k" := (and_then e (fun x => k))
  (at level 10, x name, e at level 100, k at level 200, only parsing).

(** ** Python strings and numbers *)

Module Py.

(** [str.isspace] on the code points below 256: TAB..CR, FS..US and SPACE,
    NEL (0x85) and NBSP (0xA0). *)
Definition isspace (c : ascii) : bool :=
  let n := N_of_ascii c in
  ((9 <=? n)%N && (n <=? 13)%N) || ((28 <=? n)%N && (n <=? 32)%N)
  || (n =? 133)%N || (n =? 160)%N.

Fixpoint lstrip (s : string) : string :=
  match s with
  | EmptyString => EmptyString
  | String c s' => if isspace c then lstrip s' else s
  end.

Fixpoint rstrip (s : string) : string :=
  match s with
  | EmptyString => EmptyString
  | String c s' =>
      match rstrip s' with
      | EmptyString => if isspace c then EmptyString else String c EmptyString
      | r => String c r
      end
  end.

(** [s.strip()] *)
Definition strip (s : string) : string := rstrip (lstrip s).

(** [(s or "")] for a value that is a [str] or [None]. *)
Definition or_empty (s : option string) : string := default "" s.

(** Truth value of a [str]: non-empty. *)
Definition truthy (s : string) : bool :=
  match s with EmptyString => false | _ => true end.

(** [not s or not s.strip()] for a value that is a [str] or [None]. *)
Definition blank (s : option string) : bool :=
  match s with
  | None => true
  | Some s => negb (truthy s) || negb (truthy (strip s))
  end.

(** [x or None] for a [str]. *)
Definition or_none (s : string) : option string :=
  if truthy s then Some s else None.

(** [s.replace(a, b)] for single characters. *)
Fixpoint replace_char (a b : ascii) (s : string) : string :=
  match s with
  | EmptyString => EmptyString
  | String c s' =>
      String (if Ascii.eqb c a then b else c) (replace_char a b s')
  end.

(** [s.split()]: the maximal runs of non-whitespace. [w] is the run being
    read. *)
Fixpoint split_from (w : string) (s : string) : list string :=
  match s with
  | EmptyString => if truthy w then [w] else []
  | String c s' =>
      if isspace c
      then (if truthy w then w :: split_from "" s' else split_from "" s')
      else split_from (w +:+ String c "") s'
  end.

Definition split (s : string) : list string := split_from "" s.

(** [c.upper()] for one character below 256: a..z and the letters
    0xE0..0xFE (the division sign 0xF7 apart) go 32 down to their
    capitals, the sharp s (0xDF) goes to "SS", every other character is
    kept. The micro sign (0xB5) and the y with diaeresis (0xFF) have their
    capitals above 255, where a [string] cannot follow: strings with these
    two characters are outside what is modelled. *)
Definition upper (c : ascii) : string :=
  let n := N_of_ascii c in
  if ((97 <=? n)%N && (n <=? 122)%N)
     || ((224 <=? n)%N && (n <=? 254)%N && negb (n =? 247)%N)
  then String (ascii_of_N (n - 32)) ""
  else if (n =? 223)%N then "SS"
  else String c "".

(** [c.lower()] for one character below 256: A..Z and the letters
    0xC0..0xDE (the multiplication sign 0xD7 apart) go 32 up. *)
Definition lower_char (c : ascii) : ascii :=
  let n := N_of_ascii c in
  if ((65 <=? n)%N && (n <=? 90)%N)
     || ((192 <=? n)%N && (n <=? 222)%N && negb (n =? 215)%N)
  then ascii_of_N (n + 32) else c.

(** [s.lower()] *)
Fixpoint lower (s : string) : string :=
  match s with
  | EmptyString => EmptyString
  | String c s' => String (lower_char c) (lower s')
  end.

(** [" ".join(ws)] *)
Fixpoint join_space (ws : list string) : string :=
  match ws with
  | [] => ""
  | [w] => w
  | w :: ws' => w +:+ " " +:+ join_space ws'
  end.

(** A Python [float]: a finite double, read as the rational it denotes, a
    NaN, or an infinity. *)
Inductive pyfloat :=
| Finite (x : Q)
| NaN
| Infinity (negative : bool).

(** A number as a slider or a form field delivers it: an [int] or a
    [float]. *)
Inductive number :=
| Int (n : Z)
| Float (x : pyfloat).

(** Truncation towards zero. *)
Definition trunc (x : Q) : Z := Z.quot (Qnum x) (Zpos (Qden x)).

(** [int(x)] *)
Definition int (x : number) : exn + Z :=
  match x with
  | Int n => inr n
  | Float (Finite x) => inr (trunc x)
  | Float NaN => inl (ValueError "cannot convert float NaN to integer")
  | Float (Infinity _) =>
      inl (OverflowError "cannot convert float infinity to integer")
  end.

(** [a / 2^e] rounded to the nearest integer, ties to the even one, for
    [0 <= a] and [0 < e]. *)
Definition round_half_even (a e : Z) : Z :=
  let q := Z.shiftr a e in
  let r := a - Z.shiftl q e in
  let half := Z.shiftl 1 (e - 1) in
  if r <? half then q
  else if half <? r then q + 1
  else if Z.even q then q else q + 1.

(** The double nearest to the integer [n] (53 bits of precision, ties to
    even), as an integer; up to [2^53] in size it is [n] itself. *)
Definition nearest_double (n : Z) : Z :=
  let a := Z.abs n in
  let e := Z.log2 a - 52 in
  if e <=? 0 then n
  else Z.sgn n * Z.shiftl (round_half_even a e) e.

(** [float(x)]: a float is returned as it is, NaN and infinities
    included; an [int] is rounded to the nearest double, and raises when
    that is beyond the largest double. *)
Definition float (x : number) : exn + pyfloat :=
  match x with
  | Float x => inr x
  | Int n =>
      let d := nearest_double n in
      if 2 ^ 1024 <=? Z.abs d
      then inl (OverflowError "int too large to convert to float")
      else inr (Finite (inject_Z d))
  end.

End Py.

(** ** The engine *)

(** A numpy array of samples; its numbers are never inspected here. *)
Definition ndarray := list Q.

(** The keyword arguments built by [_gen_common_kwargs] (demo.py) or
    copied from the request (qwen_tts_api.py): [int]s and [float]s. *)
Record GenKwargs := {
  max_new_tokens : Z;
  temperature : Py.pyfloat;
  top_k : Z;
  top_p : Py.pyfloat;
  repetition_penalty : Py.pyfloat;
  do_sample : bool;
  subtalker_dosample : bool;
  subtalker_temperature : Py.pyfloat;
  subtalker_top_k : Z;
  subtalker_top_p : Py.pyfloat
}.

(** One invocation of a generation capability of [Qwen3TTSModel], with the
    arguments as the handlers pass them. *)
Inductive EngineCall :=
| generate_custom_voice
    (text language speaker : string) (instruct : option string)
    (kwargs : GenKwargs)
| generate_voice_design
    (text language instruct : string) (kwargs : GenKwargs)
| generate_voice_clone
    (text language : string) (ref_audio : ndarray * Z)
    (ref_text : option string) (x_vector_only_mode : bool)
    (kwargs : GenKwargs).

(** An attribute of an object that may be missing, or present with a
    string or [None] as its value. *)
Inductive attribute :=
| Missing
| Holds (value : option string).

(** [getattr(obj, name, dflt)] *)
Definition getattr (a : attribute) (dflt : option string) : option string :=
  match a with
  | Missing => dflt
  | Holds value => value
  end.

(** A loaded [Qwen3TTSModel]. [tts_model_type_attr] is the attribute
    [tts_model_type] of [tts.model]; the two capability lists are what
    [get_supported_languages()] / [get_supported_speakers()] give ([None]
    when the attribute is not callable or the call returns [None]);
    [generate] is the opaque generation capability: it returns
    [(wavs, sr)] or raises. *)
Record Qwen3TTSModel := {
  tts_model_type_attr : attribute;
  get_supported_languages : option (list string);
  get_supported_speakers : option (list string);
  generate : EngineCall -> exn + (list ndarray * Z)
}.

(** [getattr(tts.model, "tts_model_type", None)], as demo.py reads it. *)
Definition tts_model_type (m : Qwen3TTSModel) : option string :=
  getattr (tts_model_type_attr m) None.

(** The two computations the model takes as given:
    [Qwen3TTSModel.from_pretrained] (the library's loader, which may raise)
    and [_normalize_audio] (numpy floating-point arithmetic on the samples;
    raises [TypeError] on an unsupported dtype). *)
Record World := {
  from_pretrained : string -> exn + Qwen3TTSModel;
  _normalize_audio : ndarray -> exn + ndarray
}.

(** ** The shared state of demo.py *)

(** The eight keys that [_build_model_state] returns and that
    [_MODEL_STATE.update] overwrites. *)
Record LoadedState := {
  tts : option Qwen3TTSModel;
  ckpt : string;
  model_kind : string;
  lang_choices_disp : list string;
  lang_choices_ui : list string;
  lang_map : gmap string string;
  spk_choices_disp : list string;
  spk_map : gmap string string
}.

(** [_MODEL_STATE]: the eight keys above with ["active_jobs"] and
    ["reloading"]. *)
Record ModelState := {
  loaded : LoadedState;
  active_jobs : Z;
  reloading : bool
}.

(** The values the keys have at import, and again after the clearing
    [update] of [_reload_model]. *)
Definition unloaded : LoadedState :=
  {| tts := None; ckpt := ""; model_kind := "";
     lang_choices_disp := []; lang_choices_ui := []; lang_map := ∅;
     spk_choices_disp := []; spk_map := ∅ |}.

Definition _MODEL_STATE : ModelState :=
  {| loaded := unloaded; active_jobs := 0; reloading := false |}.

(** The dict that [_use_model] yields. *)
Record Snapshot := {
  s_tts : option Qwen3TTSModel;
  s_ckpt : string;
  s_model_kind : string;
  s_lang_map : gmap string string;
  s_spk_map : gmap string string
}.

Definition snapshot (ms : ModelState) : Snapshot :=
  {| s_tts := tts (loaded ms); s_ckpt := ckpt (loaded ms);
     s_model_kind := model_kind (loaded ms);
     s_lang_map := lang_map (loaded ms);
     s_spk_map := spk_map (loaded ms) |}.

Definition _title_case_display (s : option string) : string :=
  let s := Py.strip (Py.or_empty s) in
  let s := Py.replace_char "_" " " s in
  Py.join_space
    (map (fun w => match w with
                   | EmptyString => ""
                   | String c w' => Py.upper c +:+ w'
                   end)
         (Py.split s)).

(** [{d: r for d, r in zip(display, items)}]: a later pair overwrites an
    earlier one with the same key. In [_build_model_state],
    [{"Auto": "Auto", **lang_map}] is the union in which the entries of
    [lang_map] win. *)
Definition dict_of_pairs (l : list (string * string)) : gmap string string :=
  foldl (fun m kv => <[kv.1 := kv.2]> m) ∅ l.

Definition _build_choices_and_map (items : list string)
  : list string * gmap string string :=
  match items with
  | [] => ([], ∅)
  | _ =>
      let display := map (fun x => _title_case_display (Some x)) items in
      (display, dict_of_pairs (zip display items))
  end.

Definition _detect_model_kind (ckpt : string) (m : Qwen3TTSModel)
  : exn + string :=
  match tts_model_type m with
  | Some mt =>
      if String.eqb mt "custom_voice" || String.eqb mt "voice_design"
         || String.eqb mt "base"
      then inr mt
      else inl (ValueError ("Unknown Qwen-TTS model type: " +:+ mt))
  | None => inl (ValueError "Unknown Qwen-TTS model type: None")
  end.

Definition _build_model_state (m : Qwen3TTSModel) (ckpt : string)
  : exn + LoadedState :=
  match _detect_model_kind ckpt m with
  | inl e => inl e
  | inr kind =>
      let '(lang_disp, lmap) :=
        _build_choices_and_map (default [] (get_supported_languages m)) in
      let '(spk_disp, smap) :=
        _build_choices_and_map (default [] (get_supported_speakers m)) in
      let lang_ui :=
        if bool_decide ("Auto" ∈ lang_disp) then lang_disp
        else "Auto" :: lang_disp in
      inr {| tts := Some m; ckpt := ckpt; model_kind := kind;
             lang_choices_disp := lang_disp; lang_choices_ui := lang_ui;
             lang_map := lmap ∪ {["Auto" := "Auto"]};
             spk_choices_disp := spk_disp; spk_map := smap |}
  end.

(** ** The Gradio handlers of demo.py *)

(** The ten values of [advanced_params], in the order of the list: the
    numbers of eight sliders and the values of two checkboxes. *)
Record AdvParams := {
  a_max_tokens : Py.number;
  a_temp : Py.number;
  a_top_k : Py.number;
  a_top_p : Py.number;
  a_rep_pen : Py.number;
  a_do_sample : bool;
  a_subtalker_dosample : bool;
  a_subtalker_temp : Py.number;
  a_subtalker_top_k : Py.number;
  a_subtalker_top_p : Py.number
}.

(** The dict literal of [_gen_common_kwargs]: its values are computed in
    the order of the keys, and the first conversion that raises ends the
    call. *)
Definition _gen_common_kwargs (a : AdvParams) : exn + GenKwargs :=
  let! max_new_tokens := Py.int (a_max_tokens a) in
  let! temperature := Py.float (a_temp a) in
  let! top_k := Py.int (a_top_k a) in
  let! top_p := Py.float (a_top_p a) in
  let! repetition_penalty := Py.float (a_rep_pen a) in
  let! subtalker_temperature := Py.float (a_subtalker_temp a) in
  let! subtalker_top_k := Py.int (a_subtalker_top_k a) in
  let! subtalker_top_p := Py.float (a_subtalker_top_p a) in
  inr {| max_new_tokens := max_new_tokens;
         temperature := temperature;
         top_k := top_k;
         top_p := top_p;
         repetition_penalty := repetition_penalty;
         do_sample := a_do_sample a;
         subtalker_dosample := a_subtalker_dosample a;
         subtalker_temperature := subtalker_temperature;
         subtalker_top_k := subtalker_top_k;
         subtalker_top_p := subtalker_top_p |}.

(** The value of a [gr.Audio] component. *)
Inductive gr_audio :=
| AudioNone
| AudioTuple (sr : Z) (wav : ndarray)
| AudioDict (sampling_rate : Z) (data : ndarray)
| AudioOther.

Definition _audio_to_tuple (w : World) (audio : gr_audio)
  : exn + option (ndarray * Z) :=
  match audio with
  | AudioNone => inr None
  | AudioTuple sr wav =>
      match _normalize_audio w wav with
      | inl e => inl e
      | inr wav => inr (Some (wav, sr))
      end
  | AudioDict sr data =>
      match _normalize_audio w data with
      | inl e => inl e
      | inr wav => inr (Some (wav, sr))
      end
  | AudioOther => inr None
  end.

Inductive operation := CustomVoice | VoiceDesign | VoiceClone.

(** The status texts of the handlers, one constructor per message:
    - [GenerationComplete]: "Generation complete!"
    - [TextRequired]: "Text is required."
    - [SpeakerRequired]: "Speaker is required."
    - [DesignRequired]: "Voice design instruction is required."
    - [TargetTextRequired]: "Target text is required."
    - [RefAudioRequired]: "Reference audio is required."
    - [RefTextRequired]: "Reference text is required when x-vector only
      mode is NOT enabled. ..."
    - [ModelNotLoaded]: "Model not loaded."
    - [NotSupported op]: "Current model does not support CustomVoice." /
      "... VoiceDesign." / "... voice cloning."
    - [Failed e]: the text built from [type(e).__name__] and [e] by the
      handler's [except Exception].
    - [Propagated e] is no status text: it stands for a handler that does
      not return, because [e], which [except Exception] does not catch,
      leaves it. *)
Inductive status :=
| GenerationComplete
| TextRequired
| SpeakerRequired
| DesignRequired
| TargetTextRequired
| RefAudioRequired
| RefTextRequired
| ModelNotLoaded
| NotSupported (op : operation)
| Failed (e : exn)
| Propagated (e : exn).

(** What a handler returns: the audio [(sr, wav)] or [None], and the
    status. *)
Definition outcome : Type := option (Z * ndarray) * status.

(** How the body of [with _use_model() as state:] is left. *)
Inductive body_exit :=
| Return (out : outcome)
| Raise (e : exn).

(** The handler's [try: ... except Exception as e:]: what is returned in
    the [try] is returned, an exception that [except Exception] catches
    becomes the status built from it, any other exception leaves the
    handler. *)
Definition deliver (x : body_exit) : outcome :=
  match x with
  | Return out => out
  | Raise e => if is_Exception e then (None, Failed e)
               else (None, Propagated e)
  end.

(** A handler either returns before it reaches [_use_model], or runs a body
    on the yielded snapshot; the body's second component lists the engine
    invocations it made. *)
Inductive handler :=
| Early (out : outcome)
| WithModel (body : Snapshot -> body_exit * list EngineCall).

(** [wavs, sr = tts.generate_...(...)] followed by
    [return _wav_to_gradio_audio(wavs[0], sr), "Generation complete!"]. *)
Definition invoke (m : Qwen3TTSModel) (call : EngineCall)
  : body_exit * list EngineCall :=
  (match generate m call with
   | inl e => Raise e
   | inr (wavs, sr) =>
       match wavs with
       | [] => Raise (IndexError "list index out of range")
       | wav :: _ => Return (Some (sr, wav), GenerationComplete)
       end
   end, [call]).

(** [d.get(k, dflt)] where [k] may be [None]. *)
Definition dict_get (d : gmap string string) (k : option string)
    (dflt : string) : string :=
  default dflt (k ≫= fun k => d !! k).

Definition run_instruct (text lang_disp spk_disp instruct : option string)
    (adv : AdvParams) : handler :=
  if Py.blank text then Early (None, TextRequired)
  else if negb (Py.truthy (Py.or_empty spk_disp))
  then Early (None, SpeakerRequired)
  else WithModel (fun state =>
    match s_tts state with
    | None => (Return (None, ModelNotLoaded), [])
    | Some m =>
        if negb (String.eqb (s_model_kind state) "custom_voice")
        then (Return (None, NotSupported CustomVoice), [])
        else
          let language := dict_get (s_lang_map state) lang_disp "Auto" in
          let speaker :=
            dict_get (s_spk_map state) spk_disp (Py.or_empty spk_disp) in
          match _gen_common_kwargs adv with
          | inl e => (Raise e, [])
          | inr kwargs =>
              invoke m (generate_custom_voice
                          (Py.strip (Py.or_empty text)) language speaker
                          (Py.or_none (Py.strip (Py.or_empty instruct)))
                          kwargs)
          end
    end).

Definition run_voice_design (text lang_disp design : option string)
    (adv : AdvParams) : handler :=
  if Py.blank text then Early (None, TextRequired)
  else if Py.blank design then Early (None, DesignRequired)
  else WithModel (fun state =>
    match s_tts state with
    | None => (Return (None, ModelNotLoaded), [])
    | Some m =>
        if negb (String.eqb (s_model_kind state) "voice_design")
        then (Return (None, NotSupported VoiceDesign), [])
        else
          let language := dict_get (s_lang_map state) lang_disp "Auto" in
          match _gen_common_kwargs adv with
          | inl e => (Raise e, [])
          | inr kwargs =>
              invoke m (generate_voice_design
                          (Py.strip (Py.or_empty text)) language
                          (Py.strip (Py.or_empty design)) kwargs)
          end
    end).

Definition run_voice_clone (w : World) (ref_aud : gr_audio)
    (ref_txt : option string) (use_xvec : bool)
    (text lang_disp : option string) (adv : AdvParams) : handler :=
  if Py.blank text then Early (None, TargetTextRequired)
  else
    match _audio_to_tuple w ref_aud with
    | inl e => Early (deliver (Raise e))
    | inr None => Early (None, RefAudioRequired)
    | inr (Some at_) =>
        if negb use_xvec && Py.blank ref_txt
        then Early (None, RefTextRequired)
        else WithModel (fun state =>
          match s_tts state with
          | None => (Return (None, ModelNotLoaded), [])
          | Some m =>
              if negb (String.eqb (s_model_kind state) "base")
              then (Return (None, NotSupported VoiceClone), [])
              else
                let language :=
                  dict_get (s_lang_map state) lang_disp "Auto" in
                match _gen_common_kwargs adv with
                | inl e => (Raise e, [])
                | inr kwargs =>
                    invoke m (generate_voice_clone
                                (Py.strip (Py.or_empty text)) language at_
                                (if Py.truthy (Py.or_empty ref_txt)
                                 then Some (Py.strip (Py.or_empty ref_txt))
                                 else None)
                                use_xvec kwargs)
                end
          end)
    end.

(** One call of a handler: a click on one of the three "Generate" buttons,
    or any other code that runs a body under [with _use_model() as state:]
    (as [save_prompt] and [load_prompt_and_gen] do), given by what that
    body does with the snapshot. *)
Inductive request :=
| RunInstruct (text lang_disp spk_disp instruct : option string)
    (adv : AdvParams)
| RunVoiceDesign (text lang_disp design : option string) (adv : AdvParams)
| RunVoiceClone (ref_aud : gr_audio) (ref_txt : option string)
    (use_xvec : bool) (text lang_disp : option string) (adv : AdvParams)
| UseModel (body : Snapshot -> body_exit * list EngineCall).

Definition handler_of (w : World) (r : request) : handler :=
  match r with
  | RunInstruct text lang_disp spk_disp instruct adv =>
      run_instruct text lang_disp spk_disp instruct adv
  | RunVoiceDesign text lang_disp design adv =>
      run_voice_design text lang_disp design adv
  | RunVoiceClone ref_aud ref_txt use_xvec text lang_disp adv =>
      run_voice_clone w ref_aud ref_txt use_xvec text lang_disp adv
  | UseModel body => WithModel body
  end.

(** The operation a handler asks of the model, and the one each kind of
    model serves (the [model_kind] tests of the three handlers). *)
Definition operation_of (r : request) : option operation :=
  match r with
  | RunInstruct _ _ _ _ _ => Some CustomVoice
  | RunVoiceDesign _ _ _ _ => Some VoiceDesign
  | RunVoiceClone _ _ _ _ _ _ => Some VoiceClone
  | UseModel _ => None
  end.

Definition kind_of (op : operation) : string :=
  match op with
  | CustomVoice => "custom_voice"
  | VoiceDesign => "voice_design"
  | VoiceClone => "base"
  end.

(** ** The coordinator: [_use_model] and [_reload_model] under threads *)

(** Where a thread stands. A handler thread walks through [_use_model]
    (the [Use...] points), the body of its [with], and the [finally] of
    [_use_model]; a thread running [_reload_model] walks through the
    [Reload...] points. The points at which the thread holds [_STATE_LOCK]
    are [UseCheck], [UseAdmit], [ReloadDrain] and [ReloadClear]; the short
    critical sections without a loop ([finally], [_set_model_state], the
    two flag-clearing blocks, and taking the lock with the assignment
    [reloading = True]) are single steps that need the lock free. *)
Inductive pc :=
| Call (r : request)
    (* the handler starts *)
| UseWantLock (r : request)
    (* [_use_model]: at [with _STATE_COND:] *)
| UseCheck (r : request)
    (* lock held, at [while _MODEL_STATE["reloading"]] *)
| UseWaiting (r : request)
    (* inside [_STATE_COND.wait()], lock released, not notified *)
| UseNotified (r : request)
    (* notified; [wait()] is taking the lock again *)
| UseAdmit (r : request)
    (* lock held, loop left, at [_MODEL_STATE["active_jobs"] += 1] *)
| Body (r : request) (state : Snapshot)
    (* first [with] block left, at [yield state]: the handler's [with]
       body runs *)
| Finally (r : request) (state : Snapshot) (x : body_exit)
    (calls : list EngineCall)
    (* body left by [x]; at [with _STATE_COND:] of the [finally] *)
| Delivered (r : request) (state : option Snapshot) (out : outcome)
    (calls : list EngineCall)
    (* the handler has returned [out] *)
| Reload (ckpt : option string)
    (* [_reload_model(ckpt, ...)] starts *)
| ReloadWantLock (ckpt : string)
    (* at the first [with _STATE_COND:] *)
| ReloadDrain (ckpt : string)
    (* lock held, flag set, at [while _MODEL_STATE["active_jobs"] > 0] *)
| ReloadWaiting (ckpt : string)
| ReloadNotified (ckpt : string)
| ReloadClear (ckpt : string)
    (* lock held, loop left, at [old_tts = ...] and the clearing [update] *)
| ReloadLoad (ckpt : string)
    (* lock released, in the [try]: [from_pretrained] and
       [_build_model_state] ([del old_tts] and [_cleanup_memory()] leave
       [_MODEL_STATE] alone) *)
| ReloadPublish (state : LoadedState)
    (* in the [try]: at [_set_model_state(state)] *)
| ReloadFail (e : exn)
    (* in the [except Exception]: at [with _STATE_COND:] *)
| ReloadFinish (state : LoadedState)
    (* at the last [with _STATE_COND:] *)
| ReloadReturned (state : LoadedState)
| ReloadRaised (e : exn).
    (* [e] has left [_reload_model]: the [ValueError] of the first test,
       an exception re-raised by the [except Exception] block, or one that
       this block does not catch and that left the [try] past it *)

Record config := {
  ms : ModelState;            (* [_MODEL_STATE] *)
  lock : option nat;          (* the thread that holds [_STATE_LOCK] *)
  pool : list pc              (* thread [t] stands at [pool !! t] *)
}.

(** [_STATE_COND.notify_all()]: every thread inside [wait()] is notified. *)
Definition wake (p : pc) : pc :=
  match p with
  | UseWaiting r => UseNotified r
  | ReloadWaiting k => ReloadNotified k
  | _ => p
  end.

(** The try block of [_reload_model] up to [_build_model_state]. *)
Definition load (w : World) (ckpt : string) : exn + LoadedState :=
  match from_pretrained w ckpt with
  | inl e => inl e
  | inr m => _build_model_state m ckpt
  end.

(** The loader raises nothing but what [except Exception] catches. *)
Definition raises_only_Exceptions (w : World) : Prop :=
  forall k e, from_pretrained w k = inl e -> is_Exception e = true.

(** [_MODEL_STATE.update(state)] for a dict [state] with the eight model
    keys. *)
Definition update (state : LoadedState) (m : ModelState) : ModelState :=
  {| loaded := state; active_jobs := active_jobs m;
     reloading := reloading m |}.

(** The assignment inside [_set_model_state]; the [with _STATE_COND:]
    around it is the lock test of the step that runs it. *)
Definition _set_model_state (state : LoadedState) (m : ModelState)
  : ModelState := update state m.
Arguments _set_model_state _ _ /.

Definition set_active_jobs (n : Z) (m : ModelState) : ModelState :=
  {| loaded := loaded m; active_jobs := n; reloading := reloading m |}.

Definition set_reloading (b : bool) (m : ModelState) : ModelState :=
  {| loaded := loaded m; active_jobs := active_jobs m; reloading := b |}.

(** What one step of a thread does to the shared state, the lock, the
    waiters and its own position. *)
Record effect := {
  e_ms : ModelState;
  e_lock : option nat;
  e_notify : bool;
  e_pc : pc
}.

Definition free (l : option nat) : bool :=
  match l with None => true | Some _ => false end.

(** The steps of [_use_model] for thread [t] standing at [p]: the first
    [with _STATE_COND:] block with its loop, and the [finally]. [None]
    when the thread is blocked (lock taken, or not notified). *)
Definition _use_model (t : nat) (m : ModelState) (l : option nat) (p : pc)
  : option effect :=
  match p with
  | UseWantLock r =>
      if free l
      then Some {| e_ms := m; e_lock := Some t; e_notify := false;
                   e_pc := UseCheck r |}
      else None
  | UseCheck r =>
      if reloading m
      then Some {| e_ms := m; e_lock := None; e_notify := false;
                   e_pc := UseWaiting r |}
      else Some {| e_ms := m; e_lock := l; e_notify := false;
                   e_pc := UseAdmit r |}
  | UseNotified r =>
      if free l
      then Some {| e_ms := m; e_lock := Some t; e_notify := false;
                   e_pc := UseCheck r |}
      else None
  | UseAdmit r =>
      let m' := set_active_jobs (active_jobs m + 1) m in
      Some {| e_ms := m'; e_lock := None; e_notify := false;
              e_pc := Body r (snapshot m') |}
  | Finally r state x calls =>
      if free l
      then
        let m' := set_active_jobs (active_jobs m - 1) m in
        Some {| e_ms := m'; e_lock := None;
                e_notify := (active_jobs m' <=? 0);
                e_pc := Delivered r (Some state) (deliver x) calls |}
      else None
  | _ => None
  end.

(** The steps of [_reload_model] for thread [t] standing at [p]. *)
Definition _reload_model (w : World) (t : nat) (m : ModelState)
    (l : option nat) (p : pc) : option effect :=
  match p with
  | Reload ckpt =>
      let ckpt := Py.strip (Py.or_empty ckpt) in
      if negb (Py.truthy ckpt)
      then Some {| e_ms := m; e_lock := l; e_notify := false;
                   e_pc := ReloadRaised
                             (ValueError "Checkpoint is required.") |}
      else Some {| e_ms := m; e_lock := l; e_notify := false;
                   e_pc := ReloadWantLock ckpt |}
  | ReloadWantLock k =>
      if free l
      then Some {| e_ms := set_reloading true m; e_lock := Some t;
                   e_notify := false; e_pc := ReloadDrain k |}
      else None
  | ReloadDrain k =>
      if 0 <? active_jobs m
      then Some {| e_ms := m; e_lock := None; e_notify := false;
                   e_pc := ReloadWaiting k |}
      else Some {| e_ms := m; e_lock := l; e_notify := false;
                   e_pc := ReloadClear k |}
  | ReloadNotified k =>
      if free l
      then Some {| e_ms := m; e_lock := Some t; e_notify := false;
                   e_pc := ReloadDrain k |}
      else None
  | ReloadClear k =>
      Some {| e_ms := update unloaded m; e_lock := None;
              e_notify := false; e_pc := ReloadLoad k |}
  | ReloadLoad k =>
      match load w k with
      | inl e =>
          if is_Exception e
          then Some {| e_ms := m; e_lock := l; e_notify := false;
                       e_pc := ReloadFail e |}
          else Some {| e_ms := m; e_lock := l; e_notify := false;
                       e_pc := ReloadRaised e |}
      | inr state => Some {| e_ms := m; e_lock := l; e_notify := false;
                             e_pc := ReloadPublish state |}
      end
  | ReloadPublish state =>
      if free l
      then Some {| e_ms := _set_model_state state m; e_lock := None;
                   e_notify := false; e_pc := ReloadFinish state |}
      else None
  | ReloadFail e =>
      if free l
      then Some {| e_ms := set_reloading false m; e_lock := None;
                   e_notify := true; e_pc := ReloadRaised e |}
      else None
  | ReloadFinish state =>
      if free l
      then Some {| e_ms := set_reloading false m; e_lock := None;
                   e_notify := true; e_pc := ReloadReturned state |}
      else None
  | _ => None
  end.

(** The next step of thread [t] standing at [p]: the handler's own code
    (its input checks, and the body of its [with]), or a step of
    [_use_model] or of [_reload_model]. [None] when the thread is blocked
    or has finished. *)
Definition local_step (w : World) (t : nat) (m : ModelState)
    (l : option nat) (p : pc) : option effect :=
  match p with
  | Call r =>
      match handler_of w r with
      | Early out => Some {| e_ms := m; e_lock := l; e_notify := false;
                             e_pc := Delivered r None out [] |}
      | WithModel _ => Some {| e_ms := m; e_lock := l; e_notify := false;
                               e_pc := UseWantLock r |}
      end
  | Body r state =>
      match handler_of w r with
      | WithModel body =>
          let '(x, calls) := body state in
          Some {| e_ms := m; e_lock := l; e_notify := false;
                  e_pc := Finally r state x calls |}
      | Early _ => None
      end
  | UseWantLock _ | UseCheck _ | UseWaiting _ | UseNotified _ | UseAdmit _
  | Finally _ _ _ _ =>
      _use_model t m l p
  | Delivered _ _ _ _ => None
  | _ => _reload_model w t m l p
  end.

Definition apply_effect (t : nat) (c : config) (e : effect) : config :=
  {| ms := e_ms e;
     lock := e_lock e;
     pool := <[t := e_pc e]>
               (if e_notify e then wake <$> pool c else pool c) |}.

(** Thread [t] takes its next step. *)
Definition step (w : World) (t : nat) (c : config) : option config :=
  p ← pool c !! t;
  e ← local_step w t (ms c) (lock c) p;
  Some (apply_effect t c e).

(** A schedule names, step by step, the thread that runs; naming a thread
    that cannot move leaves the configuration as it is. *)
Definition run_thread (w : World) (c : config) (t : nat) : config :=
  default c (step w t c).

Definition run (w : World) (sched : list nat) (c : config) : config :=
  foldl (run_thread w) c sched.

(** The calls made on the server: clicks on "Generate" and on
    "Load Model". *)
Inductive call :=
| Dispatch (r : request)
| Reconfigure (ckpt : option string).

Definition spawn (k : call) : pc :=
  match k with
  | Dispatch r => Call r
  | Reconfigure ckpt => Reload ckpt
  end.

(** The server after [main] has stored [st] with [_set_model_state], with
    one thread per call, none of which has started. *)
Definition boot (st : LoadedState) (calls : list call) : config :=
  {| ms := _set_model_state st _MODEL_STATE; lock := None;
     pool := spawn <$> calls |}.

(** ** The REST wrapper, qwen_tts_api.py *)

Module Api.

(** The module globals [tts_model], [model_kind] and [model_checkpoint]. *)
Record State := {
  tts_model : option Qwen3TTSModel;
  model_kind : option string;
  model_checkpoint : option string
}.

Definition initial : State :=
  {| tts_model := None; model_kind := None; model_checkpoint := None |}.

Definition _clear_model (st : State) : State :=
  match tts_model st with
  | Some _ => initial
  | None => st
  end.

(** [_load_model(checkpoint)]: the new globals, and the exception that
    leaves the [with model_lock:] block if [from_pretrained] raises. *)
Definition _load_model (w : World) (st : State) (checkpoint : string)
  : State * option exn :=
  let st := _clear_model st in
  match from_pretrained w checkpoint with
  | inl e => (st, Some e)
  | inr m =>
      ({| tts_model := Some m;
          model_kind := getattr (tts_model_type_attr m) (Some "base");
          model_checkpoint := Some checkpoint |}, None)
  end.

(** What an endpoint answers: the WAV file built from [wavs[0]] and [sr],
    or an [HTTPException]; [Propagated e] stands for no answer of the
    endpoint, because [e], which [except Exception] does not catch, leaves
    it. *)
Inductive response :=
| FileResponse (wav : ndarray) (sr : Z)
| HTTPException (status_code : Z) (detail : string)
| Propagated (e : exn).

(** The [except Exception as e: raise HTTPException(500, str(e))] of an
    endpoint. *)
Definition failed (e : exn) : response :=
  if is_Exception e then HTTPException 500 (exn_msg e) else Propagated e.

(** [TTSRequest]: pydantic fields without any bound; the ten sampling
    fields are the ones the handlers copy into [kwargs]. *)
Record TTSRequest := {
  text : string;
  language : string;
  params : GenKwargs
}.

Record CustomVoiceRequest := {
  base : TTSRequest;
  speaker : string;
  instruct : option string
}.

(** The [try] block of an endpoint after the engine call: the file
    response, or status 500 carrying [str(e)]. *)
Definition respond (m : Qwen3TTSModel) (call : EngineCall)
  : response * list EngineCall :=
  (match generate m call with
   | inl e => failed e
   | inr (wavs, sr) =>
       match wavs with
       | [] => HTTPException 500 "list index out of range"
       | wav :: _ => FileResponse wav sr
       end
   end, [call]).

Definition kind_text (k : option string) : string := default "None" k.

Definition custom_voice (st : State) (request : CustomVoiceRequest)
  : response * list EngineCall :=
  match tts_model st with
  | None => (HTTPException 503 "Model not loaded", [])
  | Some m =>
      if negb (bool_decide (model_kind st = Some "custom_voice"))
      then (HTTPException 400
              ("Custom voice not supported for "
               +:+ kind_text (model_kind st) +:+ " model"), [])
      else respond m (generate_custom_voice
                        (text (base request)) (language (base request))
                        (speaker request) (instruct request)
                        (params (base request)))
  end.

(** The form fields of [/api/voice-clone]. [ref_audio] is what the upload
    decodes to (torchaudio: load, resample to 12 kHz, mix to mono), or the
    exception raised on the way. *)
Record VoiceCloneForm := {
  f_text : string;
  f_language : string;
  f_ref_audio : exn + ndarray;
  f_ref_text : option string;
  f_x_vector_only : bool;
  f_params : GenKwargs
}.

Definition voice_clone (st : State) (f : VoiceCloneForm)
  : response * list EngineCall :=
  match tts_model st with
  | None => (HTTPException 503 "Model not loaded", [])
  | Some m =>
      if negb (bool_decide (model_kind st = Some "base"))
      then (HTTPException 400
              ("Voice cloning not supported for "
               +:+ kind_text (model_kind st) +:+ " model"), [])
      else
        match f_ref_audio f with
        | inl e => (failed e, [])
        | inr waveform =>
            respond m (generate_voice_clone
                         (f_text f) (f_language f) (waveform, 12000)
                         (match f_ref_text f with
                          | Some s => Py.or_none s
                          | None => None
                          end)
                         (f_x_vector_only f) (f_params f))
        end
  end.

End Api.

(** ** Invariants of the coordinator *)

(** The positions at which a thread holds [_STATE_LOCK]. *)
Definition locked (p : pc) : bool :=
  match p with
  | UseCheck _ | UseAdmit _ | ReloadDrain _ | ReloadClear _ => true
  | _ => false
  end.

(** The positions at which a handler holds a yielded snapshot: after the
    increment of [_use_model] and before the decrement of its [finally]. *)
Definition holding (p : pc) : bool :=
  match p with
  | Body _ _ | Finally _ _ _ _ => true
  | _ => false
  end.

(** The number of handles outstanding in a pool. *)
Fixpoint outstanding (l : list pc) : Z :=
  match l with
  | [] => 0
  | p :: l => (if holding p then 1 else 0) + outstanding l
  end.

(** The positions inside [wait()], before the notification. *)
Definition waiting (p : pc) : bool :=
  match p with
  | UseWaiting _ | ReloadWaiting _ => true
  | _ => false
  end.

(** The positions of a thread that runs [_reload_model]. *)
Definition reloader (p : pc) : bool :=
  match p with
  | Reload _ | ReloadWantLock _ | ReloadDrain _ | ReloadWaiting _
  | ReloadNotified _ | ReloadClear _ | ReloadLoad _ | ReloadPublish _
  | ReloadFail _ | ReloadFinish _ | ReloadReturned _ | ReloadRaised _ => true
  | _ => false
  end.

(** What a position records agrees with the handler of its request, or
    with the loader for a reloading thread. *)
Definition consistent (w : World) (p : pc) : Prop :=
  match p with
  | UseWantLock r | UseCheck r | UseWaiting r | UseNotified r | UseAdmit r
  | Body r _ =>
      exists body, handler_of w r = WithModel body
  | Finally r state x calls =>
      exists body, handler_of w r = WithModel body /\ body state = (x, calls)
  | Delivered r (Some state) out calls =>
      exists body x, handler_of w r = WithModel body
                     /\ body state = (x, calls) /\ out = deliver x
  | Delivered r None out calls =>
      handler_of w r = Early out /\ calls = []
  | ReloadPublish state | ReloadFinish state | ReloadReturned state =>
      exists k, load w k = inr state
  | ReloadFail e =>
      (exists k, load w k = inl e) /\ is_Exception e = true
  | ReloadRaised e =>
      e = ValueError "Checkpoint is required." \/ exists k, load w k = inl e
  | _ => True
  end.

Record Inv (w : World) (c : config) : Prop := {
  inv_lock : forall t p,
    pool c !! t = Some p -> locked p = true -> lock c = Some t;
  inv_admit : forall t r,
    pool c !! t = Some (UseAdmit r) -> reloading (ms c) = false;
  inv_clear : forall t k,
    pool c !! t = Some (ReloadClear k) -> active_jobs (ms c) <= 0;
  inv_count : active_jobs (ms c) = outstanding (pool c);
  inv_consistent : forall t p, pool c !! t = Some p -> consistent w p
}.

(** A call of [_reload_model] that an exception outside [Exception] has
    left: it has passed [reloading = True] and the clearing [update], and
    has reached neither [_set_model_state] nor a [reloading = False]. *)
Definition escaped (p : pc) : bool :=
  match p with
  | ReloadRaised e => negb (is_Exception e)
  | _ => false
  end.

(** The positions of [_reload_model] behind its assignment
    [reloading = True] that have not run an assignment
    [reloading = False]. *)
Definition flagged (p : pc) : bool :=
  match p with
  | ReloadDrain _ | ReloadWaiting _ | ReloadNotified _ | ReloadClear _
  | ReloadLoad _ | ReloadPublish _ | ReloadFail _ | ReloadFinish _ => true
  | _ => escaped p
  end.

(** The positions of [_reload_model] behind the clearing [update] that
    have not run an assignment [reloading = False]. *)
Definition drained (p : pc) : bool :=
  match p with
  | ReloadLoad _ | ReloadPublish _ | ReloadFail _ | ReloadFinish _ => true
  | _ => escaped p
  end.

(** The positions of [_reload_model] behind the clearing [update] that
    have not run [_set_model_state]. *)
Definition emptied (p : pc) : bool :=
  match p with
  | ReloadLoad _ | ReloadPublish _ | ReloadFail _ => true
  | _ => escaped p
  end.

(** At most one of the calls is a reconfigure. *)
Definition one_reconfigure (calls : list call) : Prop :=
  forall t1 t2 k1 k2,
    calls !! t1 = Some (Reconfigure k1) ->
    calls !! t2 = Some (Reconfigure k2) -> t1 = t2.

(** What holds in addition when a single thread runs [_reload_model]. *)
Record Sole (c : config) : Prop := {
  sole_reloader : forall t1 t2 p1 p2,
    pool c !! t1 = Some p1 -> pool c !! t2 = Some p2 ->
    reloader p1 = true -> reloader p2 = true -> t1 = t2;
  sole_flag : forall t p,
    pool c !! t = Some p -> flagged p = true -> reloading (ms c) = true;
  sole_drained : forall t p,
    pool c !! t = Some p -> drained p = true -> active_jobs (ms c) = 0;
  sole_emptied : forall t p,
    pool c !! t = Some p -> emptied p = true -> loaded (ms c) = unloaded
}.

(** A string of whitespace only. *)
Fixpoint all_space (s : string) : bool :=
  match s with
  | EmptyString => true
  | String c s' => Py.isspace c && all_space s'
  end.

(** The keyword arguments an engine invocation carries, and the advanced
    parameters a request carries. *)
Definition kwargs_of (call : EngineCall) : GenKwargs :=
  match call with
  | generate_custom_voice _ _ _ _ kw => kw
  | generate_voice_design _ _ _ kw => kw
  | generate_voice_clone _ _ _ _ _ kw => kw
  end.

Definition adv_of (r : request) : option AdvParams :=
  match r with
  | RunInstruct _ _ _ _ adv => Some adv
  | RunVoiceDesign _ _ _ adv => Some adv
  | RunVoiceClone _ _ _ _ _ adv => Some adv
  | UseModel _ => None
  end.

(** The statuses with which a handler returns before it reaches
    [_use_model]: a required input is missing, or preparing the reference
    audio raised. *)
Definition input_rejection (s : status) : Prop :=
  match s with
  | TextRequired | SpeakerRequired | DesignRequired | TargetTextRequired
  | RefAudioRequired | RefTextRequired | Failed _ | Propagated _ => True
  | _ => False
  end.

(** The pool after a step: the stepping thread stands at its new position,
    every other thread where it stood, notified if the step notifies. *)
Definition bystander (e : effect) (p : pc) : pc :=
  if e_notify e then wake p else p.

(** ** A small world for the examples *)

Module Sample.

(** A model of the given type whose generation always yields one waveform
    at 12 kHz; it reports no languages and no speakers. *)
Definition model (kind : string) : Qwen3TTSModel :=
  {| tts_model_type_attr := Holds (Some kind);
     get_supported_languages := None;
     get_supported_speakers := None;
     generate := fun _ => inr ([[1%Q]], 12000) |}.

(** Two of the presets load; any other checkpoint raises. *)
Definition world : World :=
  {| from_pretrained := fun k =>
       if String.eqb k "Qwen/Qwen3-TTS-12Hz-1.7B-Base"
       then inr (model "base")
       else if String.eqb k "Qwen/Qwen3-TTS-12Hz-1.7B-VoiceDesign"
       then inr (model "voice_design")
       else inl (Exn "OSError" "not a checkpoint");
     _normalize_audio := inr |}.

(** A loader that ends in [sys.exit(1)], whatever the checkpoint. *)
Definition exiting : World :=
  {| from_pretrained := fun _ => inl (Exn "SystemExit" "1");
     _normalize_audio := inr |}.

(** The state [main] stores for a model of the given type. *)
Definition state (kind : string) : LoadedState :=
  match _build_model_state (model kind) kind with
  | inr st => st
  | inl _ => unloaded
  end.

(** The sliders at their defaults, with the given "Max New Tokens". *)
Definition adv (max_tokens : Q) : AdvParams :=
  {| a_max_tokens := Py.Float (Py.Finite max_tokens);
     a_temp := Py.Float (Py.Finite (9 # 10)); a_top_k := Py.Int 50;
     a_top_p := Py.Float (Py.Finite 1);
     a_rep_pen := Py.Float (Py.Finite (105 # 100)); a_do_sample := true;
     a_subtalker_dosample := true;
     a_subtalker_temp := Py.Float (Py.Finite (9 # 10));
     a_subtalker_top_k := Py.Int 50;
     a_subtalker_top_p := Py.Float (Py.Finite 1) |}.

Definition kwargs (max_tokens : Z) : GenKwargs :=
  {| max_new_tokens := max_tokens; temperature := Py.Finite (9 # 10);
     top_k := 50; top_p := Py.Finite 1;
     repetition_penalty := Py.Finite (105 # 100); do_sample := true;
     subtalker_dosample := true;
     subtalker_temperature := Py.Finite (9 # 10);
     subtalker_top_k := 50; subtalker_top_p := Py.Finite 1 |}.

(** A click on "Generate" of the CustomVoice panel. *)
Definition hello (max_tokens : Q) : request :=
  RunInstruct (Some "hi") (Some "Auto") (Some "Vivian") None (adv max_tokens).

(** The same click with the text box left empty. *)
Definition no_text : request :=
  RunInstruct (Some "") (Some "Auto") (Some "Vivian") None (adv 2048).

(** A click on "Generate" of the VoiceDesign panel. *)
Definition design : request :=
  RunVoiceDesign (Some "hi") (Some "Auto") (Some "calm") (adv 2048).

(** The REST wrapper with the base model loaded, and a voice-clone form
    with reference audio but neither transcript nor x-vector-only mode. *)
Definition api_base : Api.State :=
  {| Api.tts_model := Some (model "base");
     Api.model_kind := Some "base";
     Api.model_checkpoint := Some "Qwen/Qwen3-TTS-12Hz-1.7B-Base" |}.

Definition form_without_transcript : Api.VoiceCloneForm :=
  {| Api.f_text := "hi"; Api.f_language := "Auto";
     Api.f_ref_audio := inr [1%Q]; Api.f_ref_text := None;
     Api.f_x_vector_only := false; Api.f_params := kwargs 2048 |}.

End Sample.

(** ** Liveness of the coordinator *)

(** The positions of a call that has returned or raised. *)
Definition finished (p : pc) : bool :=
  match p with
  | Delivered _ _ _ _ | ReloadReturned _ | ReloadRaised _ => true
  | _ => false
  end.

(** How far a position is from the end of its call, counted along the code
    of the handler, of [_use_model] and of [_reload_model]; a notification
    moves a sleeping thread two up, back in front of the test of its
    loop. *)
Definition distance (p : pc) : nat :=
  match p with
  | Call _ => 9
  | UseWantLock _ => 8
  | UseNotified _ => 8
  | UseCheck _ => 7
  | UseWaiting _ => 6
  | UseAdmit _ => 6
  | Body _ _ => 5
  | Finally _ _ _ _ => 4
  | Delivered _ _ _ _ => 0
  | Reload _ => 12
  | ReloadWantLock _ => 11
  | ReloadNotified _ => 11
  | ReloadDrain _ => 10
  | ReloadWaiting _ => 9
  | ReloadClear _ => 9
  | ReloadLoad _ => 8
  | ReloadPublish _ => 7
  | ReloadFail _ => 7
  | ReloadFinish _ => 6
  | ReloadReturned _ => 0
  | ReloadRaised _ => 0
  end.

(** The weight of a thread in a pool of [n] threads: an unfinished call
    weighs [2 * n] more than its distance, which pays for the
    notifications it may still send. *)
Definition weight (n : nat) (p : pc) : nat :=
  if finished p then 0%nat else (2 * n + distance p)%nat.

Fixpoint total (n : nat) (l : list pc) : nat :=
  match l with
  | [] => 0%nat
  | p :: l => (weight n p + total n l)%nat
  end.

Definition measure (c : config) : nat := total (length (pool c)) (pool c).

(** The number of steps that a schedule really takes (naming a thread that
    cannot move is not a step). *)
Fixpoint moves (w : World) (sched : list nat) (c : config) : nat :=
  match sched with
  | [] => 0%nat
  | t :: sched =>
      match step w t c with
      | Some c' => S (moves w sched c')
      | None => moves w sched c
      end
  end.

(** The first of the threads [ts] that can move, moved. *)
Fixpoint first_step (w : World) (c : config) (ts : list nat)
  : option config :=
  match ts with
  | [] => None
  | t :: ts =>
      match step w t c with
      | Some c' => Some c'
      | None => first_step w c ts
      end
  end.

(** Let the threads run, lowest runnable thread first, for at most [fuel]
    steps. *)
Fixpoint drive (w : World) (fuel : nat) (c : config) : config :=
  match fuel with
  | O => c
  | S fuel =>
      match first_step w c (seq 0 (length (pool c))) with
      | Some c' => drive w fuel c'
      | None => c
      end
  end.

(** What holds of sleeping threads and of the lock, in addition to [Inv]:
    the lock is held by a thread in a critical section; a handler sleeps
    only while the flag is set, a reconfigure call only while handlers are
    in flight; and the flag is set only while some reconfigure call stands
    between its two assignments. *)
Record Live (c : config) : Prop := {
  live_owner : forall t,
    lock c = Some t -> exists p, pool c !! t = Some p /\ locked p = true;
  live_use_waiting : forall t r,
    pool c !! t = Some (UseWaiting r) -> reloading (ms c) = true;
  live_reload_waiting : forall t k,
    pool c !! t = Some (ReloadWaiting k) -> 0 < active_jobs (ms c);
  live_flag :
    reloading (ms c) = true ->
    exists t p, pool c !! t = Some p /\ flagged p = true
}.

(** ** What a handler can be handed *)

(** The positions of [_reload_model] before its clearing [update]. *)
Definition before_clear (p : pc) : bool :=
  match p with
  | Reload _ | ReloadWantLock _ | ReloadDrain _ | ReloadWaiting _
  | ReloadNotified _ | ReloadClear _ => true
  | _ => false
  end.

(** The state that a reconfigure call has stored with [_set_model_state]. *)
Definition published (p : pc) : option LoadedState :=
  match p with
  | ReloadFinish state | ReloadReturned state => Some state
  | _ => None
  end.

(** The snapshot that a handler holds. *)
Definition held (p : pc) : option Snapshot :=
  match p with
  | Body _ state | Finally _ state _ _ => Some state
  | Delivered _ state _ _ => state
  | _ => None
  end.

(** The snapshot that [_use_model] takes when the eight model keys are
    [ls]. *)
Definition view (ls : LoadedState) : Snapshot :=
  snapshot (update ls _MODEL_STATE).

(** What the position of a thread owes to the call it runs: a handler
    carries the request of its call; a reconfigure call carries its
    checkpoint, stripped once the first test is passed, then what [load]
    made of that checkpoint. *)
Definition follows (w : World) (k : call) (p : pc) : Prop :=
  match k with
  | Dispatch r =>
      match p with
      | Call r' | UseWantLock r' | UseCheck r' | UseWaiting r'
      | UseNotified r' | UseAdmit r' | Body r' _ | Finally r' _ _ _
      | Delivered r' _ _ _ => r' = r
      | _ => False
      end
  | Reconfigure ckpt =>
      let k := Py.strip (Py.or_empty ckpt) in
      match p with
      | Reload ckpt' => ckpt' = ckpt
      | ReloadWantLock k' | ReloadDrain k' | ReloadWaiting k'
      | ReloadNotified k' | ReloadClear k' | ReloadLoad k' =>
          k' = k /\ Py.truthy k = true
      | ReloadPublish state | ReloadFinish state | ReloadReturned state =>
          Py.truthy k = true /\ load w k = inr state
      | ReloadFail e =>
          Py.truthy k = true /\ load w k = inl e
      | ReloadRaised e =>
          (Py.truthy k = false /\ e = ValueError "Checkpoint is required.")
          \/ (Py.truthy k = true /\ load w k = inl e)
      | _ => False
      end
  end.

(** Thread [t] runs the [t]-th call. *)
Definition Traced (w : World) (calls : list call) (c : config) : Prop :=
  forall t p, pool c !! t = Some p ->
    exists k, calls !! t = Some k /\ follows w k p.

(** The model states that are not half-way through a reload, on a server
    booted with [st]: [st] itself; the state that a reconfigure call which
    has returned built from its checkpoint; or the cleared state, once a
    reconfigure call has raised what the loading of its checkpoint raised,
    through its [except Exception] block. *)
Definition settled (w : World) (st : LoadedState) (calls : list call)
    (c : config) (ls : LoadedState) : Prop :=
  ls = st
  \/ (exists t ckpt,
        calls !! t = Some (Reconfigure ckpt)
        /\ pool c !! t = Some (ReloadReturned ls)
        /\ load w (Py.strip (Py.or_empty ckpt)) = inr ls)
  \/ (ls = unloaded
      /\ exists t ckpt e,
           calls !! t = Some (Reconfigure ckpt)
           /\ pool c !! t = Some (ReloadRaised e)
           /\ load w (Py.strip (Py.or_empty ckpt)) = inl e
           /\ is_Exception e = true).

(** Where the model keys stand, by the position of the single reconfigure
    call. *)
Record Phase (w : World) (st : LoadedState) (calls : list call)
    (c : config) : Prop := {
  phase_before : forall t p,
    pool c !! t = Some p -> before_clear p = true -> loaded (ms c) = st;
  phase_after : forall t p state,
    pool c !! t = Some p -> published p = Some state ->
    loaded (ms c) = state;
  phase_raised : forall t e ckpt,
    pool c !! t = Some (ReloadRaised e) ->
    calls !! t = Some (Reconfigure ckpt) ->
    loaded (ms c)
    = if Py.truthy (Py.strip (Py.or_empty ckpt)) then unloaded else st;
  phase_none :
    (forall t p, pool c !! t = Some p -> reloader p = false) ->
    loaded (ms c) = st;
  phase_held : forall t p state,
    pool c !! t = Some p -> held p = Some state ->
    exists ls, settled w st calls c ls /\ state = view ls
}.

(** ** What reaches the engine *)

(** The capability an invocation uses, and its arguments. *)
Definition capability (call : EngineCall) : operation :=
  match call with
  | generate_custom_voice _ _ _ _ _ => CustomVoice
  | generate_voice_design _ _ _ _ => VoiceDesign
  | generate_voice_clone _ _ _ _ _ _ => VoiceClone
  end.

Definition text_of (call : EngineCall) : string :=
  match call with
  | generate_custom_voice text _ _ _ _ => text
  | generate_voice_design text _ _ _ => text
  | generate_voice_clone text _ _ _ _ _ => text
  end.

Definition language_of (call : EngineCall) : string :=
  match call with
  | generate_custom_voice _ language _ _ _ => language
  | generate_voice_design _ language _ _ => language
  | generate_voice_clone _ language _ _ _ _ => language
  end.

(** A string that is not empty and has no whitespace at either end. *)
Definition clean (s : string) : Prop := s <> "" /\ Py.strip s = s.

(** The free-text arguments of an invocation are in order: the text is
    clean; the instruction of CustomVoice is absent or clean, that of
    VoiceDesign is clean; the transcript of a clone is stripped, and is
    present and clean unless the x-vector-only mode is on. *)
Definition tidy (call : EngineCall) : Prop :=
  clean (text_of call)
  /\ match call with
     | generate_custom_voice _ _ _ instruct _ =>
         forall i, instruct = Some i -> clean i
     | generate_voice_design _ _ instruct _ => clean instruct
     | generate_voice_clone _ _ _ ref_text x_vector_only_mode _ =>
         (forall s, ref_text = Some s -> Py.strip s = s)
         /\ (x_vector_only_mode = false ->
             exists s, ref_text = Some s /\ clean s)
     end.

(** What a handler that has left its body records: its request, the
    snapshot it was handed and the invocations it made. *)
Definition record_of (p : pc)
  : option (request * Snapshot * list EngineCall) :=
  match p with
  | Finally r state _ calls => Some (r, state, calls)
  | Delivered r (Some state) _ calls => Some (r, state, calls)
  | _ => None
  end.

(** The states that [_build_model_state] builds. *)
Definition built (ls : LoadedState) : Prop :=
  exists m ckpt, _build_model_state m ckpt = inr ls.

(** The languages and speakers that the model of a snapshot supports. *)
Definition languages_of (state : Snapshot) : list string :=
  default [] (s_tts state ≫= get_supported_languages).

Definition speakers_of (state : Snapshot) : list string :=
  default [] (s_tts state ≫= get_supported_speakers).

(** ** The dropdowns of the demo *)

Definition _default_lang_value (choices : list string) : option string :=
  if bool_decide ("Auto" ∈ choices) then Some "Auto" else head choices.

Definition _default_spk_value (choices : list string) : option string :=
  match choices with
  | [] => None
  | first :: _ =>
      if bool_decide ("Vivian" ∈ choices) then Some "Vivian" else Some first
  end.

(** The [visible=] test of the panel of an operation, in [build_demo] and
    in [load_model]: [model_kind == "custom_voice"] and so on. *)
Definition panel_visible (op : operation) (model_kind : string) : bool :=
  String.eqb model_kind (kind_of op).

(** ** The command line of the demo *)

Inductive torch_dtype := bfloat16 | float16 | float32.

Definition _dtype_from_str (s : option string) : exn + torch_dtype :=
  let s := Py.lower (Py.strip (Py.or_empty s)) in
  if String.eqb s "bf16" || String.eqb s "bfloat16" then inr bfloat16
  else if String.eqb s "fp16" || String.eqb s "float16"
          || String.eqb s "half" then inr float16
  else if String.eqb s "fp32" || String.eqb s "float32" then inr float32
  else inl (ValueError ("Unsupported torch dtype: " +:+ s
                        +:+ ". Use bfloat16/float16/float32.")).

(** The [choices] of [--dtype] in [build_parser]. *)
Definition dtype_choices : list string :=
  ["bfloat16"; "bf16"; "float16"; "fp16"; "float32"; "fp32"].

(** The namespace that [build_parser] produces, as far as [main] and its
    helpers read it. Integers among the generation arguments are numbers
    like the others. *)
Record Args := {
  checkpoint_pos : option string;
  checkpoint : option string;
  dtype : string;
  arg_max_new_tokens : option Q;
  arg_temperature : option Q;
  arg_top_k : option Q;
  arg_top_p : option Q;
  arg_repetition_penalty : option Q;
  arg_subtalker_top_k : option Q;
  arg_subtalker_top_p : option Q;
  arg_subtalker_temperature : option Q
}.

(** [SystemExit(code)]. *)
Definition SystemExit (code : string) : exn := Exn "SystemExit" code.

Definition _resolve_checkpoint (args : Args) : exn + string :=
  let ckpt :=
    if Py.truthy (Py.or_empty (checkpoint args)) then checkpoint args
    else checkpoint_pos args in
  if Py.truthy (Py.or_empty ckpt) then inr (Py.or_empty ckpt)
  else inl (SystemExit "0").

(** [{k: v for k, v in mapping.items() if v is not None}], entry by
    entry. *)
Definition put (k : string) (v : option Q) (d : gmap string Q)
  : gmap string Q :=
  match v with
  | Some x => <[k := x]> d
  | None => d
  end.

Definition _collect_gen_kwargs (args : Args) : gmap string Q :=
  put "subtalker_temperature" (arg_subtalker_temperature args)
    (put "subtalker_top_p" (arg_subtalker_top_p args)
       (put "subtalker_top_k" (arg_subtalker_top_k args)
          (put "repetition_penalty" (arg_repetition_penalty args)
             (put "top_p" (arg_top_p args)
                (put "top_k" (arg_top_k args)
                   (put "temperature" (arg_temperature args)
                      (put "max_new_tokens" (arg_max_new_tokens args)
                         ∅))))))).

(** The values the sliders of [build_demo] start with:
    [gen_kwargs_default.get(key, constant)] for each slider. *)
Record SliderDefaults := {
  default_max_tokens : Q;
  default_temperature : Q;
  default_top_k : Q;
  default_top_p : Q;
  default_rep_penalty : Q;
  default_subtalker_temp : Q;
  default_subtalker_top_k : Q;
  default_subtalker_top_p : Q
}.

Definition slider_defaults (gen_kwargs_default : gmap string Q)
  : SliderDefaults :=
  {| default_max_tokens := default 2048%Q (gen_kwargs_default !! "max_new_tokens");
     default_temperature := default (9 # 10) (gen_kwargs_default !! "temperature");
     default_top_k := default 50%Q (gen_kwargs_default !! "top_k");
     default_top_p := default 1%Q (gen_kwargs_default !! "top_p");
     default_rep_penalty :=
       default (105 # 100) (gen_kwargs_default !! "repetition_penalty");
     default_subtalker_temp :=
       default (9 # 10) (gen_kwargs_default !! "subtalker_temperature");
     default_subtalker_top_k :=
       default 50%Q (gen_kwargs_default !! "subtalker_top_k");
     default_subtalker_top_p :=
       default 1%Q (gen_kwargs_default !! "subtalker_top_p") |}.

(** How [main] ends before it launches the interface, or the state it
    launches with. The loader of the model is the [from_pretrained] of the
    world; the device, dtype and attention arguments it is given are not
    followed. *)
Inductive main_result :=
| PrintedHelp
| MainRaised (e : exn)
| Launched (m : ModelState) (sliders : SliderDefaults).

Definition main (w : World) (args : Args) : main_result :=
  if negb (Py.truthy (Py.or_empty (checkpoint args)))
     && negb (Py.truthy (Py.or_empty (checkpoint_pos args)))
  then PrintedHelp
  else
    match _resolve_checkpoint args with
    | inl e => MainRaised e
    | inr ckpt0 =>
        match _dtype_from_str (Some (dtype args)) with
        | inl e => MainRaised e
        | inr _ =>
            match from_pretrained w ckpt0 with
            | inl e => MainRaised e
            | inr m =>
                match _build_model_state m ckpt0 with
                | inl e => MainRaised e
                | inr state =>
                    Launched (_set_model_state state _MODEL_STATE)
                      (slider_defaults (_collect_gen_kwargs args))
                end
            end
        end
    end.

(** ** The other endpoints of qwen_tts_api.py *)

Module Rest.

(** [MODEL_OPTIONS], in the order of the source, and [DEFAULT_MODEL]. *)
Definition MODEL_OPTIONS : list (string * string) :=
  [("base", "Qwen/Qwen3-TTS-12Hz-1.7B-Base");
   ("voice_design", "Qwen/Qwen3-TTS-12Hz-1.7B-VoiceDesign");
   ("custom_voice", "Qwen/Qwen3-TTS-12Hz-1.7B-CustomVoice")].

Definition DEFAULT_MODEL : string := "base".

(** [d.get(k)] on a dict written out as its items. *)
Fixpoint get (d : list (string * string)) (k : string) : option string :=
  match d with
  | [] => None
  | (k', v) :: d => if String.eqb k' k then Some v else get d k
  end.

Record VoiceDesignRequest := {
  base : Api.TTSRequest;
  instruct : string
}.

Definition voice_design (st : Api.State) (request : VoiceDesignRequest)
  : Api.response * list EngineCall :=
  match Api.tts_model st with
  | None => (Api.HTTPException 503 "Model not loaded", [])
  | Some m =>
      if negb (bool_decide (Api.model_kind st = Some "voice_design")
               || bool_decide (Api.model_kind st = Some "base"))
      then (Api.HTTPException 400
              ("Voice design not supported for "
               +:+ Api.kind_text (Api.model_kind st) +:+ " model"), [])
      else Api.respond m (generate_voice_design
                            (Api.text (base request))
                            (Api.language (base request))
                            (instruct request)
                            (Api.params (base request)))
  end.

(** What [/health] answers. *)
Record Health := {
  status : string;
  model_loaded : bool;
  model_type : option string
}.

Definition health (st : Api.State) : Health :=
  {| status := "healthy";
     model_loaded := bool_decide (is_Some (Api.tts_model st));
     model_type := Api.model_kind st |}.

(** What [/api/info] answers when a model is loaded. *)
Record Info := {
  info_model_checkpoint : option string;
  info_model_type : option string;
  supported_languages : option (list string);
  supported_speakers : option (list string);
  sample_rate : Z;
  available_models : list string;
  endpoint_voice_design : option string;
  endpoint_custom_voice : option string;
  endpoint_voice_clone : option string
}.

(** [get_info()]: [None] stands for the answer
    [{"status": "Model not loaded"}]. *)
Definition get_info (st : Api.State) : option Info :=
  match Api.tts_model st with
  | None => None
  | Some m =>
      Some {| info_model_checkpoint := Api.model_checkpoint st;
              info_model_type := Api.model_kind st;
              supported_languages := get_supported_languages m;
              supported_speakers := get_supported_speakers m;
              sample_rate := 12000;
              available_models := MODEL_OPTIONS.*1;
              endpoint_voice_design :=
                if bool_decide (Api.model_kind st = Some "voice_design")
                   || bool_decide (Api.model_kind st = Some "base")
                then Some "/api/voice-design" else None;
              endpoint_custom_voice :=
                if bool_decide (Api.model_kind st = Some "custom_voice")
                then Some "/api/custom-voice" else None;
              endpoint_voice_clone :=
                if bool_decide (Api.model_kind st = Some "base")
                then Some "/api/voice-clone" else None |}
  end.

Record ModelSwitchRequest := {
  model : option string;
  checkpoint : option string
}.

(** What [/api/load-model] answers; [LoadPropagated e] stands for no
    answer of the endpoint, because [e], which [except Exception] does not
    catch, leaves it. *)
Inductive load_response :=
| Loaded (model_type : option string) (model_checkpoint : option string)
| LoadException (status_code : Z) (detail : string)
| LoadPropagated (e : exn).

(** The checkpoint that [load_model_endpoint] settles on:
    [request.checkpoint or MODEL_OPTIONS.get(model_key)]. *)
Definition chosen_checkpoint (request : ModelSwitchRequest) : option string :=
  let model_key := Py.lower (Py.strip (Py.or_empty (model request))) in
  if Py.truthy (Py.or_empty (checkpoint request)) then checkpoint request
  else get MODEL_OPTIONS model_key.

Definition load_model_endpoint (w : World) (st : Api.State)
    (request : ModelSwitchRequest) : Api.State * load_response :=
  let ckpt0 := chosen_checkpoint request in
  if negb (Py.truthy (Py.or_empty ckpt0))
  then (st, LoadException 400 "Unknown model or checkpoint")
  else
    match Api._load_model w st (Py.or_empty ckpt0) with
    | (st', Some e) =>
        (st', if is_Exception e then LoadException 500 (exn_msg e)
              else LoadPropagated e)
    | (st', None) =>
        (st', Loaded (Api.model_kind st') (Api.model_checkpoint st'))
    end.

(** The start-up hook [load_model]: the new globals, and the exception
    that stops the start-up if the default model does not load. *)
Definition load_model (w : World) (st : Api.State)
  : Api.State * option exn :=
  Api._load_model w st (default DEFAULT_MODEL (get MODEL_OPTIONS DEFAULT_MODEL)).

End Rest.

(** ** The gateway, gateway.py *)

Module Gateway.

(** A JSON value, as [response.json()] gives it and as the payload
    dictionaries hold it; a dictionary keeps the order of its keys. *)
#[warnings="-register-all"]
Inductive json :=
| JNull
| JBool (b : bool)
| JInt (n : Z)
| JFloat (x : Q)
| JStr (s : string)
| JList (l : list json)
| JDict (d : list (string * json)).

(** Truth value of a JSON value in an [if]. *)
Definition truthy (v : json) : bool :=
  match v with
  | JNull => false
  | JBool b => b
  | JInt n => negb (n =? 0)
  | JFloat x => negb (Qeq_bool x 0)
  | JStr s => Py.truthy s
  | JList l => match l with [] => false | _ => true end
  | JDict d => match d with [] => false | _ => true end
  end.

(** [d.get(k)] on a dictionary. *)
Fixpoint dict_get (d : list (string * json)) (k : string) : json :=
  match d with
  | [] => JNull
  | (k', v) :: d' => if String.eqb k' k then v else dict_get d' k
  end.

(** An [Optional[str]], [Optional[int]] or [Optional[float]] field put
    in a payload. *)
Definition of_str (s : option string) : json :=
  match s with Some s => JStr s | None => JNull end.

Definition of_int (n : option Z) : json :=
  match n with Some n => JInt n | None => JNull end.

Definition of_float (x : option Q) : json :=
  match x with Some x => JFloat x | None => JNull end.

(** What [client.post] or [client.get] comes back with: a response, with
    its status, its body ([content], and [text] for the same body as a
    string) and what [json()] makes of it (the value, or the text of
    the exception it raises), or an exception of httpx, a timeout or
    another one, with its text. *)
Inductive upstream :=
| Response (status_code : Z) (content : string) (js : string + json)
| TimeoutException (msg : string)
| OtherException (msg : string).

(** What an endpoint answers: the audio as an attachment, a JSON value,
    or an [HTTPException]. *)
Inductive reply :=
| StreamingResponse (content : string) (filename : string)
| Json (body : json)
| HTTPException (status_code : Z) (detail : string).

Record TTSVoiceDesignRequest := {
  vd_text : string;
  vd_language : option string;
  vd_instruct : string;
  vd_max_new_tokens : option Z;
  vd_temperature : option Q;
  vd_top_k : option Z;
  vd_top_p : option Q;
  vd_repetition_penalty : option Q;
  vd_do_sample : bool;
  vd_subtalker_dosample : bool;
  vd_subtalker_temperature : option Q;
  vd_subtalker_top_k : option Z;
  vd_subtalker_top_p : option Q
}.

Record TTSCustomVoiceRequest := {
  cv_text : string;
  cv_language : string;
  cv_speaker : string;
  cv_instruct : option string;
  cv_max_new_tokens : option Z;
  cv_temperature : option Q;
  cv_top_k : option Z;
  cv_top_p : option Q;
  cv_repetition_penalty : option Q;
  cv_do_sample : bool;
  cv_subtalker_dosample : bool;
  cv_subtalker_temperature : option Q;
  cv_subtalker_top_k : option Z;
  cv_subtalker_top_p : option Q
}.

(** A [TTSVoiceDesignRequest] parsed from a body that gives only [text]
    and [instruct]: every other field at the default of the class. *)
Definition design_defaults (text instruct : string) : TTSVoiceDesignRequest :=
  {| vd_text := text; vd_language := Some "Auto"; vd_instruct := instruct;
     vd_max_new_tokens := Some 2048; vd_temperature := Some (9 # 10);
     vd_top_k := Some 50; vd_top_p := Some 1%Q;
     vd_repetition_penalty := Some (105 # 100);
     vd_do_sample := true; vd_subtalker_dosample := true;
     vd_subtalker_temperature := Some (9 # 10);
     vd_subtalker_top_k := Some 50; vd_subtalker_top_p := Some 1%Q |}.

(** An uploaded file: [read()] gives the bytes or raises. *)
Record UploadFile := {
  filename : option string;
  read : string + string;
  content_type : option string
}.

(** What the endpoints take from outside: the TTS service behind
    [SERVICES['qwen_tts']], reached by path with a JSON payload, with a
    multipart form or by GET, and [str(e)] of an [HTTPException], a
    method of the web framework. *)
Record Net := {
  post_json : string -> json -> upstream;
  post_form : string -> option string * string * option string ->
              list (string * json) -> upstream;
  get : string -> upstream;
  http_exception_str : Z -> string -> string
}.

(** What is raised inside the [try] of an endpoint. *)
Inductive raised :=
| RaisedHTTP (status_code : Z) (detail : string)
| RaisedTimeout (msg : string)
| RaisedOther (msg : string).

(** [str(e)] in an [except Exception as e]. *)
Definition str (n : Net) (e : raised) : string :=
  match e with
  | RaisedHTTP status detail => http_exception_str n status detail
  | RaisedTimeout msg => msg
  | RaisedOther msg => msg
  end.

(** [if response.status_code == 200: return StreamingResponse(...)
    else: raise HTTPException(response.status_code, response.text)],
    inside the [try]. *)
Definition stream_or_raise (filename : string) (u : upstream)
  : raised + reply :=
  match u with
  | Response status content _ =>
      if status =? 200 then inr (StreamingResponse content filename)
      else inl (RaisedHTTP status content)
  | TimeoutException msg => inl (RaisedTimeout msg)
  | OtherException msg => inl (RaisedOther msg)
  end.

(** [except httpx.TimeoutException: raise HTTPException(504, text)]
    followed by [except Exception as e: raise HTTPException(500, str(e))].
 *)
Definition except_timeout_then_any (n : Net) (timeout_text : string)
    (r : raised + reply) : reply :=
  match r with
  | inr ok => ok
  | inl (RaisedTimeout _) => HTTPException 504 timeout_text
  | inl e => HTTPException 500 (str n e)
  end.

(** [except Exception as e: raise HTTPException(500, str(e))] alone. *)
Definition except_any (n : Net) (r : raised + reply) : reply :=
  match r with
  | inr ok => ok
  | inl e => HTTPException 500 (str n e)
  end.

(** The [data] dictionary of [tts_voice_clone]. *)
Definition voice_clone_data (text language : string)
    (ref_text : option string) (x_vector_only : bool)
    (max_new_tokens : Z) (temperature : Q) (top_k : Z) (top_p : Q)
    (repetition_penalty : Q) : list (string * json) :=
  [("text", JStr text);
   ("language", JStr language);
   ("ref_text", JStr (Py.or_empty ref_text));
   ("x_vector_only", JBool x_vector_only);
   ("max_new_tokens", JInt max_new_tokens);
   ("temperature", JFloat temperature);
   ("top_k", JInt top_k);
   ("top_p", JFloat top_p);
   ("repetition_penalty", JFloat repetition_penalty)].

Definition tts_voice_clone (n : Net) (text language : string)
    (ref_audio : UploadFile) (ref_text : option string) (x_vector_only : bool)
    (max_new_tokens : Z) (temperature : Q) (top_k : Z) (top_p : Q)
    (repetition_penalty : Q) : reply :=
  except_any n
    (match read ref_audio with
     | inl msg => inl (RaisedOther msg)
     | inr bytes =>
         let files := (filename ref_audio, bytes, content_type ref_audio) in
         let data :=
           voice_clone_data text language ref_text x_vector_only
             max_new_tokens temperature top_k top_p repetition_penalty in
         stream_or_raise "voice_clone.wav"
           (post_form n "/api/voice-clone" files data)
     end).

(** The [payload] dictionary of [tts_voice_design]. *)
Definition voice_design_payload (request : TTSVoiceDesignRequest) : json :=
    JDict
      [("text", JStr (vd_text request));
       ("language", of_str (vd_language request));
       ("instruct", JStr (vd_instruct request));
       ("max_new_tokens", of_int (vd_max_new_tokens request));
       ("temperature", of_float (vd_temperature request));
       ("top_k", of_int (vd_top_k request));
       ("top_p", of_float (vd_top_p request));
       ("repetition_penalty", of_float (vd_repetition_penalty request));
       ("do_sample", JBool (vd_do_sample request));
       ("subtalker_dosample", JBool (vd_subtalker_dosample request));
       ("subtalker_temperature", of_float (vd_subtalker_temperature request));
       ("subtalker_top_k", of_int (vd_subtalker_top_k request));
       ("subtalker_top_p", of_float (vd_subtalker_top_p request))].

Definition tts_voice_design (n : Net) (request : TTSVoiceDesignRequest)
  : reply :=
  except_timeout_then_any n "TTS generation timeout"
    (stream_or_raise "voice_design.wav"
       (post_json n "/api/voice-design" (voice_design_payload request))).

(** The [payload] dictionary of [tts_custom_voice]. *)
Definition custom_voice_payload (request : TTSCustomVoiceRequest) : json :=
    JDict
      [("text", JStr (cv_text request));
       ("language", JStr (cv_language request));
       ("speaker", JStr (cv_speaker request));
       ("instruct", of_str (cv_instruct request));
       ("max_new_tokens", of_int (cv_max_new_tokens request));
       ("temperature", of_float (cv_temperature request));
       ("top_k", of_int (cv_top_k request));
       ("top_p", of_float (cv_top_p request));
       ("repetition_penalty", of_float (cv_repetition_penalty request));
       ("do_sample", JBool (cv_do_sample request));
       ("subtalker_dosample", JBool (cv_subtalker_dosample request));
       ("subtalker_temperature", of_float (cv_subtalker_temperature request));
       ("subtalker_top_k", of_int (cv_subtalker_top_k request));
       ("subtalker_top_p", of_float (cv_subtalker_top_p request))].

Definition tts_custom_voice (n : Net) (request : TTSCustomVoiceRequest)
  : reply :=
  except_any n
    (stream_or_raise "custom_voice.wav"
       (post_json n "/api/custom-voice" (custom_voice_payload request))).

(** The [payload] dictionary of [tts_simple]. *)
Definition simple_payload (text : string) (voice_description : option string)
  : json :=
    JDict
      [("text", JStr text);
       ("language", JStr "Auto");
       ("instruct", of_str voice_description);
       ("max_new_tokens", JInt 2048);
       ("temperature", JFloat (9 # 10));
       ("top_k", JInt 50);
       ("top_p", JFloat 1);
       ("repetition_penalty", JFloat (105 # 100));
       ("do_sample", JBool true);
       ("subtalker_dosample", JBool true);
       ("subtalker_temperature", JFloat (9 # 10));
       ("subtalker_top_k", JInt 50);
       ("subtalker_top_p", JFloat 1)].

Definition tts_simple (n : Net) (text : string)
    (voice_description : option string) : reply :=
  except_timeout_then_any n "TTS generation timeout - text may be too long"
    (stream_or_raise "speech.wav"
       (post_json n "/api/voice-design"
          (simple_payload text voice_description))).

Definition tts_load_model (n : Net) (payload : json) : reply :=
  except_timeout_then_any n "Model load timeout"
    (match post_json n "/api/load-model" payload with
     | Response status content js =>
         if status =? 200
         then match js with
              | inr v => inr (Json v)
              | inl msg => inl (RaisedOther msg)
              end
         else inl (RaisedHTTP status content)
     | TimeoutException msg => inl (RaisedTimeout msg)
     | OtherException msg => inl (RaisedOther msg)
     end).

(** The entries of [base_info] that [tts_info] may change; the two
    [current_...] keys are absent until they are set. *)
Record TTSInfo := {
  supported_languages : json;
  available_speakers : json;
  current_model_type : option json;
  current_model_checkpoint : option json
}.

Definition base_info : TTSInfo :=
  {| supported_languages :=
       JList [JStr "Auto"; JStr "English"; JStr "Chinese"; JStr "Japanese";
              JStr "Korean"; JStr "Spanish"; JStr "French"; JStr "German"];
     available_speakers := JList [JStr "Vivian"; JStr "Ryan"];
     current_model_type := None;
     current_model_checkpoint := None |}.

(** [tts_info()]: [upstream.get] raises on a value that is not a
    dictionary, before [base_info] is touched, and every exception of
    the [try] is logged and dropped. *)
Definition tts_info (n : Net) : TTSInfo :=
  match get n "/api/info" with
  | Response status _ js =>
      if status =? 200
      then
        match js with
        | inr (JDict upstream) =>
            {| supported_languages :=
                 if truthy (dict_get upstream "supported_languages")
                 then dict_get upstream "supported_languages"
                 else supported_languages base_info;
               available_speakers :=
                 if truthy (dict_get upstream "supported_speakers")
                 then dict_get upstream "supported_speakers"
                 else available_speakers base_info;
               current_model_type := Some (dict_get upstream "model_type");
               current_model_checkpoint :=
                 Some (dict_get upstream "model_checkpoint") |}
        | _ => base_info
        end
      else base_info
  | _ => base_info
  end.

(** The status an endpoint answers with. *)
Definition status_of (r : reply) : Z :=
  match r with
  | StreamingResponse _ _ => 200
  | Json _ => 200
  | HTTPException status _ => status
  end.

End Gateway.

(** ** A second sample: a model that reports languages and speakers *)

Module Fixture.

(** A CustomVoice model with two languages and two speakers. *)
Definition model : Qwen3TTSModel :=
  {| tts_model_type_attr := Holds (Some "custom_voice");
     get_supported_languages := Some ["english"; "chinese"];
     get_supported_speakers := Some ["vivian"; "ryan"];
     generate := fun _ => inr ([[1%Q]], 12000) |}.

(** Only the checkpoint "local" loads, and gives that model. *)
Definition world : World :=
  {| from_pretrained := fun k =>
       if String.eqb k "local" then inr model
       else inl (Exn "OSError" "not a checkpoint");
     _normalize_audio := inr |}.

(** The state [main] stores for it. *)
Definition state : LoadedState :=
  match _build_model_state model "local" with
  | inr st => st
  | inl _ => unloaded
  end.

(** A click on "Generate" of the CustomVoice panel with the language
    dropdown at "English". *)
Definition english : request :=
  RunInstruct (Some "hi") (Some "English") (Some "Vivian") None
    (Sample.adv 2048).

(** A TTS service that has no model loaded: it answers every request with
    status 503. *)
Definition net : Gateway.Net :=
  {| Gateway.post_json := fun _ _ =>
       Gateway.Response 503 "Model not loaded"
         (inr (Gateway.JDict [("detail", Gateway.JStr "Model not loaded")]));
     Gateway.post_form := fun _ _ _ =>
       Gateway.Response 503 "Model not loaded"
         (inr (Gateway.JDict [("detail", Gateway.JStr "Model not loaded")]));
     Gateway.get := fun _ =>
       Gateway.Response 200 ""
         (inr (Gateway.JDict [("model_type", Gateway.JNull);
                              ("supported_languages", Gateway.JList [])]));
     Gateway.http_exception_str := fun _ detail => detail |}.

End Fixture.

Lemma outstanding_nonneg (l : list pc) : 0 <= outstanding l.
Proof. induction l as [|p l IH]; simpl; [lia|]. destruct (holding p); lia. Qed.

Lemma outstanding_insert (l : list pc) (t : nat) (p q : pc) :
  l !! t = Some p ->
  outstanding (<[t := q]> l)
  = outstanding l - (if holding p then 1 else 0) + (if holding q then 1 else 0).
Proof.
  revert t. induction l as [|a l IH]; intros [|t] H; simplify_eq/=.
  - lia.
  - rewrite (IH _ H). lia.
Qed.

Lemma holding_wake (p : pc) : holding (wake p) = holding p.
Proof. by destruct p. Qed.

Lemma locked_wake (p : pc) : locked (wake p) = locked p.
Proof. by destruct p. Qed.

Lemma wake_locked (p : pc) : locked p = true -> wake p = p.
Proof. by destruct p. Qed.

Lemma reloader_wake (p : pc) : reloader (wake p) = reloader p.
Proof. by destruct p. Qed.

Lemma waiting_wake (p : pc) : waiting (wake p) = false.
Proof. by destruct p. Qed.

Lemma consistent_wake (w : World) (p : pc) : consistent w p -> consistent w (wake p).
Proof. by destruct p. Qed.

Lemma outstanding_wake (l : list pc) : outstanding (wake <$> l) = outstanding l.
Proof.
  induction l as [|p l IH]; [done|].
  rewrite fmap_cons. cbn [outstanding]. by rewrite holding_wake, IH.
Qed.

Lemma lookup_apply_self (t : nat) (c : config) (e : effect) (p : pc) :
  pool c !! t = Some p -> pool (apply_effect t c e) !! t = Some (e_pc e).
Proof.
  intros H. simpl. apply list_lookup_insert_eq.
  destruct (e_notify e); [rewrite length_fmap|]; by eapply lookup_lt_Some.
Qed.

Lemma lookup_apply_other (t t' : nat) (c : config) (e : effect) :
  t' <> t ->
  pool (apply_effect t c e) !! t' = bystander e <$> pool c !! t'.
Proof.
  intros H. simpl. rewrite list_lookup_insert_ne by done.
  unfold bystander. destruct (e_notify e).
  - by rewrite list_lookup_fmap.
  - by destruct (pool c !! t').
Qed.

Lemma lookup_apply (t t' : nat) (c : config) (e : effect) (p p' : pc) :
  pool c !! t = Some p ->
  pool (apply_effect t c e) !! t' = Some p' ->
  (t' = t /\ p' = e_pc e)
  \/ (t' <> t /\ exists q, pool c !! t' = Some q /\ p' = bystander e q).
Proof.
  intros Hp H. destruct (decide (t' = t)) as [->|Hne].
  - rewrite (lookup_apply_self _ _ _ _ Hp) in H. left. by simplify_eq.
  - rewrite lookup_apply_other in H by done.
    destruct (pool c !! t') as [q|]; simplify_eq/=. right. eauto.
Qed.

Lemma outstanding_apply (t : nat) (c : config) (e : effect) (p : pc) :
  pool c !! t = Some p ->
  outstanding (pool (apply_effect t c e))
  = outstanding (pool c) - (if holding p then 1 else 0)
    + (if holding (e_pc e) then 1 else 0).
Proof.
  intros Hp. simpl. destruct (e_notify e).
  - rewrite (outstanding_insert _ _ (wake p)).
    + by rewrite outstanding_wake, holding_wake.
    + by rewrite list_lookup_fmap, Hp.
  - by apply outstanding_insert.
Qed.

(** Case analysis of a step of a thread. *)
Ltac step_cases H :=
  match type of H with
  | local_step _ _ _ _ ?p = Some _ =>
      destruct p; simpl in H; repeat case_match; simplify_eq/=
  end.

(** A step that touches the shared state, the lock or the waiters is taken
    with the lock free or by the thread that holds it. *)
Lemma local_step_frame w t m l p e :
  local_step w t m l p = Some e ->
  (e_ms e = m /\ e_lock e = l /\ e_notify e = false)
  \/ l = None \/ locked p = true.
Proof.
  intros H. step_cases H; auto;
    match goal with H : free ?l = true |- _ => destruct l; simplify_eq/=; auto end.
Qed.

Lemma local_step_lock w t m l p e :
  local_step w t m l p = Some e ->
  (locked p = true -> l = Some t) ->
  locked (e_pc e) = true -> e_lock e = Some t.
Proof. intros H Hl Hn. step_cases H; auto. Qed.

Lemma local_step_admit w t m l p e r :
  local_step w t m l p = Some e ->
  e_pc e = UseAdmit r ->
  p = UseCheck r /\ reloading m = false /\ e_ms e = m /\ e_lock e = l
  /\ e_notify e = false.
Proof. intros H Hn. step_cases H; auto. Qed.

Lemma local_step_clear w t m l p e k :
  local_step w t m l p = Some e ->
  e_pc e = ReloadClear k ->
  p = ReloadDrain k /\ active_jobs m <= 0 /\ e_ms e = m /\ e_lock e = l
  /\ e_notify e = false.
Proof.
  intros H Hn. step_cases H; repeat split; auto.
  match goal with H : (0 <? _) = false |- _ => apply Z.ltb_ge in H; lia end.
Qed.

Lemma local_step_count w t m l p e :
  local_step w t m l p = Some e ->
  active_jobs (e_ms e)
  = active_jobs m - (if holding p then 1 else 0)
    + (if holding (e_pc e) then 1 else 0).
Proof. intros H. step_cases H; lia. Qed.

Lemma local_step_consistent w t m l p e :
  local_step w t m l p = Some e ->
  consistent w p -> consistent w (e_pc e).
Proof.
  intros H Hc. step_cases H; eauto.
  all: repeat match goal with
         | H : _ /\ _ |- _ => destruct H
         | H : exists _, _ |- _ => destruct H
         end; eauto 6.
Qed.


Lemma step_inversion w t c c' :
  step w t c = Some c' ->
  exists p e, pool c !! t = Some p
              /\ local_step w t (ms c) (lock c) p = Some e
              /\ c' = apply_effect t c e.
Proof.
  unfold step. intros H.
  destruct (pool c !! t) as [p|] eqn:Hp; simplify_eq/=.
  destruct (local_step w t (ms c) (lock c) p) as [e|] eqn:He; simplify_eq/=.
  eauto.
Qed.

(** While another thread holds the lock, a step changes neither the shared
    state nor the lock, and notifies nobody. *)
Lemma step_frame w t t' c p q e :
  Inv w c ->
  pool c !! t = Some p ->
  local_step w t (ms c) (lock c) p = Some e ->
  t' <> t -> pool c !! t' = Some q -> locked q = true ->
  e_ms e = ms c /\ e_lock e = lock c /\ e_notify e = false.
Proof.
  intros HI Hp He Hne Hq Hl.
  pose proof (inv_lock _ _ HI _ _ Hq Hl) as Ht'.
  destruct (local_step_frame _ _ _ _ _ _ He) as [?|[Hfree|Hlk]]; [done|..].
  - congruence.
  - pose proof (inv_lock _ _ HI _ _ Hp Hlk). congruence.
Qed.

Lemma bystander_locked e q :
  locked (bystander e q) = true -> bystander e q = q /\ locked q = true.
Proof.
  unfold bystander. destruct (e_notify e); [|done].
  rewrite locked_wake. intros H. by rewrite wake_locked.
Qed.

Lemma step_preserves_inv w t c c' :
  Inv w c -> step w t c = Some c' -> Inv w c'.
Proof.
  intros HI Hs. apply step_inversion in Hs as (p & e & Hp & He & ->).
  split.
  - intros t' p' Hp' Hl.
    destruct (lookup_apply _ _ _ _ _ _ Hp Hp') as [[-> ->]|(Hne & q & Hq & ->)].
    + eapply local_step_lock; eauto. intros. by eapply inv_lock.
    + apply bystander_locked in Hl as [_ Hl].
      destruct (step_frame _ _ _ _ _ _ _ HI Hp He Hne Hq Hl) as (_ & Hlk & _).
      simpl. rewrite Hlk. by eapply inv_lock.
  - intros t' r Hp'.
    destruct (lookup_apply _ _ _ _ _ _ Hp Hp') as [[-> Hr]|(Hne & q & Hq & Hr)].
    + symmetry in Hr.
      destruct (local_step_admit _ _ _ _ _ _ _ He Hr) as (_ & ? & Hm & _).
      simpl. by rewrite Hm.
    + assert (Hl : locked (bystander e q) = true) by by rewrite <- Hr.
      apply bystander_locked in Hl as [Hb Hl]. rewrite Hb in Hr. subst q.
      destruct (step_frame _ _ _ _ _ _ _ HI Hp He Hne Hq Hl) as (Hm & _).
      simpl. rewrite Hm. by eapply inv_admit.
  - intros t' k Hp'.
    destruct (lookup_apply _ _ _ _ _ _ Hp Hp') as [[-> Hr]|(Hne & q & Hq & Hr)].
    + symmetry in Hr.
      destruct (local_step_clear _ _ _ _ _ _ _ He Hr) as (_ & ? & Hm & _).
      simpl. by rewrite Hm.
    + assert (Hl : locked (bystander e q) = true) by by rewrite <- Hr.
      apply bystander_locked in Hl as [Hb Hl]. rewrite Hb in Hr. subst q.
      destruct (step_frame _ _ _ _ _ _ _ HI Hp He Hne Hq Hl) as (Hm & _).
      simpl. rewrite Hm. by eapply inv_clear.
  - rewrite (outstanding_apply _ _ _ _ Hp). cbn [ms apply_effect].
    rewrite (local_step_count _ _ _ _ _ _ He). by rewrite (inv_count _ _ HI).
  - intros t' p' Hp'.
    destruct (lookup_apply _ _ _ _ _ _ Hp Hp') as [[-> ->]|(Hne & q & Hq & ->)].
    + eapply local_step_consistent; eauto. by eapply inv_consistent.
    + unfold bystander. pose proof (inv_consistent _ _ HI _ _ Hq).
      destruct (e_notify e); [by apply consistent_wake|done].
Qed.

Lemma run_thread_preserves_inv w t c : Inv w c -> Inv w (run_thread w c t).
Proof.
  intros HI. unfold run_thread.
  destruct (step w t c) as [c'|] eqn:Hs; simpl; [|done].
  by eapply step_preserves_inv.
Qed.

Lemma run_preserves_inv w sched c : Inv w c -> Inv w (run w sched c).
Proof.
  revert c. induction sched as [|t sched IH]; intros c HI; simpl; [done|].
  apply IH. by apply run_thread_preserves_inv.
Qed.

Lemma lookup_spawn (calls : list call) (t : nat) (p : pc) :
  (spawn <$> calls) !! t = Some p ->
  (exists r, p = Call r) \/ (exists k, p = Reload k).
Proof.
  rewrite list_lookup_fmap. destruct (calls !! t) as [[r|k]|]; intros; simplify_eq/=; eauto.
Qed.

Lemma outstanding_spawn (calls : list call) : outstanding (spawn <$> calls) = 0.
Proof.
  induction calls as [|[r|k] calls IH]; [done|..]; rewrite fmap_cons;
    cbn [outstanding spawn holding]; lia.
Qed.

Lemma boot_inv w st calls : Inv w (boot st calls).
Proof.
  split; simpl.
  - intros t p H. by destruct (lookup_spawn _ _ _ H) as [[? ->]|[? ->]].
  - intros t r H. by destruct (lookup_spawn _ _ _ H) as [[? ?]|[? ?]].
  - intros t k H. by destruct (lookup_spawn _ _ _ H) as [[? ?]|[? ?]].
  - by rewrite outstanding_spawn.
  - intros t p H. by destruct (lookup_spawn _ _ _ H) as [[? ->]|[? ->]].
Qed.

(** Every configuration the server reaches satisfies the invariants. *)
Lemma reachable_inv w st calls sched : Inv w (run w sched (boot st calls)).
Proof. apply run_preserves_inv, boot_inv. Qed.

(** ** A single reconfigure call *)

Lemma outstanding_pos (l : list pc) (t : nat) (p : pc) :
  l !! t = Some p -> holding p = true -> 1 <= outstanding l.
Proof.
  revert t. induction l as [|a l IH]; intros [|t] H Hh; simplify_eq/=.
  - rewrite Hh. pose proof (outstanding_nonneg l). lia.
  - pose proof (IH _ H Hh). destruct (holding a); lia.
Qed.

Lemma local_step_reloader w t m l p e :
  local_step w t m l p = Some e -> reloader (e_pc e) = reloader p.
Proof. intros H. by step_cases H. Qed.

Lemma local_step_handler w t m l p e :
  local_step w t m l p = Some e -> reloader p = false ->
  reloading (e_ms e) = reloading m /\ loaded (e_ms e) = loaded m.
Proof. intros H Hr. by step_cases H. Qed.

Lemma local_step_flagged w t m l p e :
  local_step w t m l p = Some e ->
  consistent w p ->
  (flagged p = true -> reloading m = true) ->
  flagged (e_pc e) = true -> reloading (e_ms e) = true.
Proof.
  intros H Hc Hf Hn. step_cases H; auto; try (by vm_compute in Hn).
  destruct Hc as [_ Hc]. by rewrite Hc in Hn.
Qed.

Lemma local_step_drained w t m l p e :
  local_step w t m l p = Some e ->
  (drained p = true -> active_jobs m = 0) ->
  (forall k, p = ReloadClear k -> active_jobs m = 0) ->
  drained (e_pc e) = true -> active_jobs (e_ms e) = 0.
Proof. intros H Hd Hc Hn. step_cases H; eauto. Qed.

Lemma local_step_emptied w t m l p e :
  local_step w t m l p = Some e ->
  (emptied p = true -> loaded m = unloaded) ->
  emptied (e_pc e) = true -> loaded (e_ms e) = unloaded.
Proof. intros H Hd Hn. step_cases H; auto. Qed.

Lemma local_step_jobs w t m l p e :
  local_step w t m l p = Some e ->
  active_jobs (e_ms e) <> active_jobs m ->
  (exists r, p = UseAdmit r) \/ holding p = true.
Proof. intros H Hn. step_cases H; eauto. Qed.

Lemma bystander_reloader e q : reloader (bystander e q) = reloader q.
Proof. unfold bystander. destruct (e_notify e); [apply reloader_wake|done]. Qed.

Lemma flagged_wake p : flagged (wake p) = flagged p.
Proof. by destruct p. Qed.

Lemma drained_bystander e q :
  drained (bystander e q) = true -> drained q = true.
Proof. unfold bystander. destruct (e_notify e); [|done]. by destruct q. Qed.

Lemma emptied_bystander e q :
  emptied (bystander e q) = true -> emptied q = true.
Proof. unfold bystander. destruct (e_notify e); [|done]. by destruct q. Qed.

Lemma flagged_bystander e q :
  flagged (bystander e q) = true -> flagged q = true.
Proof.
  unfold bystander. destruct (e_notify e); [|done]. by rewrite flagged_wake.
Qed.

Lemma flagged_reloader p : flagged p = true -> reloader p = true.
Proof. by destruct p. Qed.

Lemma drained_flagged p : drained p = true -> flagged p = true.
Proof. by destruct p. Qed.

Lemma emptied_flagged p : emptied p = true -> flagged p = true.
Proof. by destruct p. Qed.

(** With a single reloading thread, a step of another thread is a step of
    a handler. *)
Lemma sole_other_is_handler c t t' p q :
  Sole c -> pool c !! t = Some p -> pool c !! t' = Some q ->
  t' <> t -> reloader q = true -> reloader p = false.
Proof.
  intros HS Hp Hq Hne Hr. destruct (reloader p) eqn:E; [|done].
  destruct Hne. eapply sole_reloader; eauto.
Qed.

Lemma step_preserves_sole w t c c' :
  Inv w c -> Sole c -> step w t c = Some c' -> Sole c'.
Proof.
  intros HI HS Hs. apply step_inversion in Hs as (p & e & Hp & He & ->).
  pose proof (local_step_reloader _ _ _ _ _ _ He) as Hrel.
  split.
  - intros t1 t2 p1 p2 H1 H2 R1 R2.
    assert (forall t' p', pool (apply_effect t c e) !! t' = Some p' ->
              reloader p' = true ->
              exists q, pool c !! t' = Some q /\ reloader q = true) as Hback.
    { intros t' p' Hp' R.
      destruct (lookup_apply _ _ _ _ _ _ Hp Hp')
        as [[-> ->]|(Hne & q & Hq & ->)].
      - exists p. split; [done|]. by rewrite <- Hrel.
      - exists q. split; [done|]. by rewrite <- (bystander_reloader e). }
    destruct (Hback _ _ H1 R1) as (q1 & Hq1 & Rq1).
    destruct (Hback _ _ H2 R2) as (q2 & Hq2 & Rq2).
    eapply sole_reloader; eauto.
  - intros t' p' Hp' Hf.
    destruct (lookup_apply _ _ _ _ _ _ Hp Hp') as [[-> ->]|(Hne & q & Hq & ->)].
    + eapply local_step_flagged; eauto; [by eapply inv_consistent|].
      intros. by eapply sole_flag.
    + apply flagged_bystander in Hf.
      pose proof (sole_other_is_handler _ _ _ _ _ HS Hp Hq Hne
                    (flagged_reloader _ Hf)) as Hh.
      destruct (local_step_handler _ _ _ _ _ _ He Hh) as [Hr _].
      simpl. rewrite Hr. by eapply sole_flag.
  - intros t' p' Hp' Hd.
    destruct (lookup_apply _ _ _ _ _ _ Hp Hp') as [[-> ->]|(Hne & q & Hq & ->)].
    + eapply local_step_drained; eauto.
      * intros. by eapply sole_drained.
      * intros k ->. pose proof (inv_clear _ _ HI _ _ Hp).
        pose proof (inv_count _ _ HI). pose proof (outstanding_nonneg (pool c)).
        lia.
    + apply drained_bystander in Hd.
      pose proof (sole_drained _ HS _ _ Hq Hd) as H0.
      pose proof (sole_flag _ HS _ _ Hq (drained_flagged _ Hd)) as Hfl.
      simpl. destruct (decide (active_jobs (e_ms e) = active_jobs (ms c)))
        as [->|Hch]; [done|].
      destruct (local_step_jobs _ _ _ _ _ _ He Hch) as [[r ->]|Hh].
      * pose proof (inv_admit _ _ HI _ _ Hp). congruence.
      * pose proof (outstanding_pos _ _ _ Hp Hh).
        pose proof (inv_count _ _ HI). lia.
  - intros t' p' Hp' Hd.
    destruct (lookup_apply _ _ _ _ _ _ Hp Hp') as [[-> ->]|(Hne & q & Hq & ->)].
    + eapply local_step_emptied; eauto. intros. by eapply sole_emptied.
    + apply emptied_bystander in Hd.
      pose proof (sole_other_is_handler _ _ _ _ _ HS Hp Hq Hne
                    (flagged_reloader _ (emptied_flagged _ Hd))) as Hh.
      destruct (local_step_handler _ _ _ _ _ _ He Hh) as [_ Hr].
      simpl. rewrite Hr. by eapply sole_emptied.
Qed.

Lemma run_preserves_sole w sched c :
  Inv w c -> Sole c -> Sole (run w sched c).
Proof.
  revert c. induction sched as [|t sched IH]; intros c HI HS; simpl; [done|].
  apply IH; [by apply run_thread_preserves_inv|].
  unfold run_thread. destruct (step w t c) as [c'|] eqn:Hs; simpl; [|done].
  by eapply step_preserves_sole.
Qed.

Lemma boot_sole st calls : one_reconfigure calls -> Sole (boot st calls).
Proof.
  intros H1. split; simpl.
  - intros t1 t2 p1 p2. rewrite !list_lookup_fmap.
    destruct (calls !! t1) as [[r1|k1]|] eqn:E1; intros; simplify_eq/=.
    destruct (calls !! t2) as [[r2|k2]|] eqn:E2; simplify_eq/=.
    by eapply H1.
  - intros t p H. by destruct (lookup_spawn _ _ _ H) as [[? ->]|[? ->]].
  - intros t p H. by destruct (lookup_spawn _ _ _ H) as [[? ->]|[? ->]].
  - intros t p H. by destruct (lookup_spawn _ _ _ H) as [[? ->]|[? ->]].
Qed.

Lemma reachable_sole w st calls sched :
  one_reconfigure calls -> Sole (run w sched (boot st calls)).
Proof.
  intros H. apply run_preserves_sole; [apply boot_inv|by apply boot_sole].
Qed.

(** ** The lock and the sleepers *)

Lemma local_step_owner w t t' m l p e :
  local_step w t m l p = Some e ->
  (l = Some t -> locked p = true) ->
  e_lock e = Some t' ->
  (t' = t /\ locked (e_pc e) = true) \/ (t' <> t /\ l = Some t').
Proof.
  intros H Hl He. destruct (decide (t' = t)) as [->|Hne].
  - left. split; [done|]. step_cases H; auto;
      try (by discriminate (Hl eq_refl)).
  - right. split; [done|]. step_cases H; auto; congruence.
Qed.

Lemma local_step_unflag w t m l p e :
  local_step w t m l p = Some e ->
  reloading m = true -> e_notify e = false -> reloading (e_ms e) = true.
Proof. intros H Hr Hn. by step_cases H. Qed.

Lemma local_step_jobs_positive w t m l p e :
  local_step w t m l p = Some e ->
  0 < active_jobs m -> e_notify e = false -> 0 < active_jobs (e_ms e).
Proof.
  intros H Hr Hn. step_cases H; lia.
Qed.

Lemma local_step_flag_origin w t m l p e :
  local_step w t m l p = Some e ->
  reloading (e_ms e) = true ->
  flagged (e_pc e) = true \/ (flagged p = false /\ reloading m = true).
Proof.
  intros H Hr. step_cases H; auto; try congruence.
  all: left; simpl;
    by match goal with H : is_Exception _ = false |- _ => rewrite H end.
Qed.

Lemma local_step_use_waiting w t m l p e r :
  local_step w t m l p = Some e -> e_pc e = UseWaiting r ->
  reloading m = true /\ e_ms e = m.
Proof. intros H Hn. by step_cases H. Qed.

Lemma local_step_reload_waiting w t m l p e k :
  local_step w t m l p = Some e -> e_pc e = ReloadWaiting k ->
  0 < active_jobs m /\ e_ms e = m.
Proof.
  intros H Hn. step_cases H. split; [|done].
  match goal with H : (0 <? _) = true |- _ => by apply Z.ltb_lt in H end.
Qed.

Lemma bystander_waiting e q :
  waiting (bystander e q) = true -> e_notify e = false /\ bystander e q = q.
Proof.
  unfold bystander. destruct (e_notify e); [|done].
  by rewrite waiting_wake.
Qed.

Lemma step_preserves_live w t c c' :
  Inv w c -> Live c -> step w t c = Some c' -> Live c'.
Proof.
  intros HI HL Hs. apply step_inversion in Hs as (p & e & Hp & He & ->).
  split.
  - intros t' Hl. cbn [lock apply_effect] in Hl.
    assert (lock c = Some t -> locked p = true) as Hown.
    { intros Ht. destruct (live_owner _ HL _ Ht) as (q & Hq & Hl').
      rewrite Hp in Hq. by simplify_eq. }
    destruct (local_step_owner _ _ _ _ _ _ _ He Hown Hl)
      as [[-> Hn]|[Hne Ho]].
    + exists (e_pc e). split; [|done]. by eapply lookup_apply_self.
    + destruct (live_owner _ HL _ Ho) as (q & Hq & Hlq).
      exists q. split; [|done]. rewrite lookup_apply_other by done.
      rewrite Hq. simpl. unfold bystander.
      destruct (e_notify e); [by rewrite wake_locked|done].
  - intros t' r Hp'.
    destruct (lookup_apply _ _ _ _ _ _ Hp Hp') as [[-> Hr]|(Hne & q & Hq & Hr)].
    + symmetry in Hr.
      destruct (local_step_use_waiting _ _ _ _ _ _ _ He Hr) as [? Hm].
      simpl. by rewrite Hm.
    + assert (Hw : waiting (bystander e q) = true) by by rewrite <- Hr.
      apply bystander_waiting in Hw as [Hn Hb]. rewrite Hb in Hr. subst q.
      simpl. eapply local_step_unflag; eauto. by eapply live_use_waiting.
  - intros t' k Hp'.
    destruct (lookup_apply _ _ _ _ _ _ Hp Hp') as [[-> Hr]|(Hne & q & Hq & Hr)].
    + symmetry in Hr.
      destruct (local_step_reload_waiting _ _ _ _ _ _ _ He Hr) as [? Hm].
      simpl. by rewrite Hm.
    + assert (Hw : waiting (bystander e q) = true) by by rewrite <- Hr.
      apply bystander_waiting in Hw as [Hn Hb]. rewrite Hb in Hr. subst q.
      simpl. eapply local_step_jobs_positive; eauto.
      by eapply live_reload_waiting.
  - intros Hr. cbn [ms apply_effect] in Hr.
    destruct (local_step_flag_origin _ _ _ _ _ _ He Hr) as [Hf|[Hf Hm]].
    + exists t, (e_pc e). split; [|done]. by eapply lookup_apply_self.
    + destruct (live_flag _ HL Hm) as (t0 & q & Hq & Hfq).
      assert (t0 <> t) as Hne by (intros ->; congruence).
      exists t0, (bystander e q). split.
      * rewrite lookup_apply_other by done. by rewrite Hq.
      * unfold bystander. destruct (e_notify e); [|done].
        by rewrite flagged_wake.
Qed.

Lemma boot_live st calls : Live (boot st calls).
Proof.
  split; simpl; try done.
  - intros t r H. by destruct (lookup_spawn _ _ _ H) as [[? ?]|[? ?]].
  - intros t k H. by destruct (lookup_spawn _ _ _ H) as [[? ?]|[? ?]].
Qed.

Lemma run_preserves_live w sched c : Inv w c -> Live c -> Live (run w sched c).
Proof.
  revert c. induction sched as [|t sched IH]; intros c HI HL; simpl; [done|].
  apply IH; [by apply run_thread_preserves_inv|].
  unfold run_thread. destruct (step w t c) as [c'|] eqn:Hs; simpl; [|done].
  by eapply step_preserves_live.
Qed.

Lemma reachable_live w st calls sched : Live (run w sched (boot st calls)).
Proof. apply run_preserves_live; [apply boot_inv|apply boot_live]. Qed.

(** ** Acquisition *)

Lemma bystander_body e q r state :
  bystander e q = Body r state -> q = Body r state.
Proof. unfold bystander. destruct (e_notify e); [|done]. by destruct q. Qed.

(** C1. In every interleaving of handlers and reconfigure calls, a handler
    is handed the model only with the reloading flag false. A thread at the
    test of the flag in [_use_model] always takes its step: if the flag is
    true it goes to sleep in [wait()], releasing the lock and changing
    nothing; if the flag is false it passes the loop, keeping the lock. A
    sleeping thread takes no step, and sleeps only while the flag is true.
    A notified thread can do one thing only: take the lock again and stand
    at the test of the flag once more. A thread behind the loop holds the
    lock and the flag is false; its next step adds one to [active_jobs] and
    yields the snapshot of the state at that moment, with the flag still
    false; and this is the only step that hands out a snapshot. While the
    thread stands behind the loop, no step of another thread changes
    [_MODEL_STATE], so no reconfigure call sets the flag between the test
    and the increment. *)
Theorem acquire_only_while_not_reloading
    (w : World) (st : LoadedState) (calls : list call) (sched : list nat) :
  let c := run w sched (boot st calls) in
  (forall t r, pool c !! t = Some (UseCheck r) ->
     exists c', step w t c = Some c' /\ ms c' = ms c
       /\ if reloading (ms c)
          then pool c' = <[t := UseWaiting r]> (pool c) /\ lock c' = None
          else pool c' = <[t := UseAdmit r]> (pool c) /\ lock c' = lock c)
  /\ (forall t r, pool c !! t = Some (UseWaiting r) ->
        reloading (ms c) = true /\ step w t c = None)
  /\ (forall t r, pool c !! t = Some (UseNotified r) ->
        (lock c = None ->
         exists c', step w t c = Some c' /\ ms c' = ms c
           /\ pool c' = <[t := UseCheck r]> (pool c) /\ lock c' = Some t)
        /\ (forall c', step w t c = Some c' ->
              pool c' !! t = Some (UseCheck r)))
  /\ (forall t r, pool c !! t = Some (UseAdmit r) ->
        reloading (ms c) = false /\ lock c = Some t
        /\ exists c', step w t c = Some c'
             /\ pool c' !! t = Some (Body r (snapshot (ms c)))
             /\ active_jobs (ms c') = active_jobs (ms c) + 1
             /\ reloading (ms c') = false
             /\ loaded (ms c') = loaded (ms c))
  /\ (forall t c' t' r state,
        step w t c = Some c' -> pool c' !! t' = Some (Body r state) ->
        pool c !! t' = Some (Body r state)
        \/ (t' = t /\ pool c !! t = Some (UseAdmit r)
            /\ reloading (ms c) = false /\ reloading (ms c') = false
            /\ active_jobs (ms c') = active_jobs (ms c) + 1
            /\ state = snapshot (ms c)))
  /\ (forall t r t' c', pool c !! t = Some (UseAdmit r) -> t' <> t ->
        step w t' c = Some c' -> ms c' = ms c).
Proof.
  intros c. pose proof (reachable_inv w st calls sched) as HI.
  pose proof (reachable_live w st calls sched) as HL. fold c in HI, HL.
  split; [|split; [|split; [|split; [|split]]]].
  - intros t r Hp. unfold step. rewrite Hp. simpl.
    destruct (reloading (ms c)); eexists; (split; [done|]); by simpl.
  - intros t r Hp. split; [by eapply live_use_waiting|].
    unfold step. by rewrite Hp.
  - intros t r Hp. split.
    + intros Hl. unfold step. rewrite Hp. simpl. rewrite Hl. simpl.
      eexists. split; [done|]. by simpl.
    + intros c' Hs. apply step_inversion in Hs as (p & e & Hp' & He & ->).
      rewrite (lookup_apply_self _ _ _ _ Hp'). rewrite Hp in Hp'.
      simplify_eq. simpl in He. by destruct (free (lock c)); simplify_eq.
  - intros t r Hp. pose proof (inv_admit _ _ HI _ _ Hp) as Hfl.
    split; [done|]. split; [by eapply inv_lock|].
    unfold step. rewrite Hp. simpl. eexists. split; [done|]. simpl.
    split; [|done]. apply list_lookup_insert_eq. by eapply lookup_lt_Some.
  - intros t c' t' r state Hs Hb.
    apply step_inversion in Hs as (p & e & Hp & He & ->).
    destruct (lookup_apply _ _ _ _ _ _ Hp Hb) as [[-> Hr]|(Hne & q & Hq & Hr)].
    + right. symmetry in Hr. step_cases He.
      pose proof (inv_admit _ _ HI _ _ Hp) as Hfl.
      by rewrite Hfl.
    + left. symmetry in Hr. apply bystander_body in Hr. by subst q.
  - intros t r t' c' Hp Hne Hs.
    apply step_inversion in Hs as (p & e & Hp' & He & ->).
    by destruct (step_frame _ _ _ _ _ _ _ HI Hp' He (not_eq_sym Hne) Hp
                   eq_refl).
Qed.

(** ** The count of outstanding handles *)

Lemma waiting_bystander_notified e q :
  e_notify e = true -> waiting (bystander e q) = false.
Proof. intros H. unfold bystander. rewrite H. apply waiting_wake. Qed.

(** C5. In every interleaving, [active_jobs] is the number of handlers that
    hold a yielded snapshot; so it is never negative, and it is 0 exactly
    when no handle is outstanding. A step adds one exactly when a handler
    is admitted by [_use_model], takes one away exactly when a handler runs
    the [finally] of [_use_model], and leaves the count alone otherwise.
    The body of the [with] always reaches the [finally], however it is left
    (a return, among them the returns for an unloaded or unsuitable model,
    or an exception); the [finally] runs as soon as the lock is free; the
    handler has then returned and takes no further step, so the decrement
    happens once. When the decrement brings the count to 0, no thread is
    left waiting un-notified. *)
Theorem active_jobs_counts_outstanding
    (w : World) (st : LoadedState) (calls : list call) (sched : list nat) :
  let c := run w sched (boot st calls) in
  0 <= active_jobs (ms c)
  /\ active_jobs (ms c) = outstanding (pool c)
  /\ (active_jobs (ms c) = 0
      <-> forall t p, pool c !! t = Some p -> holding p = false)
  /\ (forall t c' p, step w t c = Some c' -> pool c !! t = Some p ->
        (forall r, p = UseAdmit r ->
           active_jobs (ms c') = active_jobs (ms c) + 1
           /\ pool c' !! t = Some (Body r (snapshot (ms c))))
        /\ (forall r state x ecalls, p = Finally r state x ecalls ->
              active_jobs (ms c') = active_jobs (ms c) - 1
              /\ pool c' !! t
                 = Some (Delivered r (Some state) (deliver x) ecalls)
              /\ (active_jobs (ms c') = 0 ->
                  forall t' q, pool c' !! t' = Some q -> waiting q = false))
        /\ ((forall r, p <> UseAdmit r) ->
            (forall r state x ecalls, p <> Finally r state x ecalls) ->
            active_jobs (ms c') = active_jobs (ms c)))
  /\ (forall t r state, pool c !! t = Some (Body r state) ->
        exists c' x ecalls, step w t c = Some c'
          /\ pool c' !! t = Some (Finally r state x ecalls))
  /\ (forall t r state x ecalls,
        pool c !! t = Some (Finally r state x ecalls) -> lock c = None ->
        exists c', step w t c = Some c')
  /\ (forall t r state out ecalls,
        pool c !! t = Some (Delivered r state out ecalls) ->
        step w t c = None).
Proof.
  intros c. pose proof (reachable_inv w st calls sched) as HI. fold c in HI.
  pose proof (inv_count _ _ HI) as Hcount.
  pose proof (outstanding_nonneg (pool c)) as Hnn.
  split; [lia|]. split; [done|]. split; [|split; [|split; [|split]]].
  - split.
    + intros H0 t p Hp. destruct (holding p) eqn:Hh; [|done].
      pose proof (outstanding_pos _ _ _ Hp Hh). lia.
    + intros Hall. rewrite Hcount. clear -Hall.
      induction (pool c) as [|a l IH]; [done|]. simpl.
      rewrite (Hall 0%nat a eq_refl). rewrite IH; [done|].
      intros t p Hp. by apply (Hall (S t)).
  - intros t c' p Hs Hp.
    apply step_inversion in Hs as (p0 & e & Hp0 & He & ->).
    rewrite Hp in Hp0. simplify_eq.
    split; [|split].
    + intros r ->. rewrite (lookup_apply_self _ _ _ _ Hp).
      simpl in He. by simplify_eq.
    + intros r state x ecalls ->. rewrite (lookup_apply_self _ _ _ _ Hp).
      simpl in He. destruct (free (lock c)); simplify_eq/=.
      split; [done|]. split; [done|].
      intros H0 t' q Hq.
      assert (Hn : e_notify {| e_ms := set_active_jobs (active_jobs (ms c) - 1) (ms c);
                               e_lock := None;
                               e_notify := active_jobs (ms c) - 1 <=? 0;
                               e_pc := Delivered r (Some state) (deliver x) ecalls |}
                   = true).
      { simpl. apply Z.leb_le. lia. }
      destruct (decide (t' = t)) as [->|Hne].
      * rewrite list_lookup_insert_eq in Hq; [by simplify_eq|].
        simpl in Hn. rewrite Hn, length_fmap. by eapply lookup_lt_Some.
      * rewrite list_lookup_insert_ne in Hq by done.
        simpl in Hn. rewrite Hn in Hq. rewrite list_lookup_fmap in Hq.
        destruct (pool c !! t'); simplify_eq/=. apply waiting_wake.
    + intros Ha Hf. simpl.
      destruct (decide (active_jobs (e_ms e) = active_jobs (ms c)))
        as [->|Hch]; [done|].
      step_cases He; try lia; try done.
      * exfalso. by eapply Ha.
      * exfalso. by eapply Hf.
  - intros t r state Hp.
    destruct (inv_consistent _ _ HI _ _ Hp) as (body & Hb).
    unfold step. rewrite Hp. simpl. rewrite Hb.
    destruct (body state) as [x ecalls] eqn:Hbody. simpl.
    eexists _, x, ecalls. split; [done|].
    simpl. apply list_lookup_insert_eq. by eapply lookup_lt_Some.
  - intros t r state x ecalls Hp Hl. unfold step. rewrite Hp. simpl.
    rewrite Hl. simpl. eauto.
  - intros t r state out ecalls Hp. unfold step. by rewrite Hp.
Qed.

(** ** Reconfiguration *)

Lemma bystander_holding e q : holding q = true -> bystander e q = q.
Proof. unfold bystander. destruct (e_notify e); [|done]. by destruct q. Qed.

Lemma reachable_jobs_nonneg w st calls sched :
  0 <= active_jobs (ms (run w sched (boot st calls))).
Proof.
  rewrite (inv_count _ _ (reachable_inv w st calls sched)).
  apply outstanding_nonneg.
Qed.

(** C2, as the code has it. In every interleaving, a reconfigure call
    does not clear the current model before [active_jobs] has come down to
    0. While [active_jobs > 0] the call sleeps in [wait()] and changes
    nothing; a notified call goes back to the test; the loop is left only
    with [active_jobs = 0]; and the clearing [update] runs in the same
    critical section, so [active_jobs] is 0 when the model is cleared. The
    model changes in no step other than the clearing [update] and the
    later [_set_model_state] of a reconfigure call. No step of a
    reconfigure call changes [active_jobs] or moves a handler that holds a
    snapshot: the handlers in flight are waited for, not cancelled. When
    the calls contain a single reconfigure, [_set_model_state] too finds
    [active_jobs = 0], the flag still set and the model still cleared;
    when reconfigure calls overlap it need not. *)
Theorem reload_drains_before_swap
    (w : World) (st : LoadedState) (calls : list call) (sched : list nat)
    (t : nat) (c' : config) :
  let c := run w sched (boot st calls) in
  step w t c = Some c' ->
  (forall k, pool c !! t = Some (ReloadDrain k) -> 0 < active_jobs (ms c) ->
     pool c' !! t = Some (ReloadWaiting k) /\ ms c' = ms c)
  /\ (forall k, pool c !! t = Some (ReloadNotified k) ->
        pool c' !! t = Some (ReloadDrain k) /\ ms c' = ms c)
  /\ (forall k, pool c' !! t = Some (ReloadClear k) ->
        pool c !! t = Some (ReloadDrain k) /\ active_jobs (ms c) = 0
        /\ ms c' = ms c)
  /\ (forall k, pool c !! t = Some (ReloadClear k) ->
        active_jobs (ms c) = 0 /\ active_jobs (ms c') = 0
        /\ loaded (ms c') = unloaded
        /\ pool c' !! t = Some (ReloadLoad k))
  /\ (loaded (ms c') <> loaded (ms c) ->
        (exists k, pool c !! t = Some (ReloadClear k))
        \/ (exists state, pool c !! t = Some (ReloadPublish state)))
  /\ (forall p, pool c !! t = Some p -> reloader p = true ->
        active_jobs (ms c') = active_jobs (ms c)
        /\ forall t' q, pool c !! t' = Some q -> holding q = true ->
             pool c' !! t' = Some q)
  /\ (one_reconfigure calls ->
      forall state, pool c !! t = Some (ReloadPublish state) ->
        active_jobs (ms c) = 0 /\ reloading (ms c) = true
        /\ loaded (ms c) = unloaded).
Proof.
  intros c Hs. pose proof (reachable_inv w st calls sched) as HI.
  pose proof (reachable_jobs_nonneg w st calls sched) as Hnn.
  fold c in HI, Hnn. apply step_inversion in Hs as (p & e & Hp & He & ->).
  pose proof (lookup_apply_self t c e p Hp) as Hself.
  split; [|split; [|split; [|split; [|split; [|split]]]]].
  - intros k Hk Hpos. rewrite Hp in Hk. simplify_eq. simpl in He.
    apply Z.ltb_lt in Hpos. rewrite Hpos in He. by simplify_eq.
  - intros k Hk. rewrite Hp in Hk. simplify_eq. simpl in He.
    destruct (free (lock c)); by simplify_eq.
  - intros k Hk. rewrite Hself in Hk. injection Hk as Hk.
    destruct (local_step_clear _ _ _ _ _ _ _ He Hk) as (-> & ? & Hm & _).
    split; [done|]. split; [lia|done].
  - intros k Hk. rewrite Hp in Hk. simplify_eq.
    pose proof (inv_clear _ _ HI _ _ Hp). simpl in He. simplify_eq.
    rewrite Hself. simpl. repeat split; try done; lia.
  - intros Hch. simpl in Hch. step_cases He; try done; eauto.
  - intros q Hq Hr. rewrite Hp in Hq. simplify_eq. split.
    + step_cases He; done.
    + intros t' q' Hq' Hh. destruct (decide (t' = t)) as [->|Hne].
      * rewrite Hp in Hq'. simplify_eq. by destruct q'.
      * rewrite lookup_apply_other by done. rewrite Hq'. simpl.
        by rewrite bystander_holding.
  - intros H1 state Hk.
    pose proof (reachable_sole w st calls sched H1) as HS. fold c in HS.
    split; [|split].
    + by eapply (sole_drained _ HS).
    + by eapply (sole_flag _ HS).
    + by eapply (sole_emptied _ HS).
Qed.

(** One of the three handlers that reaches its body on a snapshot without a
    model answers "Model not loaded." and does not invoke the engine. *)
Lemma body_unloaded w r body state :
  handler_of w r = WithModel body -> is_Some (operation_of r) ->
  s_tts state = None ->
  body state = (Return (None, ModelNotLoaded), []).
Proof.
  intros Hb [op Hop] Hn.
  destruct r; simplify_eq/=;
    unfold run_instruct, run_voice_design, run_voice_clone in Hb;
    repeat case_match; simplify_eq; by rewrite Hn.
Qed.

Lemma notified_pool_has_no_waiter (l : list pc) (t t' : nat) (p q : pc) :
  waiting p = false ->
  <[t := p]> (wake <$> l) !! t' = Some q -> waiting q = false.
Proof.
  intros Hw Hq. destruct (decide (t' = t)) as [->|Hne].
  - apply list_lookup_insert_Some in Hq as [(_ & <- & _)|(Hne & _)]; done.
  - rewrite list_lookup_insert_ne in Hq by done.
    rewrite list_lookup_fmap in Hq.
    destruct (l !! t'); simplify_eq/=. apply waiting_wake.
Qed.

(** C3, as the code has it. [_reload_model] unloads before it loads: the
    clearing [update] has removed the model before [from_pretrained] is
    tried. When the construction raises an exception that
    [except Exception] catches, the [except] block restores nothing: it
    leaves the eight model keys and [active_jobs] as they are, sets the flag
    to false, notifies every waiter, and re-raises the exception of the
    construction unchanged. When no other reconfigure call is among the
    calls, the model is therefore absent after the failure, and every
    handler that is then admitted answers "Model not loaded." without
    invoking the engine. An exception that [except Exception] does not
    catch leaves [_reload_model] at once: nothing is restored, nobody is
    notified and, when no other reconfigure call is among the calls, the
    flag stays set. [_load_model] of the REST wrapper clears its globals
    first in the same way. *)
Theorem failed_reload_leaves_model_unloaded
    (w : World) (st : LoadedState) (calls : list call) (sched : list nat)
    (t : nat) (c' : config) :
  let c := run w sched (boot st calls) in
  step w t c = Some c' ->
  (forall k, pool c !! t = Some (ReloadClear k) ->
     loaded (ms c') = unloaded /\ pool c' !! t = Some (ReloadLoad k))
  /\ (forall k e, pool c !! t = Some (ReloadLoad k) -> load w k = inl e ->
        ms c' = ms c /\ lock c' = lock c
        /\ pool c'
           = <[t := if is_Exception e then ReloadFail e else ReloadRaised e]>
               (pool c))
  /\ (forall e, pool c !! t = Some (ReloadFail e) ->
        is_Exception e = true
        /\ loaded (ms c') = loaded (ms c)
        /\ active_jobs (ms c') = active_jobs (ms c)
        /\ reloading (ms c') = false
        /\ (forall t' q, pool c' !! t' = Some q -> waiting q = false)
        /\ pool c' !! t = Some (ReloadRaised e)
        /\ (exists k, load w k = inl e)
        /\ (one_reconfigure calls ->
            loaded (ms c') = unloaded
            /\ forall r body, handler_of w r = WithModel body ->
                 is_Some (operation_of r) ->
                 body (snapshot (ms c'))
                 = (Return (None, ModelNotLoaded), [])))
  /\ (one_reconfigure calls ->
      forall e, pool c' !! t = Some (ReloadRaised e) ->
        is_Exception e = false ->
        reloading (ms c') = true /\ loaded (ms c') = unloaded)
  /\ (forall ast k e, from_pretrained w k = inl e ->
        Api._load_model w ast k = (Api._clear_model ast, Some e)
        /\ Api.tts_model (Api._clear_model ast) = None).
Proof.
  intros c Hs. pose proof (reachable_inv w st calls sched) as HI.
  fold c in HI.
  assert (one_reconfigure calls -> Sole c') as HS'.
  { intros H1. eapply step_preserves_sole; [exact HI| |exact Hs].
    by apply reachable_sole. }
  apply step_inversion in Hs as (p & e & Hp & He & ->).
  pose proof (lookup_apply_self t c e p Hp) as Hself.
  split; [|split; [|split; [|split]]].
  - intros k Hk. rewrite Hp in Hk. simplify_eq. simpl in He. simplify_eq.
    by rewrite Hself.
  - intros k e' Hk Hl. rewrite Hp in Hk. simplify_eq. simpl in He.
    rewrite Hl in He. by destruct (is_Exception e'); simplify_eq.
  - intros e' Hk. rewrite Hp in Hk. simplify_eq.
    destruct (inv_consistent _ _ HI _ _ Hp) as [Hload Hexc].
    simpl in He. destruct (free (lock c)); simplify_eq.
    rewrite Hself. cbn [apply_effect pool ms lock e_notify e_pc e_ms e_lock].
    split; [done|]. split; [done|]. split; [done|]. split; [done|].
    split; [|split; [done|split; [done|]]].
    + intros t' q Hq. by eapply notified_pool_has_no_waiter; [|exact Hq].
    + intros H1.
      pose proof (reachable_sole w st calls sched H1) as HS. fold c in HS.
      pose proof (sole_emptied _ HS _ _ Hp eq_refl) as Hu.
      split; [done|].
      intros r body Hb Hop. apply (body_unloaded _ _ _ _ Hb Hop). simpl.
      by rewrite Hu.
  - intros H1 e' Hr Hexc. specialize (HS' H1).
    assert (escaped (ReloadRaised e') = true) as Hesc.
    { simpl. by rewrite Hexc. }
    split.
    + by eapply (sole_flag _ HS' _ _ Hr).
    + by eapply (sole_emptied _ HS' _ _ Hr).
  - intros ast k e' Hl. unfold Api._load_model. rewrite Hl. split; [done|].
    unfold Api._clear_model. by destruct (Api.tts_model ast) eqn:E.
Qed.

(** C4, as the code has it. [_reload_model] has no test of the flag: a
    call that arrives while the flag is already set takes the lock as soon
    as it is free, sets the flag again and enters the drain loop, whatever
    the flag was; it changes nothing else in that step. The only exceptions
    [_reload_model] raises are the [ValueError] for a missing checkpoint and
    whatever the construction of the model raised. *)
Theorem reload_never_refuses
    (w : World) (st : LoadedState) (calls : list call) (sched : list nat) :
  let c := run w sched (boot st calls) in
  (forall t k, pool c !! t = Some (ReloadWantLock k) -> lock c = None ->
     exists c', step w t c = Some c'
       /\ pool c' !! t = Some (ReloadDrain k)
       /\ reloading (ms c') = true
       /\ loaded (ms c') = loaded (ms c)
       /\ active_jobs (ms c') = active_jobs (ms c))
  /\ (forall t e, pool c !! t = Some (ReloadRaised e) ->
        e = ValueError "Checkpoint is required."
        \/ exists k, load w k = inl e).
Proof.
  intros c. pose proof (reachable_inv w st calls sched) as HI. fold c in HI.
  split.
  - intros t k Hp Hl. unfold step. rewrite Hp. simpl. rewrite Hl. simpl.
    eexists. split; [done|]. simpl. split; [|done].
    apply list_lookup_insert_eq. by eapply lookup_lt_Some.
  - intros t e Hp. apply (inv_consistent _ _ HI _ _ Hp).
Qed.

Lemma lstrip_all_space (s : string) : all_space s = true -> Py.lstrip s = "".
Proof.
  induction s as [|a s IH]; [done|]. simpl.
  intros [Ha Hs]%andb_prop. rewrite Ha. by apply IH.
Qed.

Lemma strip_all_space (s : string) : all_space s = true -> Py.strip s = "".
Proof. intros H. unfold Py.strip. by rewrite lstrip_all_space. Qed.

(** C10. A reconfigure call whose checkpoint is [None], empty or made of
    whitespace only raises [ValueError("Checkpoint is required.")] in its
    first step: [_MODEL_STATE] (model, [active_jobs], flag) and the lock are
    as before, and no other thread is moved or notified. *)
Theorem blank_checkpoint_changes_nothing
    (w : World) (st : LoadedState) (calls : list call) (sched : list nat)
    (t : nat) (ckpt : option string) :
  let c := run w sched (boot st calls) in
  pool c !! t = Some (Reload ckpt) ->
  (ckpt = None \/ exists s, ckpt = Some s /\ all_space s = true) ->
  exists c', step w t c = Some c'
    /\ ms c' = ms c /\ lock c' = lock c
    /\ pool c'
       = <[t := ReloadRaised (ValueError "Checkpoint is required.")]> (pool c)
    /\ step w t c' = None.
Proof.
  intros c Hp Hblank.
  assert (Py.strip (Py.or_empty ckpt) = "") as Hs.
  { destruct Hblank as [->|(s & -> & Hs)]; [done|by apply strip_all_space]. }
  unfold step at 1. rewrite Hp. simpl. rewrite Hs. simpl.
  eexists. split; [done|]. simpl. repeat split.
  unfold step. simpl. rewrite list_lookup_insert_eq; [done|].
  by eapply lookup_lt_Some.
Qed.

(** ** Dispatch *)

(** A handler that reaches its body on a loaded model of another kind
    answers "Current model does not support ..." and does not invoke the
    engine. *)
Lemma body_unsupported w r op body state m :
  handler_of w r = WithModel body -> operation_of r = Some op ->
  s_tts state = Some m ->
  s_model_kind state <> kind_of op ->
  body state = (Return (None, NotSupported op), []).
Proof.
  intros Hb Hop Hm Hk. apply String.eqb_neq in Hk.
  destruct r; simplify_eq/=;
    unfold run_instruct, run_voice_design, run_voice_clone in Hb;
    repeat case_match; simplify_eq; by rewrite Hm, Hk.
Qed.

(** A handler that reaches its body on a loaded model of its own kind
    converts the advanced parameters with [_gen_common_kwargs]; if that
    raises, the body is left by the exception and nothing is invoked;
    otherwise the engine is invoked once, with the keyword arguments
    built. *)
Lemma body_supported w r op adv body state m :
  handler_of w r = WithModel body ->
  operation_of r = Some op -> adv_of r = Some adv ->
  s_tts state = Some m ->
  s_model_kind state = kind_of op ->
  match _gen_common_kwargs adv with
  | inr kw => exists call, body state = invoke m call /\ kwargs_of call = kw
  | inl e => body state = (Raise e, [])
  end.
Proof.
  intros Hb Hop Hadv Hm Hk.
  destruct r; simplify_eq/=;
    unfold run_instruct, run_voice_design, run_voice_clone in Hb;
    repeat case_match; simplify_eq; rewrite Hm, Hk; simpl;
    destruct (_gen_common_kwargs adv); simpl; eauto.
Qed.

(** A handler that returns before [_use_model] returns no audio and the
    message of a missing input (or of the exception raised while the
    reference audio was prepared). *)
Lemma early_is_input_rejection w r out :
  handler_of w r = Early out -> out.1 = None /\ input_rejection out.2.
Proof.
  intros Hb.
  destruct r; simpl in Hb;
    unfold run_instruct, run_voice_design, run_voice_clone in Hb;
    repeat case_match; simplify_eq; try done.
  unfold deliver. by destruct (is_Exception _).
Qed.

(** The handler returns from the [finally] of [_use_model]: the step that
    delivers the outcome of an admitted handler is the decrement. *)
Lemma delivered_after_release w t c c' r state out ecalls :
  Inv w c -> step w t c = Some c' ->
  pool c' !! t = Some (Delivered r (Some state) out ecalls) ->
  exists body x, pool c !! t = Some (Finally r state x ecalls)
    /\ handler_of w r = WithModel body /\ body state = (x, ecalls)
    /\ out = deliver x
    /\ active_jobs (ms c') = active_jobs (ms c) - 1.
Proof.
  intros HI Hs Hd. apply step_inversion in Hs as (p & e & Hp & He & ->).
  rewrite (lookup_apply_self _ _ _ _ Hp) in Hd. injection Hd as Hd.
  step_cases He.
  destruct (inv_consistent _ _ HI _ _ Hp) as (body & Hb & Hx).
  eauto 10.
Qed.

Lemma delivered_without_acquire w t c c' r out ecalls :
  step w t c = Some c' ->
  pool c' !! t = Some (Delivered r None out ecalls) ->
  pool c !! t = Some (Call r) /\ handler_of w r = Early out
  /\ ecalls = [] /\ ms c' = ms c.
Proof.
  intros Hs Hd. apply step_inversion in Hs as (p & e & Hp & He & ->).
  rewrite (lookup_apply_self _ _ _ _ Hp) in Hd. injection Hd as Hd.
  by step_cases He.
Qed.

(** C6, as the code has it. In demo.py a handler ([run_instruct],
    [run_voice_design], [run_voice_clone]) tests its required inputs
    before anything else, in a fixed order, and only a handler whose
    inputs are all present goes on to [_use_model]. A handler with a
    missing input (or whose reference audio cannot be prepared) returns in
    its first step, with the message of that input (or the failure),
    whatever model is loaded, and leaves [_MODEL_STATE] and the lock alone;
    an outcome delivered without a snapshot is always such a message,
    never "does not support". A handler that was admitted and
    was handed a loaded model of a kind that does not serve its operation
    answers "Current model does not support ...", has not invoked the
    engine, and delivers that outcome in the very step in which the
    [finally] of [_use_model] takes its handle off [active_jobs]. The REST
    endpoint [custom_voice] tests no input: with a model of another kind
    it answers status 400 without invoking the engine, and with a
    CustomVoice model it invokes the engine with the text, speaker and
    instruction as they came, an empty text included. *)
Theorem unsupported_kind_rejected_once_admitted
    (w : World) (st : LoadedState) (calls : list call) (sched : list nat) :
  let c := run w sched (boot st calls) in
  (forall text lang_disp spk_disp instruct adv,
     let h := run_instruct text lang_disp spk_disp instruct adv in
     (Py.blank text = true -> h = Early (None, TextRequired))
     /\ (Py.blank text = false -> Py.truthy (Py.or_empty spk_disp) = false ->
         h = Early (None, SpeakerRequired))
     /\ (Py.blank text = false -> Py.truthy (Py.or_empty spk_disp) = true ->
         exists body, h = WithModel body))
  /\ (forall text lang_disp design adv,
        let h := run_voice_design text lang_disp design adv in
        (Py.blank text = true -> h = Early (None, TextRequired))
        /\ (Py.blank text = false -> Py.blank design = true ->
            h = Early (None, DesignRequired))
        /\ (Py.blank text = false -> Py.blank design = false ->
            exists body, h = WithModel body))
  /\ (forall ref_aud ref_txt use_xvec text lang_disp adv,
        let h := run_voice_clone w ref_aud ref_txt use_xvec text lang_disp
                   adv in
        (Py.blank text = true -> h = Early (None, TargetTextRequired))
        /\ (forall e, Py.blank text = false ->
              _audio_to_tuple w ref_aud = inl e ->
              h = Early (deliver (Raise e)))
        /\ (Py.blank text = false -> _audio_to_tuple w ref_aud = inr None ->
            h = Early (None, RefAudioRequired))
        /\ (forall at_, Py.blank text = false ->
              _audio_to_tuple w ref_aud = inr (Some at_) ->
              use_xvec = false -> Py.blank ref_txt = true ->
              h = Early (None, RefTextRequired))
        /\ (forall at_, Py.blank text = false ->
              _audio_to_tuple w ref_aud = inr (Some at_) ->
              use_xvec = true \/ Py.blank ref_txt = false ->
              exists body, h = WithModel body))
  /\ (forall t r out,
        pool c !! t = Some (Call r) -> handler_of w r = Early out ->
        exists c', step w t c = Some c'
          /\ ms c' = ms c /\ lock c' = lock c
          /\ pool c' = <[t := Delivered r None out []]> (pool c)
          /\ step w t c' = None)
  /\ (forall t c' r out ecalls,
        step w t c = Some c' ->
        pool c' !! t = Some (Delivered r None out ecalls) ->
        pool c !! t = Some (Call r) /\ handler_of w r = Early out
        /\ out.1 = None /\ input_rejection out.2 /\ ecalls = []
        /\ ms c' = ms c)
  /\ (forall t c' r op state out ecalls,
        step w t c = Some c' ->
        pool c' !! t = Some (Delivered r (Some state) out ecalls) ->
        operation_of r = Some op ->
        is_Some (s_tts state) ->
        s_model_kind state <> kind_of op ->
        out = (None, NotSupported op) /\ ecalls = []
        /\ active_jobs (ms c') = active_jobs (ms c) - 1)
  /\ (forall ast req,
        is_Some (Api.tts_model ast) ->
        Api.model_kind ast <> Some "custom_voice" ->
        exists detail,
          Api.custom_voice ast req = (Api.HTTPException 400 detail, []))
  /\ (forall ast req m,
        Api.tts_model ast = Some m ->
        Api.model_kind ast = Some "custom_voice" ->
        Api.custom_voice ast req
        = Api.respond m
            (generate_custom_voice
               (Api.text (Api.base req)) (Api.language (Api.base req))
               (Api.speaker req) (Api.instruct req)
               (Api.params (Api.base req)))).
Proof.
  intros c. pose proof (reachable_inv w st calls sched) as HI. fold c in HI.
  split; [|split; [|split; [|split; [|split; [|split; [|split]]]]]].
  - intros text lang_disp spk_disp instruct adv h. unfold h, run_instruct.
    split; [by intros ->|]. split.
    + intros -> Hs. by rewrite Hs.
    + intros -> Hs. rewrite Hs. simpl. eauto.
  - intros text lang_disp design adv h. unfold h, run_voice_design.
    split; [by intros ->|]. split.
    + by intros -> ->.
    + intros -> ->. eauto.
  - intros ref_aud ref_txt use_xvec text lang_disp adv h.
    unfold h, run_voice_clone.
    split; [by intros ->|]. split; [by intros e -> ->|].
    split; [by intros -> ->|]. split.
    + by intros at_ -> -> -> ->.
    + intros at_ -> -> Hx.
      assert (negb use_xvec && Py.blank ref_txt = false) as ->.
      { destruct Hx as [->| ->]; [done|apply andb_false_r]. }
      eauto.
  - intros t r out Hp Hb. unfold step at 1. rewrite Hp. simpl. rewrite Hb.
    simpl. eexists. split; [done|]. simpl. repeat split.
    unfold step. simpl. rewrite list_lookup_insert_eq; [done|].
    by eapply lookup_lt_Some.
  - intros t c' r out ecalls Hs Hd.
    destruct (delivered_without_acquire _ _ _ _ _ _ _ Hs Hd)
      as (Hc & Hb & -> & Hm).
    by destruct (early_is_input_rejection _ _ _ Hb).
  - intros t c' r op state out ecalls Hs Hd Hop [m Hm] Hk.
    destruct (delivered_after_release _ _ _ _ _ _ _ _ HI Hs Hd)
      as (body & x & _ & Hb & Hx & -> & Hj).
    rewrite (body_unsupported _ _ _ _ _ _ Hb Hop Hm Hk) in Hx.
    by simplify_eq.
  - intros ast req [m Hm] Hk. unfold Api.custom_voice. rewrite Hm.
    rewrite bool_decide_eq_false_2 by done. simpl. eauto.
  - intros ast req m Hm Hk. unfold Api.custom_voice. rewrite Hm, Hk.
    by rewrite bool_decide_eq_true_2.
Qed.

(** *** Conversions of numbers *)

Lemma trunc_of_integer (n : Z) : Py.trunc (inject_Z n) = n.
Proof. unfold Py.trunc. simpl. apply Z.quot_1_r. Qed.

Lemma int_raises (x : Py.number) (e : exn) :
  Py.int x = inl e ->
  (x = Py.Float Py.NaN \/ exists s, x = Py.Float (Py.Infinity s))
  /\ is_Exception e = true.
Proof.
  destruct x as [n|[q| |sg]]; intros H; simplify_eq/=; split;
    try reflexivity; eauto.
Qed.

Lemma round_half_even_bounds (a e : Z) :
  0 <= a -> 0 < e ->
  0 <= Z.shiftl (Py.round_half_even a e) e <= a + 2 ^ e.
Proof.
  intros Ha He. unfold Py.round_half_even.
  rewrite Z.shiftr_div_pow2 by lia.
  assert (0 < 2 ^ e) as Hp by (apply Z.pow_pos_nonneg; lia).
  pose proof (Z.mul_div_le a (2 ^ e) Hp) as Hq.
  assert (0 <= a / 2 ^ e) as Hq0 by (apply Z.div_pos; lia).
  repeat case_match; rewrite Z.shiftl_mul_pow2 by lia; nia.
Qed.

Lemma nearest_double_exact (n : Z) :
  Z.abs n < 2 ^ 53 -> Py.nearest_double n = n.
Proof.
  intros H. unfold Py.nearest_double.
  destruct (decide (Z.abs n = 0)) as [->|Hn]; [done|].
  assert (Z.log2 (Z.abs n) < 53) as Hl by (apply Z.log2_lt_pow2; lia).
  by rewrite (proj2 (Z.leb_le _ _)) by lia.
Qed.

Lemma nearest_double_bound (n : Z) :
  Z.abs (Py.nearest_double n) <= 2 * Z.abs n.
Proof.
  unfold Py.nearest_double.
  destruct (Z.log2 (Z.abs n) - 52 <=? 0) eqn:E; [lia|].
  apply Z.leb_gt in E.
  assert (0 < Z.abs n) as Hpos.
  { destruct (decide (Z.abs n = 0)) as [H0|]; [|lia].
    rewrite H0 in E. simpl in E. lia. }
  pose proof (round_half_even_bounds (Z.abs n) (Z.log2 (Z.abs n) - 52)
                ltac:(lia) E) as [Hlo Hhi].
  assert (2 ^ (Z.log2 (Z.abs n) - 52) <= Z.abs n) as Hle.
  { destruct (Z.log2_spec _ Hpos) as [H1 _].
    etransitivity; [|exact H1]. apply Z.pow_le_mono_r; lia. }
  rewrite Z.abs_mul. rewrite (Z.abs_eq (Z.shiftl _ _)) by lia.
  assert (Z.abs (Z.sgn n) = 1) as -> by lia. lia.
Qed.

Lemma float_of_small_int (n : Z) :
  Z.abs n < 2 ^ 53 -> Py.float (Py.Int n) = inr (Py.Finite (inject_Z n)).
Proof.
  intros H. unfold Py.float. rewrite (nearest_double_exact _ H).
  assert (2 ^ 53 < 2 ^ 1024) by (apply Z.pow_lt_mono_r; lia).
  by rewrite (proj2 (Z.leb_gt _ _)) by lia.
Qed.

Lemma float_raises (x : Py.number) (e : exn) :
  Py.float x = inl e ->
  (exists n, x = Py.Int n /\ 2 ^ 1023 <= Z.abs n)
  /\ is_Exception e = true.
Proof.
  destruct x as [n|f]; [|done]. unfold Py.float.
  destruct (2 ^ 1024 <=? Z.abs (Py.nearest_double n)) eqn:E; [|done].
  intros [= <-]. split; [|reflexivity]. exists n. split; [done|].
  apply Z.leb_le in E. pose proof (nearest_double_bound n).
  change (2 ^ 1024) with (2 * 2 ^ 1023) in E. lia.
Qed.

(** [_gen_common_kwargs] returns exactly when each of its eight
    conversions returns, and then with their results. *)
Lemma gen_common_kwargs_returns (a : AdvParams) (kw : GenKwargs) :
  _gen_common_kwargs a = inr kw
  <-> Py.int (a_max_tokens a) = inr (max_new_tokens kw)
      /\ Py.float (a_temp a) = inr (temperature kw)
      /\ Py.int (a_top_k a) = inr (top_k kw)
      /\ Py.float (a_top_p a) = inr (top_p kw)
      /\ Py.float (a_rep_pen a) = inr (repetition_penalty kw)
      /\ do_sample kw = a_do_sample a
      /\ subtalker_dosample kw = a_subtalker_dosample a
      /\ Py.float (a_subtalker_temp a) = inr (subtalker_temperature kw)
      /\ Py.int (a_subtalker_top_k a) = inr (subtalker_top_k kw)
      /\ Py.float (a_subtalker_top_p a) = inr (subtalker_top_p kw).
Proof.
  unfold _gen_common_kwargs, and_then. split.
  - intros H. repeat case_match; simplify_eq/=. by repeat split.
  - intros (H1 & H2 & H3 & H4 & H5 & H6 & H7 & H8 & H9 & H10).
    rewrite H1, H2, H3, H4, H5, H8, H9, H10, <- H6, <- H7.
    by destruct kw.
Qed.

(** What [_gen_common_kwargs] raises is what one of its conversions
    raised: [except Exception] catches it. *)
Lemma gen_common_kwargs_raises (a : AdvParams) (e : exn) :
  _gen_common_kwargs a = inl e ->
  is_Exception e = true
  /\ exists x, (Py.int x = inl e \/ Py.float x = inl e)
       /\ x ∈ [a_max_tokens a; a_temp a; a_top_k a; a_top_p a; a_rep_pen a;
               a_subtalker_temp a; a_subtalker_top_k a;
               a_subtalker_top_p a].
Proof.
  unfold _gen_common_kwargs, and_then. intros H.
  assert (forall x, Py.int x = inl e \/ Py.float x = inl e ->
            is_Exception e = true) as Hexc.
  { intros x [Hx|Hx]; [by destruct (int_raises _ _ Hx)|
                        by destruct (float_raises _ _ Hx)]. }
  repeat case_match; simplify_eq/=;
    (split; [eapply Hexc; eauto|]); eexists; (split; [eauto|]);
    set_solver.
Qed.

(** C7, as the code has it. No handler compares a sampling parameter with a
    range. A handler that was handed a model of its kind converts the ten
    advanced parameters with [_gen_common_kwargs] and invokes the engine
    with the result; the only values it does not pass on are those on
    which a conversion raises, and then the handler returns the failure
    built from that exception and has invoked nothing.
    [_gen_common_kwargs] returns exactly when its eight conversions return:
    [int] returns every [int] as it is (511, 512, 8192, 8193, ...) and
    every finite [float] truncated, and raises only on a NaN or an
    infinity; [float] returns every [float] as it is, NaN and infinities
    too, and every [int] below [2^53] in size as it is, and raises only on
    an [int] of size [2^1023] or more. The fields of the REST wrapper's
    [TTSRequest] carry no bound either and are passed on as they are. *)
Theorem sampling_parameters_forwarded_unchecked (w : World) :
  (forall r op adv body state m,
     handler_of w r = WithModel body ->
     operation_of r = Some op -> adv_of r = Some adv ->
     s_tts state = Some m ->
     s_model_kind state = kind_of op ->
     match _gen_common_kwargs adv with
     | inr kw =>
         exists call, body state = invoke m call /\ kwargs_of call = kw
     | inl e =>
         body state = (Raise e, []) /\ deliver (Raise e) = (None, Failed e)
     end)
  /\ (forall adv kw,
        _gen_common_kwargs adv = inr kw
        <-> Py.int (a_max_tokens adv) = inr (max_new_tokens kw)
            /\ Py.float (a_temp adv) = inr (temperature kw)
            /\ Py.int (a_top_k adv) = inr (top_k kw)
            /\ Py.float (a_top_p adv) = inr (top_p kw)
            /\ Py.float (a_rep_pen adv) = inr (repetition_penalty kw)
            /\ do_sample kw = a_do_sample adv
            /\ subtalker_dosample kw = a_subtalker_dosample adv
            /\ Py.float (a_subtalker_temp adv)
               = inr (subtalker_temperature kw)
            /\ Py.int (a_subtalker_top_k adv) = inr (subtalker_top_k kw)
            /\ Py.float (a_subtalker_top_p adv) = inr (subtalker_top_p kw))
  /\ (forall n : Z, Py.int (Py.Int n) = inr n)
  /\ (forall x : Q, Py.int (Py.Float (Py.Finite x)) = inr (Py.trunc x))
  /\ (forall n : Z, Py.trunc (inject_Z n) = n)
  /\ (forall x e, Py.int x = inl e ->
        x = Py.Float Py.NaN \/ exists s, x = Py.Float (Py.Infinity s))
  /\ (forall x : Py.pyfloat, Py.float (Py.Float x) = inr x)
  /\ (forall n : Z, Z.abs n < 2 ^ 53 ->
        Py.float (Py.Int n) = inr (Py.Finite (inject_Z n)))
  /\ (forall x e, Py.float x = inl e ->
        exists n, x = Py.Int n /\ 2 ^ 1023 <= Z.abs n)
  /\ (forall ast req m,
        Api.tts_model ast = Some m ->
        Api.model_kind ast = Some "custom_voice" ->
        exists call, Api.custom_voice ast req = Api.respond m call
                     /\ kwargs_of call = Api.params (Api.base req)).
Proof.
  split; [|split; [|split; [|split; [|split; [|split; [|split; [|split;
    [|split]]]]]]]].
  - intros r op adv body state m Hb Hop Hadv Hm Hk.
    pose proof (body_supported _ _ _ _ _ _ _ Hb Hop Hadv Hm Hk) as H.
    destruct (_gen_common_kwargs adv) as [e|kw] eqn:Hg; [|done].
    split; [done|]. unfold deliver.
    by destruct (gen_common_kwargs_raises _ _ Hg) as [-> _].
  - apply gen_common_kwargs_returns.
  - done.
  - done.
  - apply trunc_of_integer.
  - intros x e H. by destruct (int_raises _ _ H).
  - done.
  - apply float_of_small_int.
  - intros x e H. by destruct (float_raises _ _ H).
  - intros ast req m Hm Hk. unfold Api.custom_voice. rewrite Hm, Hk.
    rewrite bool_decide_eq_true_2 by done. simpl. eauto.
Qed.

(** The clone handler of the demo returns before [_use_model] when the
    reference audio is missing, or when neither a transcript nor the
    x-vector-only mode is given. *)
Lemma run_voice_clone_requires_reference w ref_aud ref_txt use_xvec text
    lang_disp adv :
  _audio_to_tuple w ref_aud = inr None
  \/ (use_xvec = false /\ Py.blank ref_txt = true) ->
  exists out,
    run_voice_clone w ref_aud ref_txt use_xvec text lang_disp adv = Early out
    /\ out.1 = None /\ input_rejection out.2.
Proof.
  intros H. unfold run_voice_clone.
  destruct (Py.blank text); [by eexists|].
  destruct (_audio_to_tuple w ref_aud) as [e|[at_|]] eqn:Ha;
    [| |by eexists].
  - eexists. split; [done|]. unfold deliver. by destruct (is_Exception e).
  - destruct H as [H|[-> Hb]]; [done|]. rewrite Hb. by eexists.
Qed.


(** C8 at the REST endpoint. With the base model loaded,
    [/api/voice-clone] called with reference audio but without transcript
    and with [x_vector_only] false does not stop at a validation: it
    invokes [generate_voice_clone] with [ref_text = None] and
    [x_vector_only_mode = False], and answers with the file. *)
Lemma api_voice_clone_without_transcript_reaches_engine :
  Api.voice_clone Sample.api_base Sample.form_without_transcript
  = (Api.FileResponse [1%Q] 12000,
     [generate_voice_clone "hi" "Auto" ([1%Q], 12000) None false
        (Sample.kwargs 2048)]).
Proof. reflexivity. Qed.

(** ** Concrete runs *)

(** Against C3 as stated. The reconfigure call fails to load; afterwards
    the model that was in service is gone and the next click is answered
    "Model not loaded." *)
Lemma failed_reload_drops_the_model :
  let st := Sample.state "custom_voice" in
  let c := run Sample.world [0; 0; 0; 0; 0; 0; 1; 1; 1; 1; 1; 1]%nat
             (boot st [Reconfigure (Some "missing");
                       Dispatch (Sample.hello 2048)]) in
  tts st = Some (Sample.model "custom_voice")
  /\ pool c !! 0%nat
     = Some (ReloadRaised (Exn "OSError" "not a checkpoint"))
  /\ tts (loaded (ms c)) = None
  /\ tts (loaded (ms c)) <> tts st
  /\ exists state,
       pool c !! 1%nat
       = Some (Delivered (Sample.hello 2048) (Some state)
                 (None, ModelNotLoaded) []).
Proof.
  vm_compute. split; [done|]. split; [done|]. split; [done|].
  split; [done|]. by eexists.
Qed.

(** Against C4 as stated. A second reconfigure call that arrives while the
    first is loading is not refused: it sets the flag again, passes the drain loop and starts
    loading too, so that two calls stand between their [reloading = True]
    and their [reloading = False] at once; and when the second call ends it
    clears the flag while the first is still loading. *)
Lemma second_reload_proceeds_during_the_first :
  let B := "Qwen/Qwen3-TTS-12Hz-1.7B-Base" in
  let D := "Qwen/Qwen3-TTS-12Hz-1.7B-VoiceDesign" in
  let c0 := boot (Sample.state "custom_voice")
              [Reconfigure (Some B); Reconfigure (Some D)] in
  let c1 := run Sample.world [0; 0; 0; 0]%nat c0 in
  let c2 := run Sample.world [1; 1; 1; 1]%nat c1 in
  let c3 := run Sample.world [1; 1; 1]%nat c2 in
  (pool c1 !! 0%nat = Some (ReloadLoad B) /\ reloading (ms c1) = true)
  /\ (pool c2 = [ReloadLoad B; ReloadLoad D] /\ reloading (ms c2) = true)
  /\ (exists state, pool c3 = [ReloadLoad B; ReloadReturned state])
  /\ reloading (ms c3) = false.
Proof.
  vm_compute. split; [done|]. split; [done|]. split; [by eexists|done].
Qed.

(** Against C2 as stated. Two reconfigure calls overlap: the second ends
    first and lets a VoiceDesign click in; while the body of that click is
    running on the VoiceDesign model, with [active_jobs = 1], the first call
    stores its Base model in [_MODEL_STATE]. *)
Lemma overlapping_reloads_store_under_a_running_handler :
  let B := "Qwen/Qwen3-TTS-12Hz-1.7B-Base" in
  let D := "Qwen/Qwen3-TTS-12Hz-1.7B-VoiceDesign" in
  let c := run Sample.world
             [0; 0; 0; 0; 1; 1; 1; 1; 1; 1; 1; 2; 2; 2; 2; 0]%nat
             (boot (Sample.state "custom_voice")
                [Reconfigure (Some B); Reconfigure (Some D);
                 Dispatch Sample.design]) in
  let c' := run_thread Sample.world c 0%nat in
  (exists state, pool c !! 0%nat = Some (ReloadPublish state))
  /\ (exists state, pool c !! 2%nat = Some (Body Sample.design state)
        /\ s_model_kind state = "voice_design"
        /\ pool c' !! 2%nat = Some (Body Sample.design state))
  /\ model_kind (loaded (ms c)) = "voice_design"
  /\ active_jobs (ms c) = 1
  /\ step Sample.world 0 c = Some c'
  /\ model_kind (loaded (ms c')) = "base"
  /\ active_jobs (ms c') = 1.
Proof.
  vm_compute. split; [by eexists|]. split; [by eexists|done].
Qed.

(** Against C6 as stated. With the base model loaded, a CustomVoice click
    with an empty text box is answered "Text is required.", not "does not
    support". *)
Lemma blank_text_is_reported_before_the_kind :
  let st := Sample.state "base" in
  let c := run Sample.world [0]%nat (boot st [Dispatch Sample.no_text]) in
  is_Some (tts st)
  /\ operation_of Sample.no_text = Some CustomVoice
  /\ model_kind st <> kind_of CustomVoice
  /\ pool c = [Delivered Sample.no_text None (None, TextRequired) []]
  /\ TextRequired <> NotSupported CustomVoice.
Proof. vm_compute. split; [by eexists|]. by repeat split. Qed.

(** Against C7 as stated. With "Max New Tokens" at 511, and again at 8193,
    the click is served:
    the engine is invoked with that very value and the handler returns the
    audio. *)
Lemma max_new_tokens_outside_the_slider_reach_the_engine :
  let served (n : Z) :=
    let r := Sample.hello (inject_Z n) in
    exists state,
      run Sample.world [0; 0; 0; 0; 0; 0]%nat
        (boot (Sample.state "custom_voice") [Dispatch r])
      = {| ms := _set_model_state (Sample.state "custom_voice") _MODEL_STATE;
           lock := None;
           pool := [Delivered r (Some state)
                      (Some (12000, [1%Q]), GenerationComplete)
                      [generate_custom_voice "hi" "Auto" "Vivian" None
                         (Sample.kwargs n)]] |} in
  served 511 /\ served 8193.
Proof. split; eexists; vm_compute; reflexivity. Qed.

(** ** The theorems at concrete runs *)

(** A CustomVoice click that arrives while a reconfigure call is loading:
    at the test of the flag the handler goes to sleep; the end of the
    reload notifies it; it takes the lock, tests the flag again, now
    false, and is handed the new model. *)
Lemma acquire_only_while_not_reloading_witness :
  let B := "Qwen/Qwen3-TTS-12Hz-1.7B-Base" in
  let r := Sample.hello 2048 in
  let c0 := boot (Sample.state "custom_voice")
              [Reconfigure (Some B); Dispatch r] in
  let c1 := run Sample.world [0; 0; 0; 0; 1; 1]%nat c0 in
  let c2 := run Sample.world [0; 0; 0; 0; 1; 1; 1; 0; 0; 0]%nat c0 in
  let c3 := run Sample.world [0; 0; 0; 0; 1; 1; 1; 0; 0; 0; 1; 1]%nat c0 in
  (pool c1 !! 1%nat = Some (UseCheck r) /\ reloading (ms c1) = true
   /\ exists c', step Sample.world 1 c1 = Some c' /\ ms c' = ms c1
        /\ pool c' !! 1%nat = Some (UseWaiting r))
  /\ (pool c2 !! 1%nat = Some (UseNotified r)
      /\ exists c', step Sample.world 1 c2 = Some c'
           /\ pool c' !! 1%nat = Some (UseCheck r))
  /\ (pool c3 !! 1%nat = Some (UseAdmit r) /\ reloading (ms c3) = false
      /\ s_model_kind (snapshot (ms c3)) = "base"
      /\ exists c', step Sample.world 1 c3 = Some c'
           /\ pool c' !! 1%nat = Some (Body r (snapshot (ms c3)))
           /\ active_jobs (ms c') = active_jobs (ms c3) + 1).
Proof.
  intros B r c0 c1 c2 c3.
  pose proof (acquire_only_while_not_reloading Sample.world
                (Sample.state "custom_voice")
                [Reconfigure (Some B); Dispatch r]) as H.
  split; [|split].
  - destruct (H [0; 0; 0; 0; 1; 1]%nat) as (H1 & _).
    destruct (H1 1%nat r) as (c' & Hs & Hm & Hif); [vm_compute; reflexivity|].
    split; [vm_compute; reflexivity|]. split; [vm_compute; reflexivity|].
    exists c'. split; [exact Hs|]. split; [exact Hm|].
    destruct (reloading _) eqn:Hr in Hif;
      [|vm_compute in Hr; discriminate Hr].
    destruct Hif as [Hpool _]. rewrite Hpool. vm_compute; reflexivity.
  - destruct (H [0; 0; 0; 0; 1; 1; 1; 0; 0; 0]%nat) as (_ & _ & H3 & _).
    destruct (H3 1%nat r) as [Hgo Honly]; [vm_compute; reflexivity|].
    split; [vm_compute; reflexivity|].
    destruct Hgo as (c' & Hs & _); [vm_compute; reflexivity|].
    exists c'. split; [exact Hs|]. exact (Honly c' Hs).
  - destruct (H [0; 0; 0; 0; 1; 1; 1; 0; 0; 0; 1; 1]%nat)
      as (_ & _ & _ & H4 & _).
    destruct (H4 1%nat r) as (Hfl & _ & c' & Hs & Hb & Hj & _);
      [vm_compute; reflexivity|].
    split; [vm_compute; reflexivity|]. split; [exact Hfl|].
    split; [vm_compute; reflexivity|].
    exists c'. exact (conj Hs (conj Hb Hj)).
Defined.

(** A reconfigure call that finds a handler in flight goes to sleep; a
    lone reconfigure call stores its model with no handler in flight. *)
Lemma reload_drains_before_swap_witness :
  let B := "Qwen/Qwen3-TTS-12Hz-1.7B-Base" in
  let calls := [Reconfigure (Some B); Dispatch (Sample.hello 2048)] in
  let c0 := boot (Sample.state "custom_voice") calls in
  let c := run Sample.world [1; 1; 1; 1; 0; 0]%nat c0 in
  let d := run Sample.world [0; 0; 0; 0; 0]%nat c0 in
  (0 < active_jobs (ms c)
   /\ pool (run_thread Sample.world c 0%nat) !! 0%nat
      = Some (ReloadWaiting B))
  /\ (one_reconfigure calls /\ active_jobs (ms d) = 0).
Proof.
  intros B calls c0 c d.
  assert (H1 : one_reconfigure calls).
  { intros [|[|t1]] [|[|t2]] k1 k2 Hk1 Hk2; simpl in Hk1, Hk2;
      try discriminate; reflexivity. }
  assert (Hc : step Sample.world 0 c = Some (run_thread Sample.world c 0%nat))
    by (vm_compute; reflexivity).
  assert (Hd : step Sample.world 0 d = Some (run_thread Sample.world d 0%nat))
    by (vm_compute; reflexivity).
  assert (Hpos : 0 < active_jobs (ms c)) by (vm_compute; reflexivity).
  split.
  - destruct (reload_drains_before_swap Sample.world
                (Sample.state "custom_voice") calls
                [1; 1; 1; 1; 0; 0]%nat 0%nat _ Hc) as (H & _).
    destruct (H B) as [Hw _]; [vm_compute; reflexivity|exact Hpos|].
    exact (conj Hpos Hw).
  - destruct (reload_drains_before_swap Sample.world
                (Sample.state "custom_voice") calls
                [0; 0; 0; 0; 0]%nat 0%nat _ Hd)
      as (_ & _ & _ & _ & _ & _ & H).
    edestruct (H H1) as [H0 _]; [vm_compute; reflexivity|].
    exact (conj H1 H0).
Defined.

(** A lone reconfigure call whose checkpoint does not load: its [except]
    block leaves the model absent and clears the flag. *)
Lemma failed_reload_leaves_model_unloaded_witness :
  let calls := [Reconfigure (Some "missing")] in
  let c := run Sample.world [0; 0; 0; 0; 0]%nat
             (boot (Sample.state "custom_voice") calls) in
  let c' := run_thread Sample.world c 0%nat in
  pool c !! 0%nat = Some (ReloadFail (Exn "OSError" "not a checkpoint"))
  /\ one_reconfigure calls
  /\ reloading (ms c') = false
  /\ loaded (ms c') = unloaded.
Proof.
  intros calls c c'.
  assert (H1 : one_reconfigure calls).
  { intros [|t1] [|t2] k1 k2 Hk1 Hk2; simpl in Hk1, Hk2;
      try discriminate; reflexivity. }
  assert (Hs : step Sample.world 0 c = Some c') by (vm_compute; reflexivity).
  assert (Hp : pool c !! 0%nat
               = Some (ReloadFail (Exn "OSError" "not a checkpoint")))
    by (vm_compute; reflexivity).
  destruct (failed_reload_leaves_model_unloaded Sample.world
              (Sample.state "custom_voice") calls [0; 0; 0; 0; 0]%nat
              0%nat c' Hs) as (_ & _ & H & _).
  destruct (H _ Hp) as (_ & _ & _ & Hr & _ & _ & _ & Hu).
  destruct (Hu H1) as [Hl _].
  exact (conj Hp (conj H1 (conj Hr Hl))).
Defined.

(** The second of two reconfigure calls, arriving with the flag already
    set and the lock free, sets the flag and enters the drain loop. *)
Lemma reload_never_refuses_witness :
  let B := "Qwen/Qwen3-TTS-12Hz-1.7B-Base" in
  let D := "Qwen/Qwen3-TTS-12Hz-1.7B-VoiceDesign" in
  let c := run Sample.world [0; 0; 0; 0; 1]%nat
             (boot (Sample.state "custom_voice")
                [Reconfigure (Some B); Reconfigure (Some D)]) in
  reloading (ms c) = true
  /\ exists c', step Sample.world 1 c = Some c'
                /\ pool c' !! 1%nat = Some (ReloadDrain D).
Proof.
  intros B D c. split; [vm_compute; reflexivity|].
  destruct (reload_never_refuses Sample.world (Sample.state "custom_voice")
              [Reconfigure (Some B); Reconfigure (Some D)]
              [0; 0; 0; 0; 1]%nat) as (H & _).
  destruct (H 1%nat D) as (c' & Hs & Hp & _);
    [vm_compute; reflexivity|vm_compute; reflexivity|].
  exists c'. exact (conj Hs Hp).
Defined.

(** With one handler running its body, the count is one. *)
Lemma active_jobs_counts_outstanding_witness :
  let c := run Sample.world [0; 0; 0; 0]%nat
             (boot (Sample.state "custom_voice")
                [Dispatch (Sample.hello 2048)]) in
  outstanding (pool c) = 1 /\ active_jobs (ms c) = 1.
Proof.
  intros c.
  destruct (active_jobs_counts_outstanding Sample.world
              (Sample.state "custom_voice") [Dispatch (Sample.hello 2048)]
              [0; 0; 0; 0]%nat) as (_ & H & _).
  assert (Ho : outstanding (pool c) = 1) by (vm_compute; reflexivity).
  split; [exact Ho|]. fold c in H. rewrite H. exact Ho.
Defined.

(** A CustomVoice click served by the base model, and the same click
    with the text box left empty. *)
Lemma unsupported_kind_rejected_once_admitted_witness :
  let r := Sample.hello 2048 in
  let c := run Sample.world [0; 0; 0; 0; 0]%nat
             (boot (Sample.state "base") [Dispatch r]) in
  let c' := run_thread Sample.world c 0%nat in
  let d := boot (Sample.state "base") [Dispatch Sample.no_text] in
  (exists state out ecalls,
     pool c' !! 0%nat = Some (Delivered r (Some state) out ecalls)
     /\ is_Some (s_tts state)
     /\ s_model_kind state <> kind_of CustomVoice
     /\ out = (None, NotSupported CustomVoice) /\ ecalls = [])
  /\ (exists d', step Sample.world 0 d = Some d' /\ ms d' = ms d
        /\ pool d' = [Delivered Sample.no_text None (None, TextRequired) []]).
Proof.
  intros r c c' d. split.
  - assert (Hs : step Sample.world 0 c = Some c')
      by (vm_compute; reflexivity).
    destruct (unsupported_kind_rejected_once_admitted Sample.world
                (Sample.state "base") [Dispatch r] [0; 0; 0; 0; 0]%nat)
      as (_ & _ & _ & _ & _ & H & _).
    assert (Hk : s_model_kind (snapshot (ms c)) <> kind_of CustomVoice)
      by (vm_compute; discriminate).
    assert (Hm : is_Some (s_tts (snapshot (ms c))))
      by (vm_compute; eexists; reflexivity).
    destruct (H 0%nat c' r CustomVoice (snapshot (ms c))
                (None, NotSupported CustomVoice) [] Hs)
      as (Ho & He & _);
      [vm_compute; reflexivity|reflexivity|exact Hm|exact Hk|].
    exists (snapshot (ms c)), (None, NotSupported CustomVoice), [].
    split; [vm_compute; reflexivity|].
    exact (conj Hm (conj Hk (conj Ho He))).
  - destruct (unsupported_kind_rejected_once_admitted Sample.world
                (Sample.state "base") [Dispatch Sample.no_text] [])
      as (_ & _ & _ & H & _).
    destruct (H 0%nat Sample.no_text (None, TextRequired))
      as (d' & Hs & Hm & _ & Hp & _); [reflexivity|reflexivity|].
    exists d'. exact (conj Hs (conj Hm Hp)).
Defined.

(** The CustomVoice click with "Max New Tokens" at 511, and with
    "Max New Tokens" not a number. *)
Lemma sampling_parameters_forwarded_unchecked_witness :
  let r := Sample.hello 511 in
  let state :=
    snapshot (_set_model_state (Sample.state "custom_voice") _MODEL_STATE) in
  let nan :=
    {| a_max_tokens := Py.Float Py.NaN;
       a_temp := Py.Float (Py.Finite (9 # 10)); a_top_k := Py.Int 50;
       a_top_p := Py.Float (Py.Finite 1);
       a_rep_pen := Py.Float (Py.Finite (105 # 100)); a_do_sample := true;
       a_subtalker_dosample := true;
       a_subtalker_temp := Py.Float (Py.Finite (9 # 10));
       a_subtalker_top_k := Py.Int 50;
       a_subtalker_top_p := Py.Float (Py.Finite 1) |} in
  let r' := RunInstruct (Some "hi") (Some "Auto") (Some "Vivian") None nan in
  (exists body call,
     handler_of Sample.world r = WithModel body
     /\ body state = invoke (Sample.model "custom_voice") call
     /\ max_new_tokens (kwargs_of call) = 511)
  /\ (exists body e,
        handler_of Sample.world r' = WithModel body
        /\ body state = (Raise e, [])
        /\ exn_type e = "ValueError").
Proof.
  intros r state nan r'.
  destruct (sampling_parameters_forwarded_unchecked Sample.world)
    as (H & _).
  split.
  - destruct (handler_of Sample.world r) as [out|body] eqn:Hb;
      [vm_compute in Hb; discriminate Hb|].
    pose proof (H r CustomVoice (Sample.adv 511) body state
                  (Sample.model "custom_voice") Hb eq_refl eq_refl eq_refl
                  eq_refl) as Hx.
    change (_gen_common_kwargs (Sample.adv 511))
      with (@inr exn _ (Sample.kwargs 511)) in Hx.
    destruct Hx as (call & Hc & Hk).
    exists body, call. split; [reflexivity|]. split; [exact Hc|].
    rewrite Hk. reflexivity.
  - destruct (handler_of Sample.world r') as [out|body] eqn:Hb;
      [vm_compute in Hb; discriminate Hb|].
    pose proof (H r' CustomVoice nan body state
                  (Sample.model "custom_voice") Hb eq_refl eq_refl eq_refl
                  eq_refl) as Hx.
    change (_gen_common_kwargs nan)
      with (@inl exn GenKwargs
              (ValueError "cannot convert float NaN to integer")) in Hx.
    destruct Hx as [Hx _].
    exists body, (ValueError "cannot convert float NaN to integer").
    split; [reflexivity|]. split; [exact Hx|reflexivity].
Defined.


(** A reconfigure call with a checkpoint of two spaces. *)
Lemma blank_checkpoint_changes_nothing_witness :
  let c := boot (Sample.state "custom_voice") [Reconfigure (Some "  ")] in
  all_space "  " = true
  /\ exists c', step Sample.world 0 c = Some c' /\ ms c' = ms c
                /\ pool c'
                   = [ReloadRaised (ValueError "Checkpoint is required.")].
Proof.
  intros c. split; [reflexivity|].
  destruct (blank_checkpoint_changes_nothing Sample.world
              (Sample.state "custom_voice") [Reconfigure (Some "  ")] []
              0%nat (Some "  ")) as (c' & Hs & Hm & _ & Hp & _).
  - reflexivity.
  - right. exists "  ". split; reflexivity.
  - exists c'. exact (conj Hs (conj Hm Hp)).
Defined.

(** ** No lost wake-up, no deadlock, bounded runs *)

Lemma pool_search (f : pc -> bool) (l : list pc) :
  (exists t p, l !! t = Some p /\ f p = true)
  \/ (forall t p, l !! t = Some p -> f p = false).
Proof.
  induction l as [|a l [(t & p & Hp & Hf)|IH]].
  - right. intros t p H. by rewrite lookup_nil in H.
  - left. by exists (S t), p.
  - destruct (f a) eqn:Ha.
    + left. by exists 0%nat, a.
    + right. intros [|t] p H; simplify_eq/=; eauto.
Qed.

Lemma outstanding_holder (l : list pc) :
  0 < outstanding l -> exists t p, l !! t = Some p /\ holding p = true.
Proof.
  induction l as [|a l IH]; simpl; [lia|].
  destruct (holding a) eqn:Ha.
  - intros _. by exists 0%nat, a.
  - intros H. destruct IH as (t & p & Hp & Hh); [lia|]. by exists (S t), p.
Qed.

Lemma locked_can_step w t m l p :
  locked p = true -> is_Some (local_step w t m l p).
Proof. destruct p; intros H; simplify_eq/=; repeat case_match; eauto. Qed.

(** With the lock free, every thread that has not finished and is not
    asleep can take its next step. *)
Lemma awake_can_step w t m p :
  consistent w p -> finished p = false -> waiting p = false ->
  is_Some (local_step w t m None p).
Proof.
  destruct p; intros Hc Hf Hw; simplify_eq/=; repeat case_match; eauto.
  all: destruct Hc as (body & Hb); congruence.
Qed.

(** What [load] raises is what [from_pretrained] raised, or the
    [ValueError] of [_detect_model_kind]. *)
Lemma load_raises w k e :
  load w k = inl e ->
  from_pretrained w k = inl e \/ exn_type e = "ValueError".
Proof.
  unfold load. destruct (from_pretrained w k) as [e'|m]; [intros [= ->]; by left|].
  unfold _build_model_state, _detect_model_kind. intros H. right.
  repeat case_match; by simplify_eq.
Qed.

Lemma load_raises_Exception w k e :
  raises_only_Exceptions w -> load w k = inl e -> is_Exception e = true.
Proof.
  intros Hw H. destruct (load_raises _ _ _ H) as [Hf|Hv]; [by eapply Hw|].
  unfold is_Exception. by rewrite Hv.
Qed.

Lemma nothing_escapes w c t e :
  raises_only_Exceptions w -> Inv w c ->
  pool c !! t = Some (ReloadRaised e) -> is_Exception e = true.
Proof.
  intros Hw HI Hp.
  destruct (inv_consistent _ _ HI _ _ Hp) as [->|[k Hk]]; [done|].
  by eapply load_raises_Exception.
Qed.

Lemma progress w c :
  Inv w c -> Live c ->
  (forall t p, pool c !! t = Some p -> finished p = true)
  \/ (exists t c', step w t c = Some c')
  \/ (reloading (ms c) = true
      /\ exists t e, pool c !! t = Some (ReloadRaised e)
                     /\ is_Exception e = false).
Proof.
  intros HI HL.
  assert (forall t p, pool c !! t = Some p ->
            is_Some (local_step w t (ms c) (lock c) p) ->
            exists t c', step w t c = Some c') as Hgo.
  { intros t p Hp [e He]. exists t. unfold step. rewrite Hp. simpl.
    rewrite He. simpl. eauto. }
  destruct (lock c) as [t|] eqn:Hlock.
  { right. left. destruct (live_owner _ HL _ Hlock) as (p & Hp & Hl).
    apply (Hgo t p Hp). by apply locked_can_step. }
  destruct (pool_search (fun p => negb (finished p) && negb (waiting p))
              (pool c)) as [(t & p & Hp & Hf)|Hnone].
  { right. left. apply andb_prop in Hf as [Hf Hw].
    apply negb_true_iff in Hf, Hw. apply (Hgo t p Hp).
    apply awake_can_step; [by eapply inv_consistent|done..]. }
  assert (forall t p, pool c !! t = Some p -> holding p = false) as Hnohold.
  { intros t p Hp. pose proof (Hnone t p Hp) as Hf. by destruct p. }
  assert (active_jobs (ms c) <= 0) as Hjobs.
  { rewrite (inv_count _ _ HI).
    destruct (Z.lt_ge_cases 0 (outstanding (pool c))) as [Hpos|]; [|lia].
    destruct (outstanding_holder _ Hpos) as (t & p & Hp & Hh).
    rewrite (Hnohold t p Hp) in Hh. done. }
  assert (forall t k, pool c !! t <> Some (ReloadWaiting k)) as Hnorw.
  { intros t k Hp. pose proof (live_reload_waiting _ HL _ _ Hp). lia. }
  destruct (reloading (ms c)) eqn:Hr.
  { right. right. split; [done|].
    destruct (live_flag _ HL Hr) as (t & p & Hp & Hf).
    pose proof (Hnone t p Hp) as Hn.
    destruct p; simplify_eq/=; try (by edestruct Hnorw).
    exists t, e. split; [done|]. by apply negb_true_iff. }
  left. intros t p Hp. pose proof (Hnone t p Hp) as Hn.
  destruct (finished p) eqn:Hf; [done|]. simpl in Hn.
  apply negb_false_iff in Hn. destruct p; simplify_eq/=.
  - pose proof (live_use_waiting _ HL _ _ Hp). congruence.
  - by edestruct Hnorw.
Qed.

(** X1. The coordinator cannot deadlock and loses no wake-up, unless the
    loader of a reconfigure call raised an exception that
    [except Exception] does not catch. In every configuration the server
    reaches, every call has returned or raised, or some thread can take a
    step, or the flag is stuck: it is set, and a reconfigure call was left
    by such an exception of its loader without clearing it. If the
    loader raises nothing but what [except Exception] catches, one of the
    first two holds. (The loader and the engine are taken to return or
    raise, whenever they are called.) *)
Theorem coordinator_never_deadlocks
    (w : World) (st : LoadedState) (calls : list call) (sched : list nat) :
  let c := run w sched (boot st calls) in
  ((forall t p, pool c !! t = Some p -> finished p = true)
   \/ (exists t c', step w t c = Some c')
   \/ (reloading (ms c) = true
       /\ exists t k e, pool c !! t = Some (ReloadRaised e)
                        /\ load w k = inl e /\ is_Exception e = false))
  /\ (raises_only_Exceptions w ->
      (forall t p, pool c !! t = Some p -> finished p = true)
      \/ (exists t c', step w t c = Some c')).
Proof.
  intros c.
  pose proof (reachable_inv w st calls sched) as HI.
  pose proof (reachable_live w st calls sched) as HL. fold c in HI, HL.
  split.
  - destruct (progress w c HI HL) as [H|[H|(Hr & t & e & Hp & He)]];
      [by left|by right; left|].
    right. right. split; [done|].
    destruct (inv_consistent _ _ HI _ _ Hp) as [->|[k Hk]]; [done|].
    by exists t, k, e.
  - intros Hw.
    destruct (progress w c HI HL) as [H|[H|(Hr & t & e & Hp & He)]];
      [by left|by right|].
    rewrite (nothing_escapes _ _ _ _ Hw HI Hp) in He. done.
Qed.

Lemma total_insert (n : nat) (l : list pc) (t : nat) (p q : pc) :
  l !! t = Some p ->
  (total n (<[t := q]> l) + weight n p = total n l + weight n q)%nat.
Proof.
  revert t. induction l as [|a l IH]; intros [|t] H; simplify_eq/=.
  - lia.
  - pose proof (IH _ H). lia.
Qed.

Lemma weight_wake (n : nat) (p : pc) :
  (weight n (wake p) <= weight n p + 2)%nat.
Proof. destruct p; unfold weight; simpl; lia. Qed.

Lemma total_wake (n : nat) (l : list pc) :
  (total n (wake <$> l) <= total n l + 2 * length l)%nat.
Proof.
  induction l as [|a l IH]; [simpl; lia|].
  rewrite fmap_cons. cbn [total length].
  pose proof (weight_wake n a). lia.
Qed.

Lemma local_step_awake w t m l p e :
  local_step w t m l p = Some e -> wake p = p.
Proof. intros H. by step_cases H. Qed.

Lemma local_step_weight (n : nat) w t m l p e :
  local_step w t m l p = Some e ->
  ((if e_notify e then 2 * n else 0) + weight n (e_pc e) < weight n p)%nat.
Proof.
  intros H. step_cases H; unfold weight; simpl; try lia.
  all: case_match; lia.
Qed.

Lemma length_apply_effect t c e :
  length (pool (apply_effect t c e)) = length (pool c).
Proof.
  simpl. rewrite length_insert. destruct (e_notify e); [|done].
  by rewrite length_fmap.
Qed.

(** Every step brings the server closer to quiescence: the measure of the
    configuration goes down with each step of any thread. *)
Lemma step_lowers_measure (w : World) (t : nat) (c c' : config) :
  step w t c = Some c' -> (measure c' < measure c)%nat.
Proof.
  intros Hs. apply step_inversion in Hs as (p & e & Hp & He & ->).
  unfold measure. rewrite length_apply_effect.
  set (n := length (pool c)).
  pose proof (local_step_weight n _ _ _ _ _ _ He) as Hw.
  pose proof (local_step_awake _ _ _ _ _ _ He) as Hawake.
  cbn [pool apply_effect]. destruct (e_notify e).
  - assert ((wake <$> pool c) !! t = Some p) as Hp'.
    { by rewrite list_lookup_fmap, Hp; simpl; rewrite Hawake. }
    pose proof (total_insert n _ _ _ (e_pc e) Hp').
    pose proof (total_wake n (pool c)). fold n in H0. lia.
  - pose proof (total_insert n _ _ _ (e_pc e) Hp). lia.
Qed.

Lemma moves_bounded w sched c : (moves w sched c <= measure c)%nat.
Proof.
  revert c. induction sched as [|t sched IH]; intros c; simpl; [lia|].
  destruct (step w t c) as [c'|] eqn:Hs; [|apply IH].
  pose proof (step_lowers_measure _ _ _ _ Hs).
  pose proof (IH c'). lia.
Qed.

Lemma total_spawn (n : nat) (calls : list call) :
  (total n (spawn <$> calls) <= length calls * (2 * n + 12))%nat.
Proof.
  induction calls as [|[r|k] calls IH]; [simpl; lia|..];
    rewrite fmap_cons; cbn [total length spawn]; unfold weight; simpl; lia.
Qed.

(** The third case at work. The loader ends in [sys.exit(1)]: [SystemExit]
    passes the [except Exception] block, the reconfigure call is over with
    the flag still set, the click that follows goes to sleep on the flag,
    and no thread can take a step any more. *)
Example exit_during_load_leaves_the_flag_set :
  let r := Sample.hello 2048 in
  let c := run Sample.exiting [0; 0; 0; 0; 0; 1; 1; 1]%nat
             (boot (Sample.state "custom_voice")
                [Reconfigure (Some "x"); Dispatch r]) in
  ~ raises_only_Exceptions Sample.exiting
  /\ pool c = [ReloadRaised (Exn "SystemExit" "1"); UseWaiting r]
  /\ reloading (ms c) = true /\ loaded (ms c) = unloaded
  /\ step Sample.exiting 0 c = None /\ step Sample.exiting 1 c = None.
Proof.
  intros r c. split.
  - intros H. specialize (H "x" _ eq_refl). vm_compute in H. discriminate H.
  - vm_compute. by repeat split.
Qed.

(** X2. No interleaving runs forever: however [n] calls are interleaved,
    the server takes at most [n * (2 * n + 12)] steps in all, so a
    sleeping thread cannot be woken and sent back to sleep without end. *)
Theorem runs_are_bounded
    (w : World) (st : LoadedState) (calls : list call) (sched : list nat) :
  (moves w sched (boot st calls)
   <= length calls * (2 * length calls + 12))%nat.
Proof.
  pose proof (moves_bounded w sched (boot st calls)) as H.
  unfold measure in H. simpl in H. rewrite length_fmap in H.
  pose proof (total_spawn (length calls) calls). lia.
Qed.

Lemma first_step_None w c ts :
  first_step w c ts = None -> forall t, t ∈ ts -> step w t c = None.
Proof.
  induction ts as [|a ts IH]; intros H t Ht; [by apply elem_of_nil in Ht|].
  simpl in H. destruct (step w a c) eqn:Ha; [done|].
  apply elem_of_cons in Ht as [->|Ht]; [done|by apply IH].
Qed.

Lemma first_step_Some w c ts c' :
  first_step w c ts = Some c' -> exists t, step w t c = Some c'.
Proof.
  induction ts as [|a ts IH]; intros H; [done|]. simpl in H.
  destruct (step w a c) eqn:Ha; simplify_eq; eauto.
Qed.

Lemma step_outside_pool w t c : pool c !! t = None -> step w t c = None.
Proof. intros H. unfold step. by rewrite H. Qed.

Lemma drive_finishes w fuel c :
  raises_only_Exceptions w ->
  Inv w c -> Live c -> (measure c <= fuel)%nat ->
  forall t p, pool (drive w fuel c) !! t = Some p -> finished p = true.
Proof.
  intros Hw.
  assert (forall c, Inv w c -> Live c ->
            (forall t p, pool c !! t = Some p -> finished p = true)
            \/ (exists t c', step w t c = Some c')) as Hprog.
  { intros c0 HI HL.
    destruct (progress w c0 HI HL) as [H|[H|(Hr & t & e & Hp & He)]];
      [by left|by right|].
    rewrite (nothing_escapes _ _ _ _ Hw HI Hp) in He. done. }
  revert c. induction fuel as [|fuel IH]; intros c HI HL Hm.
  - simpl. destruct (Hprog c HI HL) as [Hall|(t & c' & Hs)]; [done|].
    pose proof (step_lowers_measure _ _ _ _ Hs). lia.
  - simpl.
    destruct (first_step w c (seq 0 (length (pool c)))) as [c'|] eqn:Hf.
    + destruct (first_step_Some _ _ _ _ Hf) as (t & Hs).
      pose proof (step_lowers_measure _ _ _ _ Hs).
      apply IH; [by eapply step_preserves_inv|
                 by eapply step_preserves_live|lia].
    + destruct (Hprog c HI HL) as [Hall|(t & c' & Hs)]; [done|].
      exfalso. destruct (pool c !! t) as [p|] eqn:Hp.
      * assert (t ∈ seq 0 (length (pool c))) as Hin.
        { apply elem_of_seq. apply lookup_lt_Some in Hp. lia. }
        rewrite (first_step_None _ _ _ Hf _ Hin) in Hs. done.
      * rewrite (step_outside_pool _ _ _ Hp) in Hs. done.
Qed.

(** X3. Every call comes to an end, provided the loader raises nothing
    but what [except Exception] catches: from any configuration the server
    has reached, letting the threads run (lowest runnable thread first) for
    as many steps as the measure of the configuration leaves every handler
    returned and every reconfigure call returned or raised; no thread is
    left asleep or waiting for the lock. (The loader and the engine are
    taken to return or raise, whenever they are called.) *)
Theorem every_call_finishes
    (w : World) (st : LoadedState) (calls : list call) (sched : list nat) :
  let c := run w sched (boot st calls) in
  raises_only_Exceptions w ->
  forall t p,
    pool (drive w (measure c) c) !! t = Some p -> finished p = true.
Proof.
  intros c Hw. apply drive_finishes;
    [done|apply reachable_inv|apply reachable_live|done].
Qed.

(** X4. The critical sections exclude each other: in every configuration
    the server reaches, at most one thread stands inside a
    [with _STATE_COND:] block of [_use_model] or [_reload_model], that
    thread is the holder of the lock, and while the lock is held a step of
    any other thread changes neither [_MODEL_STATE] nor the lock. *)
Theorem critical_sections_exclude_each_other
    (w : World) (st : LoadedState) (calls : list call) (sched : list nat) :
  let c := run w sched (boot st calls) in
  (forall t1 t2 p1 p2,
     pool c !! t1 = Some p1 -> pool c !! t2 = Some p2 ->
     locked p1 = true -> locked p2 = true -> t1 = t2)
  /\ (forall t, lock c = Some t ->
        exists p, pool c !! t = Some p /\ locked p = true)
  /\ (forall t p, pool c !! t = Some p -> locked p = true ->
        lock c = Some t)
  /\ (forall t t' c', lock c = Some t -> t' <> t ->
        step w t' c = Some c' -> ms c' = ms c /\ lock c' = lock c).
Proof.
  intros c.
  pose proof (reachable_inv w st calls sched) as HI.
  pose proof (reachable_live w st calls sched) as HL. fold c in HI, HL.
  split; [|split; [|split]].
  - intros t1 t2 p1 p2 H1 H2 L1 L2.
    pose proof (inv_lock _ _ HI _ _ H1 L1).
    pose proof (inv_lock _ _ HI _ _ H2 L2). congruence.
  - apply (live_owner _ HL).
  - apply (inv_lock _ _ HI).
  - intros t t' c' Hl Hne Hs.
    destruct (live_owner _ HL _ Hl) as (q & Hq & Hlq).
    apply step_inversion in Hs as (p & e & Hp & He & ->).
    destruct (step_frame _ _ _ _ _ _ _ HI Hp He (not_eq_sym Hne) Hq Hlq)
      as (Hm & Hk & _).
    done.
Qed.

(** X5. Nobody sleeps without a reason: in every configuration the server
    reaches, a handler is asleep in the [wait()] of [_use_model] only while
    the reloading flag is set, a reconfigure call is asleep in the [wait()]
    of [_reload_model] only while some handler is in flight, and the flag
    is set only while some reconfigure call has run its
    [reloading = True] and no [reloading = False]: it stands between the
    two, or an exception that [except Exception] does not catch has taken
    it out of [_reload_model] past both flag-clearing blocks. *)
Theorem sleepers_are_owed_a_wake_up
    (w : World) (st : LoadedState) (calls : list call) (sched : list nat) :
  let c := run w sched (boot st calls) in
  (forall t r, pool c !! t = Some (UseWaiting r) ->
     reloading (ms c) = true)
  /\ (forall t k, pool c !! t = Some (ReloadWaiting k) ->
        0 < active_jobs (ms c)
        /\ exists t' p, pool c !! t' = Some p /\ holding p = true)
  /\ (reloading (ms c) = true ->
        exists t p, pool c !! t = Some p /\ flagged p = true
          /\ (finished p = true ->
              exists k e, p = ReloadRaised e /\ load w k = inl e
                          /\ is_Exception e = false)).
Proof.
  intros c.
  pose proof (reachable_inv w st calls sched) as HI.
  pose proof (reachable_live w st calls sched) as HL. fold c in HI, HL.
  split; [|split].
  - apply (live_use_waiting _ HL).
  - intros t k Hp. pose proof (live_reload_waiting _ HL _ _ Hp) as Hpos.
    split; [done|]. apply outstanding_holder.
    by rewrite <- (inv_count _ _ HI).
  - intros Hr. destruct (live_flag _ HL Hr) as (t & p & Hp & Hf).
    exists t, p. split; [done|]. split; [done|]. intros Hfin.
    destruct p; simplify_eq/=. apply negb_true_iff in Hf.
    destruct (inv_consistent _ _ HI _ _ Hp) as [->|[k Hk]]; [done|].
    by exists k, e.
Qed.

(** ** Threads follow their calls *)

Lemma follows_wake w k p : follows w k p -> follows w k (wake p).
Proof. by destruct k, p. Qed.

Lemma local_step_follows w t m l k p e :
  local_step w t m l p = Some e -> follows w k p -> follows w k (e_pc e).
Proof.
  intros H Hf. destruct k as [r|ckpt]; step_cases H; try done.
  all: repeat match goal with H : _ /\ _ |- _ => destruct H end; subst;
    auto.
  - left. split; [by apply negb_true_iff|done].
  - split; [done|]. by apply negb_false_iff.
Qed.

Lemma step_preserves_traced w calls t c c' :
  Traced w calls c -> step w t c = Some c' -> Traced w calls c'.
Proof.
  intros HT Hs. apply step_inversion in Hs as (p & e & Hp & He & ->).
  intros t' p' Hp'.
  destruct (lookup_apply _ _ _ _ _ _ Hp Hp') as [[-> ->]|(Hne & q & Hq & ->)].
  - destruct (HT _ _ Hp) as (k & Hk & Hf). exists k. split; [done|].
    by eapply local_step_follows.
  - destruct (HT _ _ Hq) as (k & Hk & Hf). exists k. split; [done|].
    unfold bystander. destruct (e_notify e); [by apply follows_wake|done].
Qed.

Lemma reachable_traced w st calls sched :
  Traced w calls (run w sched (boot st calls)).
Proof.
  assert (forall c, Traced w calls c -> Traced w calls (run w sched c)) as H.
  { induction sched as [|t sched IH]; intros c HT; simpl; [done|].
    apply IH. unfold run_thread.
    destruct (step w t c) as [c'|] eqn:Hs; simpl; [|done].
    by eapply step_preserves_traced. }
  apply H. intros t p Hp. simpl in Hp. rewrite list_lookup_fmap in Hp.
  destruct (calls !! t) as [k|] eqn:Hk; [|done]. simpl in Hp.
  exists k. split; [done|]. injection Hp as <-. by destruct k.
Qed.

(** A reconfigure thread runs a reconfigure call. *)
Lemma traced_reloader w calls c t p :
  Traced w calls c -> pool c !! t = Some p -> reloader p = true ->
  exists ckpt, calls !! t = Some (Reconfigure ckpt)
               /\ follows w (Reconfigure ckpt) p.
Proof.
  intros HT Hp Hr. destruct (HT _ _ Hp) as ([r|ckpt] & Hk & Hf).
  - by destruct p.
  - by exists ckpt.
Qed.

(** A call that has returned or raised stays where it is. *)
Lemma step_keeps_finished w t c c' t' p :
  step w t c = Some c' -> pool c !! t' = Some p -> finished p = true ->
  pool c' !! t' = Some p.
Proof.
  intros Hs Hp Hf. apply step_inversion in Hs as (q & e & Hq & He & ->).
  destruct (decide (t' = t)) as [->|Hne].
  - rewrite Hp in Hq. simplify_eq. by destruct q.
  - rewrite lookup_apply_other by done. rewrite Hp. simpl.
    unfold bystander. destruct (e_notify e); [|done]. by destruct p.
Qed.

Lemma run_keeps_finished w sched c t p :
  pool c !! t = Some p -> finished p = true ->
  pool (run w sched c) !! t = Some p.
Proof.
  revert c. induction sched as [|t0 sched IH]; intros c Hp Hf; simpl; [done|].
  apply IH; [|done]. unfold run_thread.
  destruct (step w t0 c) as [c'|] eqn:Hs; simpl; [|done].
  by eapply step_keeps_finished.
Qed.

(** ** A single reconfigure call publishes atomically *)

Lemma snapshot_view (m : ModelState) : snapshot m = view (loaded m).
Proof. by destruct m. Qed.

Lemma before_clear_bystander e q :
  before_clear (bystander e q) = before_clear q.
Proof. unfold bystander. destruct (e_notify e); [|done]. by destruct q. Qed.

Lemma published_bystander e q : published (bystander e q) = published q.
Proof. unfold bystander. destruct (e_notify e); [|done]. by destruct q. Qed.

Lemma held_bystander e q : held (bystander e q) = held q.
Proof. unfold bystander. destruct (e_notify e); [|done]. by destruct q. Qed.

Lemma raised_bystander e q x : bystander e q = ReloadRaised x -> q = ReloadRaised x.
Proof. unfold bystander. destruct (e_notify e); [|done]. by destruct q. Qed.

Lemma before_clear_reloader p : before_clear p = true -> reloader p = true.
Proof. by destruct p. Qed.

Lemma published_reloader p state : published p = Some state -> reloader p = true.
Proof. by destruct p. Qed.

Lemma held_handler p state : held p = Some state -> reloader p = false.
Proof. by destruct p. Qed.

Lemma local_step_held w t m l p e state :
  local_step w t m l p = Some e -> held (e_pc e) = Some state ->
  held p = Some state \/ (exists r, p = UseAdmit r /\ state = snapshot m).
Proof. intros H Hh. step_cases H; eauto. Qed.

Lemma local_step_before_clear w t m l p e :
  local_step w t m l p = Some e -> before_clear (e_pc e) = true ->
  before_clear p = true /\ loaded (e_ms e) = loaded m.
Proof. intros H Hb. by step_cases H. Qed.

Lemma local_step_published w t m l p e state :
  local_step w t m l p = Some e -> published (e_pc e) = Some state ->
  loaded (e_ms e) = state
  \/ (published p = Some state /\ loaded (e_ms e) = loaded m).
Proof. intros H Hb. step_cases H; auto. Qed.

(** A reconfigure call raises from its first test, before it has touched
    anything, or from behind the clearing [update]. *)
Lemma local_step_raised w t m l p e x :
  local_step w t m l p = Some e -> e_pc e = ReloadRaised x ->
  loaded (e_ms e) = loaded m
  /\ ((exists ckpt, p = Reload ckpt
                    /\ Py.truthy (Py.strip (Py.or_empty ckpt)) = false)
      \/ (emptied p = true
          /\ forall ckpt, follows w (Reconfigure ckpt) p ->
               Py.truthy (Py.strip (Py.or_empty ckpt)) = true)).
Proof.
  intros H Hb. step_cases H; (split; [done|]).
  - left. eexists. split; [done|]. by apply negb_true_iff.
  - right. split; [done|]. by intros c0 [_ ?].
  - right. split; [done|]. by intros c0 [? _].
Qed.

(** With a single reconfigure call and the flag clear, the model keys are
    settled. *)
Lemma quiet_is_settled w st calls c :
  Inv w c -> Sole c -> Traced w calls c -> Phase w st calls c ->
  reloading (ms c) = false ->
  settled w st calls c (loaded (ms c)).
Proof.
  intros HI HS HT HP Hq.
  destruct (pool_search reloader (pool c)) as [(t & p & Hp & Hr)|Hnone].
  - destruct (flagged p) eqn:Hf.
    { pose proof (sole_flag _ HS _ _ Hp Hf). congruence. }
    destruct (traced_reloader _ _ _ _ _ HT Hp Hr) as (ckpt & Hk & Hfo).
    destruct (before_clear p) eqn:Hb.
    { left. by eapply phase_before. }
    destruct (published p) as [state|] eqn:Hpub.
    { right. left. rewrite (phase_after _ _ _ _ HP _ _ _ Hp Hpub).
      exists t, ckpt. destruct p; simplify_eq/=. by destruct Hfo. }
    destruct p; simplify_eq/=. apply negb_false_iff in Hf.
    rewrite (phase_raised _ _ _ _ HP _ _ _ Hp Hk).
    destruct Hfo as [[-> _]|[Ht Hl]]; [by left|].
    rewrite Ht. right. right. split; [done|]. by exists t, ckpt, e.
  - left. by apply (phase_none _ _ _ _ HP).
Qed.

Lemma step_keeps_settled w st calls t c c' ls :
  step w t c = Some c' -> settled w st calls c ls -> settled w st calls c' ls.
Proof.
  intros Hs [->|[(t' & ckpt & Hk & Hp & Hl)|(-> & t' & ckpt & e & Hk & Hp & Hl)]].
  - by left.
  - right. left. exists t', ckpt. split; [done|]. split; [|done].
    by eapply step_keeps_finished.
  - right. right. split; [done|]. exists t', ckpt, e.
    split; [done|]. split; [|done]. by eapply step_keeps_finished.
Qed.

Lemma step_preserves_phase w st calls t c c' :
  Inv w c -> Sole c -> Traced w calls c -> Phase w st calls c ->
  step w t c = Some c' -> Phase w st calls c'.
Proof.
  intros HI HS HT HP Hs.
  pose proof (step_preserves_sole _ _ _ _ HI HS Hs) as HS'.
  pose proof Hs as Hstep.
  apply step_inversion in Hs as (p & e & Hp & He & ->).
  pose proof (local_step_reloader _ _ _ _ _ _ He) as Hrel.
  pose proof (lookup_apply_self t c e p Hp) as Hself.
  assert (forall t' q, t' <> t -> pool c !! t' = Some q ->
            reloader q = true -> loaded (e_ms e) = loaded (ms c)) as Hother.
  { intros t' q Hne Hq Hr.
    pose proof (sole_other_is_handler _ _ _ _ _ HS Hp Hq Hne Hr) as Hh.
    by destruct (local_step_handler _ _ _ _ _ _ He Hh). }
  split.
  - intros t' p' Hp' Hb.
    destruct (lookup_apply _ _ _ _ _ _ Hp Hp') as [[-> ->]|(Hne & q & Hq & ->)].
    + destruct (local_step_before_clear _ _ _ _ _ _ He Hb) as [Hb' Hm].
      simpl. rewrite Hm. by eapply phase_before.
    + rewrite before_clear_bystander in Hb. simpl.
      rewrite (Hother _ _ Hne Hq (before_clear_reloader _ Hb)).
      by eapply phase_before.
  - intros t' p' state Hp' Hb.
    destruct (lookup_apply _ _ _ _ _ _ Hp Hp') as [[-> ->]|(Hne & q & Hq & ->)].
    + destruct (local_step_published _ _ _ _ _ _ _ He Hb) as [Hm|[Hb' Hm]];
        [done|].
      simpl. rewrite Hm. by eapply phase_after.
    + rewrite published_bystander in Hb. simpl.
      rewrite (Hother _ _ Hne Hq (published_reloader _ _ Hb)).
      by eapply phase_after.
  - intros t' x ckpt Hp' Hk.
    destruct (lookup_apply _ _ _ _ _ _ Hp Hp') as [[-> Hx]|(Hne & q & Hq & Hx)].
    + symmetry in Hx.
      destruct (local_step_raised _ _ _ _ _ _ _ He Hx)
        as [Hm [(ckpt' & -> & Ht)|[Hem Ht]]].
      * destruct (HT _ _ Hp) as (k & Hk' & Hfo). rewrite Hk in Hk'.
        simplify_eq. simpl in Hfo. subst ckpt'. rewrite Ht. simpl.
        rewrite Hm. by eapply phase_before.
      * destruct (HT _ _ Hp) as (k & Hk' & Hfo). rewrite Hk in Hk'.
        simplify_eq. rewrite (Ht _ Hfo). simpl. rewrite Hm.
        by eapply (sole_emptied _ HS).
    + symmetry in Hx. apply raised_bystander in Hx. subst q. simpl.
      rewrite (Hother _ _ Hne Hq eq_refl). by eapply phase_raised.
  - intros Hnone. simpl.
    assert (reloader p = false) as Hh.
    { rewrite <- Hrel. by eapply Hnone. }
    destruct (local_step_handler _ _ _ _ _ _ He Hh) as [_ ->].
    apply (phase_none _ _ _ _ HP). intros t' q Hq.
    destruct (decide (t' = t)) as [->|Hne]; [congruence|].
    rewrite <- (bystander_reloader e). eapply (Hnone t').
    rewrite lookup_apply_other by done. by rewrite Hq.
  - intros t' p' state Hp' Hh.
    assert (forall ls, settled w st calls c ls ->
              settled w st calls (apply_effect t c e) ls) as Hkeep.
    { intros ls. by apply (step_keeps_settled _ _ _ _ _ _ _ Hstep). }
    destruct (lookup_apply _ _ _ _ _ _ Hp Hp') as [[-> ->]|(Hne & q & Hq & ->)].
    + destruct (local_step_held _ _ _ _ _ _ _ He Hh) as [Hh'|(r & -> & ->)].
      * destruct (phase_held _ _ _ _ HP _ _ _ Hp Hh') as (ls & Hls & ->).
        exists ls. split; [by apply Hkeep|done].
      * exists (loaded (ms c)). split; [|apply snapshot_view].
        apply Hkeep. apply (quiet_is_settled _ _ _ _ HI HS HT HP).
        by eapply inv_admit.
    + rewrite held_bystander in Hh.
      destruct (phase_held _ _ _ _ HP _ _ _ Hq Hh) as (ls & Hls & ->).
      exists ls. split; [by apply Hkeep|done].
Qed.

Lemma run_preserves_phase w st calls sched c :
  Inv w c -> Sole c -> Traced w calls c -> Phase w st calls c ->
  Phase w st calls (run w sched c).
Proof.
  revert c. induction sched as [|t sched IH]; intros c HI HS HT HP; simpl;
    [done|].
  apply IH; [by apply run_thread_preserves_inv|..];
    unfold run_thread; destruct (step w t c) as [c'|] eqn:Hs; simpl;
    try done.
  - by eapply step_preserves_sole.
  - by eapply step_preserves_traced.
  - by eapply step_preserves_phase.
Qed.

Lemma boot_phase w st calls : Phase w st calls (boot st calls).
Proof.
  split; simpl; try done.
  - intros t p state H. by destruct (lookup_spawn _ _ _ H) as [[? ->]|[? ->]].
  - intros t e ckpt H. by destruct (lookup_spawn _ _ _ H) as [[? ?]|[? ?]].
  - intros t p state H. by destruct (lookup_spawn _ _ _ H) as [[? ->]|[? ->]].
Qed.

Lemma reachable_phase w st calls sched :
  one_reconfigure calls -> Phase w st calls (run w sched (boot st calls)).
Proof.
  intros H. apply run_preserves_phase;
    [apply boot_inv|by apply boot_sole| |apply boot_phase].
  apply (reachable_traced w st calls []).
Qed.

(** X6. Handlers never see a half-swapped model: when the calls contain a
    single reconfigure, every snapshot that a handler holds, in any
    interleaving, is the snapshot of a settled state: the state the server
    was booted with; or the state that the reconfigure call built from its
    stripped checkpoint, and then that call has returned; or the cleared
    state, and then the reconfigure call has raised the exception that the
    loading of its checkpoint raised, through its [except Exception]
    block. The cleared state of a reload that is still under way, or that
    was left by an exception outside [Exception], is never handed out. *)
Theorem snapshots_are_settled
    (w : World) (st : LoadedState) (calls : list call) (sched : list nat)
    (t : nat) (p : pc) (state : Snapshot) :
  let c := run w sched (boot st calls) in
  one_reconfigure calls ->
  pool c !! t = Some p -> held p = Some state ->
  exists ls, state = view ls
    /\ (ls = st
        \/ (exists t' ckpt,
              calls !! t' = Some (Reconfigure ckpt)
              /\ pool c !! t' = Some (ReloadReturned ls)
              /\ load w (Py.strip (Py.or_empty ckpt)) = inr ls)
        \/ (ls = unloaded
            /\ exists t' ckpt e,
                 calls !! t' = Some (Reconfigure ckpt)
                 /\ pool c !! t' = Some (ReloadRaised e)
                 /\ load w (Py.strip (Py.or_empty ckpt)) = inl e
                 /\ is_Exception e = true)).
Proof.
  intros c H1 Hp Hh.
  destruct (phase_held _ _ _ _ (reachable_phase w st calls sched H1)
              _ _ _ Hp Hh) as (ls & Hs & ->).
  by exists ls.
Qed.

(** X7. What a lone reconfigure call leaves behind; [k] is its checkpoint,
    stripped. When it has returned [state], [state] is what [load] built
    from [k], [_MODEL_STATE] holds exactly [state], and the flag is clear.
    When it has raised [e], either [k] is empty, [e] is the [ValueError]
    for a missing checkpoint, the model is the one the server was booted
    with and the flag is clear; or [k] is not empty, [e] is what loading
    [k] raised, no model is loaded, and the flag is clear if
    [except Exception] catches [e] and set if it does not. While the call
    stands behind its clearing [update] without having cleared the flag
    (and for ever, if an exception outside [Exception] took it away), the
    flag is set and no handler is in flight. A call that has returned or
    raised stays as it is in every continuation. *)
Theorem lone_reconfigure_outcome
    (w : World) (st : LoadedState) (calls : list call) (sched : list nat)
    (t : nat) (ckpt : option string) :
  let c := run w sched (boot st calls) in
  let k := Py.strip (Py.or_empty ckpt) in
  one_reconfigure calls ->
  calls !! t = Some (Reconfigure ckpt) ->
  (forall state, pool c !! t = Some (ReloadReturned state) ->
     load w k = inr state
     /\ loaded (ms c) = state /\ reloading (ms c) = false)
  /\ (forall e, pool c !! t = Some (ReloadRaised e) ->
        (Py.truthy k = false
         /\ e = ValueError "Checkpoint is required."
         /\ loaded (ms c) = st /\ reloading (ms c) = false)
        \/ (Py.truthy k = true
            /\ load w k = inl e
            /\ loaded (ms c) = unloaded
            /\ reloading (ms c) = negb (is_Exception e)))
  /\ (forall p, pool c !! t = Some p -> drained p = true ->
        reloading (ms c) = true /\ active_jobs (ms c) = 0
        /\ forall t' q, pool c !! t' = Some q -> holding q = false)
  /\ (forall p sched', pool c !! t = Some p -> finished p = true ->
        pool (run w sched' c) !! t = Some p).
Proof.
  intros c k H1 Hk.
  pose proof (reachable_inv w st calls sched) as HI.
  pose proof (reachable_live w st calls sched) as HL.
  pose proof (reachable_sole w st calls sched H1) as HS.
  pose proof (reachable_traced w st calls sched) as HT.
  pose proof (reachable_phase w st calls sched H1) as HP.
  fold c in HI, HL, HS, HT, HP.
  assert (forall p, pool c !! t = Some p -> follows w (Reconfigure ckpt) p)
    as Hfo.
  { intros p Hp. destruct (HT _ _ Hp) as (k' & Hk' & Hf).
    rewrite Hk in Hk'. by simplify_eq. }
  assert (forall p, pool c !! t = Some p -> reloader p = true ->
            flagged p = false -> reloading (ms c) = false) as Hclear.
  { intros p Hp Hr Hf. destruct (reloading (ms c)) eqn:Hfl; [|done].
    destruct (live_flag _ HL Hfl) as (t0 & q & Hq & Hfq).
    assert (t0 = t) as ->.
    { eapply (sole_reloader _ HS); eauto. by apply flagged_reloader. }
    congruence. }
  split; [|split; [|split]].
  - intros state Hp. destruct (Hfo _ Hp) as [_ Hl]. split; [done|].
    split; [by eapply (phase_after _ _ _ _ HP)|]. by eapply Hclear.
  - intros e Hp. pose proof (phase_raised _ _ _ _ HP _ _ _ Hp Hk) as Hm.
    fold k in Hm.
    destruct (Hfo _ Hp) as [[Ht ->]|[Ht Hl]]; fold k in Ht; rewrite Ht in Hm.
    + left. split; [done|]. split; [done|]. split; [done|].
      by eapply Hclear.
    + right. split; [done|]. split; [done|]. split; [done|].
      destruct (is_Exception e) eqn:He; simpl.
      * eapply Hclear; [done..|]. simpl. by rewrite He.
      * eapply (sole_flag _ HS); [done|]. simpl. by rewrite He.
  - intros p Hp Hd.
    pose proof (sole_drained _ HS _ _ Hp Hd) as H0.
    split; [by eapply (sole_flag _ HS), drained_flagged|]. split; [done|].
    intros t' q Hq. destruct (holding q) eqn:Hh; [|done].
    pose proof (outstanding_pos _ _ _ Hq Hh).
    pose proof (inv_count _ _ HI). lia.
  - intros p sched' Hp Hf. by apply run_keeps_finished.
Qed.

(** ** Stripping *)

Lemma rstrip_keeps_head (c : ascii) (s : string) :
  Py.isspace c = false -> Py.rstrip (String c s) = String c (Py.rstrip s).
Proof. intros H. simpl. rewrite H. by destruct (Py.rstrip s). Qed.

Lemma rstrip_idempotent (s : string) : Py.rstrip (Py.rstrip s) = Py.rstrip s.
Proof.
  induction s as [|a s IH]; [done|]. simpl.
  destruct (Py.rstrip s) as [|b r] eqn:Hr.
  - destruct (Py.isspace a) eqn:Ha; [done|]. simpl. by rewrite Ha.
  - change (Py.rstrip (String a (String b r))) with
      (match Py.rstrip (String b r) with
       | EmptyString =>
           if Py.isspace a then EmptyString else String a EmptyString
       | r' => String a r'
       end).
    by rewrite IH.
Qed.

Lemma lstrip_head (s : string) :
  Py.lstrip s = ""
  \/ exists c s', Py.lstrip s = String c s' /\ Py.isspace c = false.
Proof.
  induction s as [|a s IH]; [by left|]. simpl.
  destruct (Py.isspace a) eqn:Ha; [done|]. right. eauto.
Qed.

Lemma strip_idempotent (s : string) : Py.strip (Py.strip s) = Py.strip s.
Proof.
  unfold Py.strip. destruct (lstrip_head s) as [->|(c & s' & -> & Hc)]; [done|].
  rewrite (rstrip_keeps_head _ _ Hc). cbn [Py.lstrip]. rewrite Hc.
  rewrite (rstrip_keeps_head _ _ Hc). by rewrite rstrip_idempotent.
Qed.

Lemma truthy_nonempty (s : string) : Py.truthy s = true -> s <> "".
Proof. by destruct s. Qed.

Lemma blank_false_clean (s : option string) :
  Py.blank s = false -> clean (Py.strip (Py.or_empty s)).
Proof.
  destruct s as [s|]; [|done]. simpl.
  intros [_ H]%orb_false_elim. apply negb_false_iff in H.
  split; [by apply truthy_nonempty|apply strip_idempotent].
Qed.

Lemma or_none_strip_clean (s i : string) :
  Py.or_none (Py.strip s) = Some i -> clean i.
Proof.
  unfold Py.or_none. destruct (Py.truthy (Py.strip s)) eqn:H; [|done].
  intros [= <-]. split; [by apply truthy_nonempty|apply strip_idempotent].
Qed.

(** What the body of one of the three handlers invokes. *)
Lemma body_invocations w r op body state x ecalls :
  handler_of w r = WithModel body -> operation_of r = Some op ->
  body state = (x, ecalls) ->
  ecalls = []
  \/ exists call m, ecalls = [call] /\ s_tts state = Some m
       /\ s_model_kind state = kind_of op /\ capability call = op
       /\ tidy call
       /\ (language_of call = "Auto"
           \/ exists d, s_lang_map state !! d = Some (language_of call)).
Proof.
  intros Hb Hop Hx.
  assert (forall d k, dict_get d k "Auto" = "Auto"
                      \/ exists key, d !! key = Some (dict_get d k "Auto"))
    as Hlang.
  { intros d [k|]; [|by left]. unfold dict_get. simpl.
    destruct (d !! k) eqn:Hk; [right; eauto|by left]. }
  assert (forall m call,
            invoke m call = (x, ecalls) -> ecalls = [call]) as Hinv.
  { intros m call H. unfold invoke in H. by simplify_eq. }
  destruct r as [text lang spk instr adv|text lang design adv
                |aud rtxt xvec text lang adv|b]; simplify_eq/=.
  - unfold run_instruct in Hb.
    destruct (Py.blank text) eqn:Ht; [done|].
    destruct (negb (Py.truthy (Py.or_empty spk))) eqn:Hs; [done|].
    simplify_eq. cbv beta in Hx.
    destruct (s_tts state) as [m|] eqn:Hm; [|left; by simplify_eq].
    destruct (String.eqb (s_model_kind state) "custom_voice") eqn:Hk;
      simpl in Hx; [|left; by simplify_eq].
    destruct (_gen_common_kwargs adv) as [e0|kwargs];
      [left; by simplify_eq|].
    apply String.eqb_eq in Hk. apply Hinv in Hx as ->. right.
    eexists _, m. split; [done|]. split; [done|]. split; [done|].
    split; [done|]. split; [|apply Hlang].
    split; [by apply blank_false_clean|].
    intros i. apply or_none_strip_clean.
  - unfold run_voice_design in Hb.
    destruct (Py.blank text) eqn:Ht; [done|].
    destruct (Py.blank design) eqn:Hd; [done|].
    simplify_eq. cbv beta in Hx.
    destruct (s_tts state) as [m|] eqn:Hm; [|left; by simplify_eq].
    destruct (String.eqb (s_model_kind state) "voice_design") eqn:Hk;
      simpl in Hx; [|left; by simplify_eq].
    destruct (_gen_common_kwargs adv) as [e0|kwargs];
      [left; by simplify_eq|].
    apply String.eqb_eq in Hk. apply Hinv in Hx as ->. right.
    eexists _, m. split; [done|]. split; [done|]. split; [done|].
    split; [done|]. split; [|apply Hlang].
    split; [by apply blank_false_clean|]. by apply blank_false_clean.
  - unfold run_voice_clone in Hb.
    destruct (Py.blank text) eqn:Ht; [done|].
    destruct (_audio_to_tuple w aud) as [e|[at_|]] eqn:Ha; [done| |done].
    destruct (negb xvec && Py.blank rtxt) eqn:Hr; [done|].
    simplify_eq. cbv beta in Hx.
    destruct (s_tts state) as [m|] eqn:Hm; [|left; by simplify_eq].
    destruct (String.eqb (s_model_kind state) "base") eqn:Hk;
      simpl in Hx; [|left; by simplify_eq].
    destruct (_gen_common_kwargs adv) as [e0|kwargs];
      [left; by simplify_eq|].
    apply String.eqb_eq in Hk. apply Hinv in Hx as ->. right.
    eexists _, m. split; [done|]. split; [done|]. split; [done|].
    split; [done|]. split; [|apply Hlang].
    split; [by apply blank_false_clean|]. split.
    + intros s0. destruct (Py.truthy (Py.or_empty rtxt)); [|done].
      intros [= <-]. apply strip_idempotent.
    + intros ->. simpl in Hr.
      pose proof (blank_false_clean _ Hr) as Hc.
      destruct rtxt as [s0|]; [|done]. simpl in Hr.
      apply orb_false_elim in Hr as [Hr _]. apply negb_false_iff in Hr.
      simpl. rewrite Hr. eauto.
Qed.

(** ** Display names and the maps back *)

Lemma dict_insert_all_Some (l : list (string * string)) (m : gmap string string)
    (k v : string) :
  foldl (fun m kv => <[kv.1 := kv.2]> m) m l !! k = Some v ->
  (k, v) ∈ l \/ m !! k = Some v.
Proof.
  revert m. induction l as [|[a b] l IH]; intros m H; simpl in H; [by right|].
  destruct (IH _ H) as [Hin|Hm].
  - left. apply elem_of_cons; by right.
  - destruct (decide (a = k)) as [->|Hne].
    + rewrite lookup_insert_eq in Hm. simplify_eq. left. apply elem_of_cons; by left.
    + rewrite lookup_insert_ne in Hm by done. by right.
Qed.

Lemma dict_insert_all_is_Some (l : list (string * string))
    (m : gmap string string) (k : string) :
  k ∈ l.*1 \/ is_Some (m !! k) ->
  is_Some (foldl (fun m kv => <[kv.1 := kv.2]> m) m l !! k).
Proof.
  revert m. induction l as [|[a b] l IH]; intros m H; simpl.
  - destruct H as [H|H]; [by apply elem_of_nil in H|done].
  - apply IH. destruct H as [H|H].
    + rewrite fmap_cons in H. apply elem_of_cons in H as [->|H]; [|by left].
      right. simpl. rewrite lookup_insert_eq. by eexists.
    + right. simpl. destruct (decide (a = k)) as [->|Hne].
      * rewrite lookup_insert_eq. by eexists.
      * by rewrite lookup_insert_ne.
Qed.

Lemma dict_of_pairs_keys (l : list (string * string)) (k : string) :
  is_Some (dict_of_pairs l !! k) <-> k ∈ l.*1.
Proof.
  split.
  - intros [v Hv]. destruct (dict_insert_all_Some _ _ _ _ Hv) as [H|H].
    + apply list_elem_of_fmap. by exists (k, v).
    + by rewrite lookup_empty in H.
  - intros H. apply dict_insert_all_is_Some. by left.
Qed.

Lemma zip_fmap_elem (f : string -> string) (items : list string)
    (d r : string) :
  (d, r) ∈ zip (map f items) items -> d = f r /\ r ∈ items.
Proof.
  induction items as [|a items IH]; simpl; [by intros H%elem_of_nil|].
  intros [H|H]%elem_of_cons.
  - simplify_eq. split; [done|apply elem_of_cons; by left].
  - destruct (IH H). split; [done|apply elem_of_cons; by right].
Qed.

Lemma zip_fmap_keys (f : string -> string) (items : list string) :
  (zip (map f items) items).*1 = map f items.
Proof. induction items as [|a items IH]; simpl; [done|]. f_equal. exact IH. Qed.

Lemma map_elem (f : string -> string) (items : list string) (x : string) :
  x ∈ items -> f x ∈ map f items.
Proof.
  induction items as [|a items IH]; simpl; [by intros H%elem_of_nil|].
  intros [->|H]%elem_of_cons; [apply elem_of_cons; by left|].
  apply elem_of_cons; right; by apply IH.
Qed.

Lemma map_NoDup_inj (f : string -> string) (items : list string)
    (x y : string) :
  NoDup (map f items) -> x ∈ items -> y ∈ items -> f x = f y -> x = y.
Proof.
  induction items as [|a items IH]; simpl; [by intros _ H%elem_of_nil|].
  intros [Hn Hd]%NoDup_cons [->|Hx]%elem_of_cons [->|Hy]%elem_of_cons Hf;
    try done.
  - destruct Hn. rewrite Hf. by apply map_elem.
  - destruct Hn. rewrite <- Hf. by apply map_elem.
  - by apply IH.
Qed.

Lemma choices_and_map_spec (items : list string) :
  let title x := _title_case_display (Some x) in
  (_build_choices_and_map items).1 = map title items
  /\ (forall d r, (_build_choices_and_map items).2 !! d = Some r ->
        r ∈ items /\ title r = d)
  /\ (forall d, is_Some ((_build_choices_and_map items).2 !! d)
               <-> d ∈ map title items).
Proof.
  intros title. unfold _build_choices_and_map.
  destruct items as [|a items]; simpl.
  - split; [done|]. split.
    + intros d r H. by rewrite lookup_empty in H.
    + intros d. split; [by intros [? H]; rewrite lookup_empty in H|].
      by intros H%elem_of_nil.
  - fold title. split; [done|]. split.
    + intros d r H.
      destruct (dict_insert_all_Some
                  (zip (map title (a :: items)) (a :: items)) ∅ d r)
        as [Hin|He]; [exact H| |by rewrite lookup_empty in He].
      destruct (zip_fmap_elem title (a :: items) d r Hin). by split.
    + intros d.
      pose proof (dict_of_pairs_keys
                    (zip (map title (a :: items)) (a :: items)) d) as Hk.
      rewrite zip_fmap_keys in Hk. exact Hk.
Qed.

Lemma choices_keys (items : list string) (d : string) :
  d ∈ (_build_choices_and_map items).1
  <-> is_Some ((_build_choices_and_map items).2 !! d).
Proof.
  destruct (choices_and_map_spec items) as (Hd & _ & Hkeys).
  simpl in Hd, Hkeys. rewrite Hd. symmetry. apply Hkeys.
Qed.

Lemma choices_round_trip (items : list string) (x : string) :
  NoDup (_build_choices_and_map items).1 -> x ∈ items ->
  (_build_choices_and_map items).2 !! _title_case_display (Some x) = Some x.
Proof.
  destruct (choices_and_map_spec items) as (Hd & Hback & Hkeys).
  simpl in Hd, Hback, Hkeys. rewrite Hd. intros Hn Hx.
  assert (is_Some ((_build_choices_and_map items).2
                     !! _title_case_display (Some x))) as [r Hr].
  { apply Hkeys. by apply (map_elem (fun x => _title_case_display (Some x))). }
  destruct (Hback _ _ Hr) as [Hin Ht].
  rewrite Hr. f_equal.
  by eapply (map_NoDup_inj (fun x => _title_case_display (Some x))).
Qed.

(** X8. The map that [_build_choices_and_map] builds leads from a display
    name back to a raw name. The display names are the title-cased items,
    one per item and in their order; the keys of the map are exactly the
    display names; every key leads to an item whose title-cased form is
    that key; and when no two items share a display name, looking up the
    display name of an item gives that very item. *)
Theorem choices_map_leads_back (items : list string) :
  let title x := _title_case_display (Some x) in
  let display := (_build_choices_and_map items).1 in
  let mapping := (_build_choices_and_map items).2 in
  length display = length items
  /\ (forall i x, items !! i = Some x -> display !! i = Some (title x))
  /\ (forall d, d ∈ display <-> is_Some (mapping !! d))
  /\ (forall d r, mapping !! d = Some r -> r ∈ items /\ title r = d)
  /\ (NoDup display -> forall x, x ∈ items -> mapping !! title x = Some x).
Proof.
  intros title display mapping.
  destruct (choices_and_map_spec items) as (Hd & Hback & Hkeys).
  fold title in Hd, Hback, Hkeys. fold display in Hd.
  fold mapping in Hback, Hkeys.
  split; [by rewrite Hd, length_map|]. split.
  { intros i x Hx. rewrite Hd. change (map title items) with (title <$> items).
    by rewrite list_lookup_fmap, Hx. }
  split; [intros d; apply choices_keys|].
  split; [done|].
  intros Hn x Hx. by apply choices_round_trip.
Qed.

(** ** The state that [_build_model_state] builds *)

Lemma detect_kind_Some ckpt m kind :
  _detect_model_kind ckpt m = inr kind ->
  tts_model_type m = Some kind /\ exists op, kind = kind_of op.
Proof.
  unfold _detect_model_kind. destruct (tts_model_type m) as [mt|]; [|done].
  destruct (String.eqb mt "custom_voice") eqn:H1.
  { apply String.eqb_eq in H1 as ->. simpl. intros [= <-].
    split; [done|]. by exists CustomVoice. }
  destruct (String.eqb mt "voice_design") eqn:H2.
  { apply String.eqb_eq in H2 as ->. simpl. intros [= <-].
    split; [done|]. by exists VoiceDesign. }
  destruct (String.eqb mt "base") eqn:H3; [|done].
  apply String.eqb_eq in H3 as ->. simpl. intros [= <-].
  split; [done|]. by exists VoiceClone.
Qed.

Lemma detect_kind_of ckpt m op :
  tts_model_type m = Some (kind_of op) ->
  _detect_model_kind ckpt m = inr (kind_of op).
Proof. intros H. unfold _detect_model_kind. rewrite H. by destruct op. Qed.

Lemma detect_kind_error ckpt m e :
  _detect_model_kind ckpt m = inl e ->
  exn_type e = "ValueError" /\ forall op, tts_model_type m <> Some (kind_of op).
Proof.
  intros H. split.
  - unfold _detect_model_kind in H. by repeat case_match; simplify_eq.
  - intros op Hop. by rewrite (detect_kind_of _ _ _ Hop) in H.
Qed.

Lemma build_model_state_inv m ckpt0 st :
  _build_model_state m ckpt0 = inr st ->
  exists kind,
    _detect_model_kind ckpt0 m = inr kind
    /\ st = {| tts := Some m; ckpt := ckpt0; model_kind := kind;
               lang_choices_disp :=
                 (_build_choices_and_map
                    (default [] (get_supported_languages m))).1;
               lang_choices_ui :=
                 if bool_decide
                      ("Auto" ∈ (_build_choices_and_map
                                   (default [] (get_supported_languages m))).1)
                 then (_build_choices_and_map
                         (default [] (get_supported_languages m))).1
                 else "Auto" :: (_build_choices_and_map
                                   (default [] (get_supported_languages m))).1;
               lang_map :=
                 (_build_choices_and_map
                    (default [] (get_supported_languages m))).2
                 ∪ {["Auto" := "Auto"]};
               spk_choices_disp :=
                 (_build_choices_and_map
                    (default [] (get_supported_speakers m))).1;
               spk_map :=
                 (_build_choices_and_map
                    (default [] (get_supported_speakers m))).2 |}.
Proof.
  unfold _build_model_state.
  destruct (_detect_model_kind ckpt0 m) as [e|kind]; [done|].
  destruct (_build_choices_and_map (default [] (get_supported_languages m)))
    as [ld lm].
  destruct (_build_choices_and_map (default [] (get_supported_speakers m)))
    as [sd sm].
  intros [= <-]. by exists kind.
Qed.

Lemma kind_of_inj op op' : kind_of op = kind_of op' -> op = op'.
Proof. by destruct op, op'. Qed.

(** X9. [_build_model_state] accepts exactly the three model types. For a
    model whose [tts_model_type] is "custom_voice", "voice_design" or
    "base" it returns a state that carries the model, the checkpoint name
    as given and that type as [model_kind], for which exactly one of the
    three panels is visible, whose language choices contain "Auto", whose
    language map has an entry for "Auto", and for which the language
    dropdown starts at "Auto". For any other type, or none, it raises
    [ValueError]. *)
Theorem build_model_state_outcome (m : Qwen3TTSModel) (ckpt0 : string) :
  (forall op, tts_model_type m = Some (kind_of op) ->
     exists st, _build_model_state m ckpt0 = inr st)
  /\ (forall st, _build_model_state m ckpt0 = inr st ->
        exists op,
          tts_model_type m = Some (kind_of op)
          /\ model_kind st = kind_of op
          /\ tts st = Some m /\ ckpt st = ckpt0
          /\ (forall op', panel_visible op' (model_kind st) = true
                          <-> op' = op)
          /\ "Auto" ∈ lang_choices_ui st
          /\ is_Some (lang_map st !! "Auto")
          /\ _default_lang_value (lang_choices_ui st) = Some "Auto")
  /\ (forall e, _build_model_state m ckpt0 = inl e ->
        exn_type e = "ValueError"
        /\ forall op, tts_model_type m <> Some (kind_of op)).
Proof.
  split; [|split].
  - intros op Hop. unfold _build_model_state.
    rewrite (detect_kind_of _ _ _ Hop).
    destruct (_build_choices_and_map _) as [ld lm].
    destruct (_build_choices_and_map _) as [sd sm]. eauto.
  - intros st Hst.
    destruct (build_model_state_inv _ _ _ Hst) as (kind & Hk & ->).
    destruct (detect_kind_Some _ _ _ Hk) as (Ht & op & ->).
    exists op. cbn [model_kind tts ckpt lang_choices_ui lang_map].
    split; [done|]. split; [done|]. split; [done|]. split; [done|].
    assert ("Auto" ∈
              (if bool_decide
                    ("Auto" ∈ (_build_choices_and_map
                                 (default [] (get_supported_languages m))).1)
               then (_build_choices_and_map
                       (default [] (get_supported_languages m))).1
               else "Auto" :: (_build_choices_and_map
                                 (default [] (get_supported_languages m))).1))
      as Hauto.
    { case_bool_decide; [done|]. apply elem_of_cons. by left. }
    split; [|split; [done|split]].
    + intros op'. unfold panel_visible. rewrite String.eqb_eq. split.
      * intros H. symmetry. by apply kind_of_inj.
      * by intros ->.
    + destruct ((_build_choices_and_map
                   (default [] (get_supported_languages m))).2 !! "Auto")
        as [v|] eqn:Hv.
      * exists v. by apply lookup_union_Some_l.
      * exists "Auto". rewrite lookup_union_r by done.
        apply lookup_singleton_eq.
    + unfold _default_lang_value. by rewrite bool_decide_eq_true_2.
  - intros e He. unfold _build_model_state in He.
    destruct (_detect_model_kind ckpt0 m) as [e'|kind] eqn:Hk.
    + simplify_eq. by apply (detect_kind_error ckpt0).
    + destruct (_build_choices_and_map _) as [ld lm].
      by destruct (_build_choices_and_map _) as [sd sm].
Qed.

Lemma built_language m ckpt0 st k :
  _build_model_state m ckpt0 = inr st ->
  dict_get (lang_map st) k "Auto" = "Auto"
  \/ dict_get (lang_map st) k "Auto" ∈ default [] (get_supported_languages m).
Proof.
  intros Hst. destruct (build_model_state_inv _ _ _ Hst) as (kind & _ & ->).
  cbn [lang_map]. unfold dict_get. destruct k as [k|]; [|by left]. simpl.
  destruct (choices_and_map_spec (default [] (get_supported_languages m)))
    as (_ & Hback & _).
  set (lm := (_build_choices_and_map
                (default [] (get_supported_languages m))).2) in *.
  destruct ((lm ∪ {["Auto" := "Auto"]}) !! k) as [v|] eqn:Hv; [|by left].
  simpl. apply lookup_union_Some_raw in Hv as [Hv|[_ Hv]].
  - right. by destruct (Hback _ _ Hv).
  - left. apply lookup_singleton_Some in Hv as [_ <-]. done.
Qed.

(** X10. What the dropdowns of a built state resolve to. Whatever value
    the language dropdown sends (an offered name, any other string, or
    nothing), the language looked up in the state's map is "Auto" or one
    of the languages the model supports; every offered language has an
    entry in the map. Every offered speaker name leads to a supported
    speaker whose display name it is, and when no two speakers share a
    display name, the display name of each supported speaker leads back
    to that speaker. *)
Theorem dropdowns_resolve_to_supported_names
    (m : Qwen3TTSModel) (ckpt0 : string) (st : LoadedState) :
  _build_model_state m ckpt0 = inr st ->
  let languages := default [] (get_supported_languages m) in
  let speakers := default [] (get_supported_speakers m) in
  (forall k, dict_get (lang_map st) k "Auto" = "Auto"
             \/ dict_get (lang_map st) k "Auto" ∈ languages)
  /\ (forall d, d ∈ lang_choices_ui st -> is_Some (lang_map st !! d))
  /\ (forall d, d ∈ spk_choices_disp st ->
        exists x, spk_map st !! d = Some x /\ x ∈ speakers
                  /\ _title_case_display (Some x) = d)
  /\ (NoDup (spk_choices_disp st) ->
      forall x, x ∈ speakers ->
        spk_map st !! _title_case_display (Some x) = Some x).
Proof.
  intros Hst languages speakers.
  split; [intros k; by eapply built_language|].
  destruct (build_model_state_inv _ _ _ Hst) as (kind & _ & ->).
  cbn [lang_map lang_choices_ui spk_choices_disp spk_map].
  pose proof (choices_keys languages) as Hlk.
  pose proof (choices_keys speakers) as Hsk.
  destruct (choices_and_map_spec speakers) as (_ & Hsb & _).
  simpl in Hsb. fold languages speakers.
  split; [|split].
  - intros d Hd.
    assert (d = "Auto" \/ d ∈ (_build_choices_and_map languages).1) as [->|Hin].
    { case_bool_decide; [by right|].
      apply elem_of_cons in Hd as [->|Hd]; [by left|by right]. }
    + destruct ((_build_choices_and_map languages).2 !! "Auto") as [v|] eqn:Hv.
      * exists v. by apply lookup_union_Some_l.
      * exists "Auto". rewrite lookup_union_r by done.
        apply lookup_singleton_eq.
    + apply Hlk in Hin as [v Hv]. exists v. by apply lookup_union_Some_l.
  - intros d Hd. apply Hsk in Hd as [x Hx]. exists x.
    destruct (Hsb _ _ Hx). by split.
  - intros Hn x Hx. by apply choices_round_trip.
Qed.

(** X11. The value a dropdown starts with is one of its choices: the
    language dropdown starts at "Auto" when that is a choice and else at
    the first choice, the speaker dropdown at "Vivian" when that is a
    choice and else at the first choice; either is empty exactly when
    there is no choice. *)
Theorem dropdown_defaults_are_choices (choices : list string) :
  (_default_lang_value choices = None <-> choices = [])
  /\ (forall v, _default_lang_value choices = Some v -> v ∈ choices)
  /\ ("Auto" ∈ choices -> _default_lang_value choices = Some "Auto")
  /\ ("Auto" ∉ choices -> _default_lang_value choices = head choices)
  /\ (_default_spk_value choices = None <-> choices = [])
  /\ (forall v, _default_spk_value choices = Some v -> v ∈ choices)
  /\ ("Vivian" ∈ choices -> _default_spk_value choices = Some "Vivian")
  /\ ("Vivian" ∉ choices -> _default_spk_value choices = head choices).
Proof.
  unfold _default_lang_value, _default_spk_value.
  repeat split; try (intros ->; by rewrite ?bool_decide_eq_false_2
                                      by (by intros ?%elem_of_nil)).
  - case_bool_decide; [done|]. by destruct choices.
  - intros v. case_bool_decide; [by intros [= <-]|].
    destruct choices; simpl; [done|]. intros [= <-].
    apply elem_of_cons. by left.
  - intros H. by rewrite bool_decide_eq_true_2.
  - intros H. by rewrite bool_decide_eq_false_2.
  - by destruct choices; [|case_bool_decide].
  - intros v. destruct choices as [|a l]; [done|].
    case_bool_decide; intros [= <-]; [done|]. apply elem_of_cons. by left.
  - intros H. destruct choices; [by apply elem_of_nil in H|].
    by rewrite bool_decide_eq_true_2.
  - intros H. destruct choices; [done|]. by rewrite bool_decide_eq_false_2.
Qed.

(** ** What the handlers send to the engine *)

Lemma recorded_invocations w c t p r state ecalls :
  Inv w c -> pool c !! t = Some p ->
  record_of p = Some (r, state, ecalls) ->
  exists body x, handler_of w r = WithModel body /\ body state = (x, ecalls).
Proof.
  intros HI Hp Hr. pose proof (inv_consistent _ _ HI _ _ Hp) as Hc.
  destruct p; simpl in Hr; try discriminate.
  - simplify_eq. destruct Hc as (body & Hb & Hx). eauto.
  - case_match; simplify_eq. destruct Hc as (body & x & Hb & Hx & _).
    eauto.
Qed.

Lemma record_held p r state ecalls :
  record_of p = Some (r, state, ecalls) -> held p = Some state.
Proof.
  destruct p; intros H; simpl in H; try discriminate; [by simplify_eq|].
  by case_match; simplify_eq.
Qed.

(** X12. A handler invokes the engine at most once, and only the
    capability of its own operation, on a model that is loaded and of the
    kind that serves that operation: in every configuration the server
    reaches, a handler of [run_instruct], [run_voice_design] or
    [run_voice_clone] that has left its body has made either no invocation
    or exactly one, and that one with the model of its snapshot present,
    the snapshot's [model_kind] the kind of its operation, and the
    capability that of its operation. *)
Theorem handlers_invoke_only_what_the_model_serves
    (w : World) (st : LoadedState) (calls : list call) (sched : list nat)
    (t : nat) (p : pc) (r : request) (op : operation) (state : Snapshot)
    (ecalls : list EngineCall) :
  let c := run w sched (boot st calls) in
  pool c !! t = Some p ->
  record_of p = Some (r, state, ecalls) ->
  operation_of r = Some op ->
  (length ecalls <= 1)%nat
  /\ forall call, call ∈ ecalls ->
       capability call = op
       /\ s_model_kind state = kind_of op
       /\ is_Some (s_tts state).
Proof.
  intros c Hp Hr Hop.
  destruct (recorded_invocations w c t p r state ecalls
              (reachable_inv w st calls sched) Hp Hr) as (body & x & Hb & Hx).
  destruct (body_invocations _ _ _ _ _ _ _ Hb Hop Hx)
    as [->|(call & m & -> & Hm & Hk & Hcap & _)].
  - split; [simpl; lia|]. by intros call H%elem_of_nil.
  - split; [simpl; lia|]. intros call' [->|H%elem_of_nil]%elem_of_cons; [|done].
    split; [done|]. split; [done|]. by eexists.
Qed.

(** X13. The engine is never given a blank text. In every configuration
    the server reaches, each invocation made by one of the three handlers
    carries a text that is not empty and has no whitespace at its ends;
    the instruction of a CustomVoice invocation is absent or such a
    string, that of a VoiceDesign invocation is such a string; and the
    transcript of a clone invocation is stripped, and is present and not
    empty unless the x-vector-only mode is on. *)
Theorem handlers_send_tidy_arguments
    (w : World) (st : LoadedState) (calls : list call) (sched : list nat)
    (t : nat) (p : pc) (r : request) (state : Snapshot)
    (ecalls : list EngineCall) (call : EngineCall) :
  let c := run w sched (boot st calls) in
  pool c !! t = Some p ->
  record_of p = Some (r, state, ecalls) ->
  is_Some (operation_of r) ->
  call ∈ ecalls ->
  tidy call.
Proof.
  intros c Hp Hr [op Hop] Hin.
  destruct (recorded_invocations w c t p r state ecalls
              (reachable_inv w st calls sched) Hp Hr) as (body & x & Hb & Hx).
  destruct (body_invocations _ _ _ _ _ _ _ Hb Hop Hx)
    as [->|(call' & m & -> & _ & _ & _ & Ht & _)].
  - by apply elem_of_nil in Hin.
  - apply elem_of_cons in Hin as [->|Hin%elem_of_nil]; done.
Qed.

Lemma built_lang_map m ckpt0 st d v :
  _build_model_state m ckpt0 = inr st -> lang_map st !! d = Some v ->
  v = "Auto" \/ v ∈ default [] (get_supported_languages m).
Proof.
  intros Hst Hv. pose proof (built_language m ckpt0 st (Some d) Hst) as H.
  unfold dict_get in H. simpl in H. by rewrite Hv in H.
Qed.

Lemma load_built w k ls :
  load w k = inr ls ->
  exists m, from_pretrained w k = inr m /\ _build_model_state m k = inr ls.
Proof.
  unfold load. destruct (from_pretrained w k) as [e|m]; [done|]. eauto.
Qed.

Lemma built_tts m ckpt0 st :
  _build_model_state m ckpt0 = inr st -> tts st = Some m.
Proof.
  intros Hst. by destruct (build_model_state_inv _ _ _ Hst) as (kind & _ & ->).
Qed.

(** X14. The engine is only asked for languages the loaded model knows.
    On a server booted with a state that [_build_model_state] built, and
    with a single reconfigure among the calls, every invocation made by
    one of the three handlers, in any interleaving with the reload,
    carries as language either "Auto" or one of the supported languages
    of the very model of the handler's snapshot, whatever the language
    dropdown sent. *)
Theorem handlers_ask_only_for_supported_languages
    (w : World) (st : LoadedState) (calls : list call) (sched : list nat)
    (t : nat) (p : pc) (r : request) (state : Snapshot)
    (ecalls : list EngineCall) (call : EngineCall) :
  let c := run w sched (boot st calls) in
  one_reconfigure calls ->
  built st ->
  pool c !! t = Some p ->
  record_of p = Some (r, state, ecalls) ->
  is_Some (operation_of r) ->
  call ∈ ecalls ->
  language_of call = "Auto" \/ language_of call ∈ languages_of state.
Proof.
  intros c H1 (m0 & k0 & Hst) Hp Hr [op Hop] Hin.
  destruct (recorded_invocations w c t p r state ecalls
              (reachable_inv w st calls sched) Hp Hr) as (body & x & Hb & Hx).
  destruct (body_invocations _ _ _ _ _ _ _ Hb Hop Hx)
    as [->|(call' & m & -> & Hm & _ & _ & _ & Hl)].
  { by apply elem_of_nil in Hin. }
  apply elem_of_cons in Hin as [->|Hin%elem_of_nil]; [|done].
  destruct Hl as [Hl|(d & Hd)]; [by left|].
  destruct (phase_held _ _ _ _ (reachable_phase w st calls sched H1)
              _ _ _ Hp (record_held _ _ _ _ Hr)) as (ls & Hs & ->).
  unfold languages_of. change (s_tts (view ls)) with (tts ls) in *.
  change (s_lang_map (view ls)) with (lang_map ls) in Hd.
  assert (forall m' k', _build_model_state m' k' = inr ls ->
            language_of call' = "Auto"
            \/ language_of call' ∈ default [] (tts ls ≫= get_supported_languages))
    as Hbuilt.
  { intros m' k' Hls. rewrite (built_tts _ _ _ Hls). simpl.
    by eapply built_lang_map. }
  destruct Hs as [->|[(t' & ckpt0 & _ & _ & Hk)|[-> _]]].
  - by eapply Hbuilt.
  - destruct (load_built _ _ _ Hk) as (m' & _ & Hls). by eapply Hbuilt.
  - done.
Qed.

(** ** Starting the demo *)

Lemma lookup_put (k k' : string) (v : option Q) (d : gmap string Q) :
  k <> k' -> put k v d !! k' = d !! k'.
Proof. intros H. destruct v; simpl; [by rewrite lookup_insert_ne|done]. Qed.

Lemma lookup_put_eq (k : string) (v : option Q) (d : gmap string Q) :
  put k v d !! k = match v with Some x => Some x | None => d !! k end.
Proof. destruct v; simpl; [by rewrite lookup_insert_eq|done]. Qed.

Ltac put_lookup :=
  unfold _collect_gen_kwargs;
  repeat (rewrite lookup_put by discriminate);
  rewrite lookup_put_eq;
  repeat (rewrite lookup_put by discriminate);
  rewrite ?lookup_empty.

(** X15. A slider starts at the value given on the command line, and at
    its built-in default when the option was not given: the keys under
    which [_collect_gen_kwargs] files the eight generation options are the
    keys under which [build_demo] looks them up, and an option that was
    not given leaves no entry behind. *)
Theorem sliders_start_at_command_line_values (args : Args) :
  let d := slider_defaults (_collect_gen_kwargs args) in
  default_max_tokens d = default 2048%Q (arg_max_new_tokens args)
  /\ default_temperature d = default (9 # 10) (arg_temperature args)
  /\ default_top_k d = default 50%Q (arg_top_k args)
  /\ default_top_p d = default 1%Q (arg_top_p args)
  /\ default_rep_penalty d = default (105 # 100) (arg_repetition_penalty args)
  /\ default_subtalker_temp d
     = default (9 # 10) (arg_subtalker_temperature args)
  /\ default_subtalker_top_k d = default 50%Q (arg_subtalker_top_k args)
  /\ default_subtalker_top_p d = default 1%Q (arg_subtalker_top_p args).
Proof.
  unfold slider_defaults; cbn [default_max_tokens default_temperature
    default_top_k default_top_p default_rep_penalty default_subtalker_temp
    default_subtalker_top_k default_subtalker_top_p].
  repeat split; put_lookup; by case_match.
Qed.

Lemma dtype_choice_accepted (d : string) :
  d ∈ dtype_choices -> exists t, _dtype_from_str (Some d) = inr t.
Proof.
  unfold dtype_choices. intros H.
  repeat (apply elem_of_cons in H as [->|H]; [by eexists|]).
  by apply elem_of_nil in H.
Qed.

Lemma resolve_checkpoint_given (args : Args) :
  negb (Py.truthy (Py.or_empty (checkpoint args)))
  && negb (Py.truthy (Py.or_empty (checkpoint_pos args))) = false ->
  _resolve_checkpoint args
  = inr (if Py.truthy (Py.or_empty (checkpoint args))
         then Py.or_empty (checkpoint args)
         else Py.or_empty (checkpoint_pos args)).
Proof.
  unfold _resolve_checkpoint.
  destruct (Py.truthy (Py.or_empty (checkpoint args))) eqn:Hc; simpl.
  - intros _. by rewrite Hc.
  - intros Hp. apply negb_false_iff in Hp. by rewrite Hp.
Qed.

(** X16. How the demo starts. [main] prints the help exactly when neither
    [-c] nor the positional checkpoint is given. When it launches the
    interface, the state it has stored was built by [_build_model_state]
    from the model loaded for the [-c] checkpoint if one was given and
    for the positional one otherwise; [active_jobs] is 0 and the flag is
    clear, so the server starts in the configuration [boot]; and the
    sliders start at the command-line values. With a [--dtype] among the
    parser's choices, [main] raises nothing of its own: neither the
    [SystemExit] of [_resolve_checkpoint] nor the [ValueError] of
    [_dtype_from_str], only what loading or building the model raised. *)
Theorem main_outcome (w : World) (args : Args) :
  let given :=
    if Py.truthy (Py.or_empty (checkpoint args))
    then Py.or_empty (checkpoint args)
    else Py.or_empty (checkpoint_pos args) in
  (main w args = PrintedHelp
   <-> Py.truthy (Py.or_empty (checkpoint args)) = false
       /\ Py.truthy (Py.or_empty (checkpoint_pos args)) = false)
  /\ (forall m sliders, main w args = Launched m sliders ->
        exists model st,
          from_pretrained w given = inr model
          /\ _build_model_state model given = inr st
          /\ ckpt st = given /\ given <> ""
          /\ m = ms (boot st [])
          /\ active_jobs m = 0 /\ reloading m = false
          /\ sliders = slider_defaults (_collect_gen_kwargs args))
  /\ (dtype args ∈ dtype_choices ->
      forall e, main w args = MainRaised e ->
        from_pretrained w given = inl e
        \/ exists model, from_pretrained w given = inr model
                         /\ _build_model_state model given = inl e).
Proof.
  intros given. unfold main.
  destruct (negb (Py.truthy (Py.or_empty (checkpoint args)))
            && negb (Py.truthy (Py.or_empty (checkpoint_pos args))))
    eqn:Hnone.
  - apply andb_prop in Hnone as [H1 H2]. apply negb_true_iff in H1, H2.
    split; [by split|]. split; [done|]. done.
  - rewrite (resolve_checkpoint_given _ Hnone). fold given.
    assert (given <> "") as Hgiven.
    { unfold given.
      destruct (Py.truthy (Py.or_empty (checkpoint args))) eqn:Hc.
      - by apply truthy_nonempty.
      - simpl in Hnone. apply negb_false_iff in Hnone.
        by apply truthy_nonempty. }
    split; [|split].
    + split.
      * by repeat case_match.
      * intros [H1 H2]. rewrite H1, H2 in Hnone. done.
    + intros m sliders H.
      destruct (_dtype_from_str (Some (dtype args))); [done|].
      destruct (from_pretrained w given) as [e|model] eqn:Hl; [done|].
      destruct (_build_model_state model given) as [e|st] eqn:Hb; [done|].
      simplify_eq. exists model, st.
      destruct (build_model_state_inv _ _ _ Hb) as (kind & _ & Hst).
      split; [done|]. split; [done|]. split; [by rewrite Hst|].
      by repeat split.
    + intros Hd e H. destruct (dtype_choice_accepted _ Hd) as [t Ht].
      rewrite Ht in H.
      destruct (from_pretrained w given) as [e'|model] eqn:Hl;
        [left; by simplify_eq|].
      destruct (_build_model_state model given) as [e'|st] eqn:Hb; [|done].
      right. exists model. by simplify_eq.
Qed.

(** ** The REST wrapper as a whole *)

(** X17. [/api/info] advertises an endpoint exactly when that endpoint
    serves the loaded model. With a model loaded, an endpoint that
    [get_info] lists passes every request on to the engine (for
    [/api/voice-clone]: every request whose upload decodes), and an
    endpoint that it lists as [None] answers every request with status 400
    without invoking the engine. With no model loaded, [get_info] answers
    "Model not loaded" and [voice_design] answers 503. *)
Theorem info_advertises_what_is_served (st : Api.State) :
  (forall m, Api.tts_model st = Some m ->
     exists info, Rest.get_info st = Some info
       /\ (forall req,
             match Rest.endpoint_custom_voice info with
             | Some _ => exists call, Api.custom_voice st req = Api.respond m call
             | None => exists d,
                 Api.custom_voice st req = (Api.HTTPException 400 d, [])
             end)
       /\ (forall req,
             match Rest.endpoint_voice_design info with
             | Some _ => exists call, Rest.voice_design st req = Api.respond m call
             | None => exists d,
                 Rest.voice_design st req = (Api.HTTPException 400 d, [])
             end)
       /\ (forall f wav, Api.f_ref_audio f = inr wav ->
             match Rest.endpoint_voice_clone info with
             | Some _ => exists call, Api.voice_clone st f = Api.respond m call
             | None => exists d,
                 Api.voice_clone st f = (Api.HTTPException 400 d, [])
             end))
  /\ (Api.tts_model st = None ->
      Rest.get_info st = None
      /\ forall req, Rest.voice_design st req
                     = (Api.HTTPException 503 "Model not loaded", [])).
Proof.
  split.
  - intros m Hm. unfold Rest.get_info. rewrite Hm. eexists. split; [done|].
    cbn [Rest.endpoint_custom_voice Rest.endpoint_voice_design
         Rest.endpoint_voice_clone].
    split; [|split].
    + intros req. unfold Api.custom_voice. rewrite Hm.
      destruct (bool_decide (Api.model_kind st = Some "custom_voice"));
        simpl; eauto.
    + intros req. unfold Rest.voice_design. rewrite Hm.
      destruct (bool_decide (Api.model_kind st = Some "voice_design")
                || bool_decide (Api.model_kind st = Some "base"));
        simpl; eauto.
    + intros f wav Hw. unfold Api.voice_clone. rewrite Hm, Hw.
      destruct (bool_decide (Api.model_kind st = Some "base"));
        simpl; eauto.
  - intros Hn. unfold Rest.get_info, Rest.voice_design. by rewrite Hn.
Qed.

Lemma api_clear_model_unloaded (st : Api.State) :
  Api.tts_model (Api._clear_model st) = None.
Proof. unfold Api._clear_model. by destruct (Api.tts_model st) eqn:E. Qed.

(** X18. How [/api/load-model] ends. A request that names neither a
    checkpoint nor a known model is answered with status 400 and the
    loaded model stays as it was. Any other request unloads the current
    model first. If the checkpoint then fails to load, no model is loaded
    afterwards, [/health] reports [model_loaded = False] and the
    generation endpoints answer 503; the answer is status 500 with the
    text of the exception if [except Exception] catches it, and the
    exception itself leaves the endpoint if not. If the checkpoint loads,
    the answer carries the type of the new model and the checkpoint as
    requested, and [/health] and [/api/info] report the same; the type is
    "base" when the model has no attribute [tts_model_type], and the value
    of the attribute when it has one, [None] included, and for the type
    [None] [/api/info] lists no endpoint. A checkpoint given in the request
    is preferred to the model key. *)
Theorem load_model_endpoint_outcome
    (w : World) (st : Api.State) (request : Rest.ModelSwitchRequest) :
  let chosen := Rest.chosen_checkpoint request in
  (Py.truthy (Py.or_empty (Rest.checkpoint request)) = true ->
   chosen = Rest.checkpoint request)
  /\ (Py.truthy (Py.or_empty chosen) = false ->
      Rest.load_model_endpoint w st request
      = (st, Rest.LoadException 400 "Unknown model or checkpoint"))
  /\ (forall k e, chosen = Some k -> k <> "" ->
        from_pretrained w k = inl e ->
        exists st',
          Rest.load_model_endpoint w st request
          = (st', if is_Exception e
                  then Rest.LoadException 500 (exn_msg e)
                  else Rest.LoadPropagated e)
          /\ Api.tts_model st' = None
          /\ Rest.model_loaded (Rest.health st') = false
          /\ (forall req, Api.custom_voice st' req
                          = (Api.HTTPException 503 "Model not loaded", []))
          /\ (forall f, Api.voice_clone st' f
                        = (Api.HTTPException 503 "Model not loaded", [])))
  /\ (forall k m, chosen = Some k -> k <> "" ->
        from_pretrained w k = inr m ->
        let kind := getattr (tts_model_type_attr m) (Some "base") in
        (tts_model_type_attr m = Missing -> kind = Some "base")
        /\ (forall v, tts_model_type_attr m = Holds v -> kind = v)
        /\ exists st',
             Rest.load_model_endpoint w st request
             = (st', Rest.Loaded kind (Some k))
             /\ Api.tts_model st' = Some m
             /\ Rest.model_loaded (Rest.health st') = true
             /\ Rest.model_type (Rest.health st') = kind
             /\ exists info, Rest.get_info st' = Some info
                  /\ Rest.info_model_checkpoint info = Some k
                  /\ Rest.info_model_type info = kind
                  /\ (kind = None ->
                      Rest.endpoint_voice_design info = None
                      /\ Rest.endpoint_custom_voice info = None
                      /\ Rest.endpoint_voice_clone info = None)).
Proof.
  intros chosen.
  assert (forall k, chosen = Some k -> k <> "" ->
            negb (Py.truthy (Py.or_empty chosen)) = false) as Htruthy.
  { intros k -> Hk. simpl. by destruct k. }
  split; [|split; [|split]].
  - intros H. unfold chosen, Rest.chosen_checkpoint. by rewrite H.
  - intros H. unfold Rest.load_model_endpoint. fold chosen. by rewrite H.
  - intros k e Hc Hk Hl. unfold Rest.load_model_endpoint. fold chosen.
    rewrite (Htruthy _ Hc Hk), Hc. simpl.
    unfold Api._load_model. rewrite Hl. eexists. split; [done|].
    pose proof (api_clear_model_unloaded st) as Hn.
    split; [done|]. split.
    { unfold Rest.health. simpl. rewrite Hn.
      apply bool_decide_eq_false_2. by intros [? ?]. }
    split.
    + intros req. unfold Api.custom_voice. by rewrite Hn.
    + intros f. unfold Api.voice_clone. by rewrite Hn.
  - intros k m Hc Hk Hl kind. split; [by unfold kind; intros ->|].
    split; [by unfold kind; intros v ->|].
    unfold Rest.load_model_endpoint. fold chosen.
    rewrite (Htruthy _ Hc Hk), Hc. simpl.
    unfold Api._load_model. rewrite Hl. eexists. split; [done|].
    split; [done|]. split; [by apply bool_decide_eq_true_2|].
    split; [done|]. eexists. split; [done|]. split; [done|].
    split; [done|]. simpl. fold kind. by intros ->.
Qed.

(** ** The gateway's TTS endpoints *)

Lemma stream_or_raise_error (filename : string) (status : Z)
    (content : string) (js : string + Gateway.json) :
  status <> 200 ->
  Gateway.stream_or_raise filename (Gateway.Response status content js)
  = inl (Gateway.RaisedHTTP status content).
Proof.
  intros H. unfold Gateway.stream_or_raise.
  destruct (status =? 200) eqn:E; [lia|done].
Qed.

Lemma stream_or_raise_status (n : Gateway.Net) (filename text : string)
    (u : Gateway.upstream) :
  let r := Gateway.except_timeout_then_any n text
             (Gateway.stream_or_raise filename u) in
  let r' := Gateway.except_any n (Gateway.stream_or_raise filename u) in
  match u with
  | Gateway.Response status content _ =>
      if status =? 200
      then r = Gateway.StreamingResponse content filename /\ r' = r
      else r = Gateway.HTTPException 500
                 (Gateway.http_exception_str n status content) /\ r' = r
  | Gateway.TimeoutException msg =>
      r = Gateway.HTTPException 504 text
      /\ r' = Gateway.HTTPException 500 msg
  | Gateway.OtherException msg =>
      r = Gateway.HTTPException 500 msg /\ r' = r
  end.
Proof.
  destruct u as [status content js|msg|msg]; simpl; [|done..].
  by destruct (status =? 200).
Qed.

(** X19. The gateway never passes on the status of the TTS service. When
    the service answers an audio or load-model request with a status
    other than 200, say 400, 422 or 503, the [HTTPException] raised with
    that status inside the [try] is caught by the endpoint's own
    [except Exception], and the client gets status 500 with the text of
    that exception as detail; this holds for /tts/voice-clone,
    /tts/voice-design, /tts/custom-voice, /tts/simple and
    /tts/load-model alike. *)
Theorem upstream_status_is_never_passed_on
    (n : Gateway.Net) (status : Z) (content : string)
    (js : string + Gateway.json) :
  status <> 200 ->
  let answer :=
    Gateway.HTTPException 500 (Gateway.http_exception_str n status content) in
  (forall text language ref_audio bytes ref_text x_vector_only max_new_tokens
          temperature top_k top_p repetition_penalty,
     Gateway.read ref_audio = inr bytes ->
     Gateway.post_form n "/api/voice-clone"
       (Gateway.filename ref_audio, bytes, Gateway.content_type ref_audio)
       (Gateway.voice_clone_data text language ref_text x_vector_only
          max_new_tokens temperature top_k top_p repetition_penalty)
     = Gateway.Response status content js ->
     Gateway.tts_voice_clone n text language ref_audio ref_text x_vector_only
       max_new_tokens temperature top_k top_p repetition_penalty = answer)
  /\ (forall request,
        Gateway.post_json n "/api/voice-design"
          (Gateway.voice_design_payload request)
        = Gateway.Response status content js ->
        Gateway.tts_voice_design n request = answer)
  /\ (forall request,
        Gateway.post_json n "/api/custom-voice"
          (Gateway.custom_voice_payload request)
        = Gateway.Response status content js ->
        Gateway.tts_custom_voice n request = answer)
  /\ (forall text voice_description,
        Gateway.post_json n "/api/voice-design"
          (Gateway.simple_payload text voice_description)
        = Gateway.Response status content js ->
        Gateway.tts_simple n text voice_description = answer)
  /\ (forall payload,
        Gateway.post_json n "/api/load-model" payload
        = Gateway.Response status content js ->
        Gateway.tts_load_model n payload = answer).
Proof.
  intros Hs answer. repeat split.
  - intros * Hread Hpost. unfold Gateway.tts_voice_clone.
    rewrite Hread. cbv zeta. rewrite Hpost.
    by rewrite stream_or_raise_error.
  - intros request Hpost. unfold Gateway.tts_voice_design.
    rewrite Hpost. by rewrite stream_or_raise_error.
  - intros request Hpost. unfold Gateway.tts_custom_voice.
    rewrite Hpost. by rewrite stream_or_raise_error.
  - intros text d Hpost. unfold Gateway.tts_simple.
    rewrite Hpost. by rewrite stream_or_raise_error.
  - intros payload Hpost. unfold Gateway.tts_load_model.
    rewrite Hpost. destruct (status =? 200) eqn:E; [lia|done].
Qed.

(** X20. Every answer of a TTS endpoint of the gateway has status 200,
    500 or 504. It is 200 only when the service answered 200, and 504
    only when the request to the service timed out and the endpoint is
    /tts/voice-design, /tts/simple or /tts/load-model: /tts/custom-voice
    and /tts/voice-clone have no clause for the timeout and answer it
    with 500. *)
Theorem gateway_statuses (n : Gateway.Net) :
  let from (u : Gateway.upstream) (catches_timeout : bool) (r : Gateway.reply) :=
    (Gateway.status_of r = 200
     /\ exists content js, u = Gateway.Response 200 content js)
    \/ Gateway.status_of r = 500
    \/ (Gateway.status_of r = 504 /\ catches_timeout = true
        /\ exists msg, u = Gateway.TimeoutException msg) in
  (forall text language ref_audio bytes ref_text x_vector_only max_new_tokens
          temperature top_k top_p repetition_penalty,
     Gateway.read ref_audio = inr bytes ->
     from (Gateway.post_form n "/api/voice-clone"
             (Gateway.filename ref_audio, bytes, Gateway.content_type ref_audio)
             (Gateway.voice_clone_data text language ref_text x_vector_only
                max_new_tokens temperature top_k top_p repetition_penalty))
          false
          (Gateway.tts_voice_clone n text language ref_audio ref_text
             x_vector_only max_new_tokens temperature top_k top_p
             repetition_penalty))
  /\ (forall request,
        from (Gateway.post_json n "/api/voice-design"
                (Gateway.voice_design_payload request))
             true (Gateway.tts_voice_design n request))
  /\ (forall request,
        from (Gateway.post_json n "/api/custom-voice"
                (Gateway.custom_voice_payload request))
             false (Gateway.tts_custom_voice n request))
  /\ (forall text voice_description,
        from (Gateway.post_json n "/api/voice-design"
                (Gateway.simple_payload text voice_description))
             true (Gateway.tts_simple n text voice_description))
  /\ (forall payload,
        from (Gateway.post_json n "/api/load-model" payload)
             true (Gateway.tts_load_model n payload)).
Proof.
  intros from.
  assert (forall filename text u,
            from u true (Gateway.except_timeout_then_any n text
                           (Gateway.stream_or_raise filename u))
            /\ from u false (Gateway.except_any n
                               (Gateway.stream_or_raise filename u)))
    as Hgen.
  { intros filename text u. unfold from.
    destruct u as [status content js|msg|msg]; simpl.
    - destruct (status =? 200) eqn:E; simpl.
      + apply Z.eqb_eq in E as ->. split; left; eauto.
      + split; right; by left.
    - split; [right; right; eauto|right; by left].
    - split; right; by left. }
  repeat split.
  - intros * Hread. unfold Gateway.tts_voice_clone. rewrite Hread.
    apply Hgen; exact "".
  - intros request. apply Hgen.
  - intros request. apply Hgen; exact "".
  - intros text d. apply Hgen.
  - intros payload. unfold from, Gateway.tts_load_model.
    destruct (Gateway.post_json n "/api/load-model" payload)
      as [status content js|msg|msg]; simpl.
    + destruct (status =? 200) eqn:E; simpl.
      * apply Z.eqb_eq in E as ->. destruct js; simpl.
        -- right. by left.
        -- left. eauto.
      * right. by left.
    + right; right; eauto.
    + right. by left.
Qed.

(** X21. /tts/simple is /tts/voice-design with the defaults of
    [TTSVoiceDesignRequest]: for a text and a voice description it posts
    the payload that /tts/voice-design posts for a request giving only
    these two fields, and answers as that endpoint answers, under the
    attachment name speech.wav and with its own text for the
    timeout. *)
Theorem simple_is_voice_design_with_defaults
    (n : Gateway.Net) (text voice_description : string) :
  Gateway.simple_payload text (Some voice_description)
  = Gateway.voice_design_payload
      (Gateway.design_defaults text voice_description)
  /\ match Gateway.tts_voice_design n
             (Gateway.design_defaults text voice_description) with
     | Gateway.StreamingResponse content _ =>
         Gateway.tts_simple n text (Some voice_description)
         = Gateway.StreamingResponse content "speech.wav"
     | Gateway.Json _ => False
     | Gateway.HTTPException status detail =>
         Gateway.tts_simple n text (Some voice_description)
         = Gateway.HTTPException status
             (if status =? 504
              then "TTS generation timeout - text may be too long"
              else detail)
     end.
Proof.
  split; [done|].
  unfold Gateway.tts_simple, Gateway.tts_voice_design.
  change (Gateway.simple_payload text (Some voice_description))
    with (Gateway.voice_design_payload
            (Gateway.design_defaults text voice_description)).
  destruct (Gateway.post_json n "/api/voice-design" _)
    as [status content js|msg|msg]; simpl; [|done..].
  by destruct (status =? 200).
Qed.

Lemma truthy_list_nonempty (v : Gateway.json) :
  Gateway.truthy v = true -> v <> Gateway.JNull /\ v <> Gateway.JList [].
Proof. by destruct v as [| | | | |[|]|]. Qed.

(** X22. /tts/info always answers, and never with an empty or missing
    list: whatever the TTS service does (any status, any JSON value or
    none, a timeout or another exception), the languages and the speakers
    of the answer are neither null nor an empty list. They are the
    service's own values exactly when the service answered 200 with a
    dictionary holding a truthy value under that key, and the built-in
    lists otherwise; without a 200 answer that decodes to a dictionary
    the answer is the built-in one, with no current model in it. *)
Theorem tts_info_lists_are_never_empty (n : Gateway.Net) :
  let info := Gateway.tts_info n in
  (Gateway.supported_languages info <> Gateway.JNull
   /\ Gateway.supported_languages info <> Gateway.JList [])
  /\ (Gateway.available_speakers info <> Gateway.JNull
      /\ Gateway.available_speakers info <> Gateway.JList [])
  /\ (forall content d,
        Gateway.get n "/api/info"
        = Gateway.Response 200 content (inr (Gateway.JDict d)) ->
        (Gateway.supported_languages info
         = if Gateway.truthy (Gateway.dict_get d "supported_languages")
           then Gateway.dict_get d "supported_languages"
           else Gateway.supported_languages Gateway.base_info)
        /\ (Gateway.available_speakers info
            = if Gateway.truthy (Gateway.dict_get d "supported_speakers")
              then Gateway.dict_get d "supported_speakers"
              else Gateway.available_speakers Gateway.base_info)
        /\ Gateway.current_model_type info
           = Some (Gateway.dict_get d "model_type")
        /\ Gateway.current_model_checkpoint info
           = Some (Gateway.dict_get d "model_checkpoint"))
  /\ ((forall content d,
         Gateway.get n "/api/info"
         <> Gateway.Response 200 content (inr (Gateway.JDict d))) ->
      info = Gateway.base_info).
Proof.
  intros info. unfold info, Gateway.tts_info.
  assert (forall v d : Gateway.json,
            Gateway.truthy d = true ->
            (if Gateway.truthy v then v else d) <> Gateway.JNull
            /\ (if Gateway.truthy v then v else d) <> Gateway.JList [])
    as Hpick.
  { intros v d Hd. destruct (Gateway.truthy v) eqn:E;
      by apply truthy_list_nonempty. }
  destruct (Gateway.get n "/api/info") as [status content js|msg|msg];
    [|by repeat split..].
  destruct (status =? 200) eqn:E.
  - apply Z.eqb_eq in E as ->.
    destruct js as [msg|v]; [by repeat split|].
    destruct v; try by repeat split.
    split; [by apply Hpick|]. split; [by apply Hpick|]. split.
    + intros content' d' [= _ <-]. by repeat split.
    + intros H. by destruct (H content d).
  - split; [done|]. split; [done|]. split; [|done].
    intros content' d' Hq. injection Hq as -> _ _. done.
Qed.

(** ** The properties above at concrete inputs *)

(** The loader of the sample world raises [OSError] only. *)
Lemma sample_world_raises_only_Exceptions :
  raises_only_Exceptions Sample.world.
Proof.
  intros k e H. unfold Sample.world in H. simpl in H.
  repeat case_match; by simplify_eq.
Qed.

(** A reconfigure call asleep behind a running handler: driven on, both
    calls come to an end. *)
Lemma every_call_finishes_witness :
  let B := "Qwen/Qwen3-TTS-12Hz-1.7B-Base" in
  let calls := [Reconfigure (Some B); Dispatch (Sample.hello 2048)] in
  let c := run Sample.world [1; 1; 1; 1; 0; 0; 0]%nat
             (boot (Sample.state "custom_voice") calls) in
  raises_only_Exceptions Sample.world
  /\ pool c !! 0%nat = Some (ReloadWaiting B)
  /\ exists p, pool (drive Sample.world (measure c) c) !! 0%nat = Some p
               /\ finished p = true.
Proof.
  intros B calls c.
  split; [exact sample_world_raises_only_Exceptions|].
  split; [vm_compute; reflexivity|].
  eexists. split; [vm_compute; reflexivity|].
  eapply (every_call_finishes Sample.world (Sample.state "custom_voice")
            calls [1; 1; 1; 1; 0; 0; 0]%nat
            sample_world_raises_only_Exceptions 0%nat).
  vm_compute; reflexivity.
Defined.

(** A handler admitted after the reload has returned holds the snapshot
    of the state that the reload built; a handler admitted after the
    reload has failed holds the snapshot of the cleared state. *)
Lemma snapshots_are_settled_witness :
  let B := "Qwen/Qwen3-TTS-12Hz-1.7B-Base" in
  let st := Sample.state "custom_voice" in
  let sched := [0; 0; 0; 0; 0; 0; 0; 0; 0; 0; 1; 1; 1; 1]%nat in
  let calls := [Reconfigure (Some B); Dispatch (Sample.hello 2048)] in
  let c := run Sample.world sched (boot st calls) in
  let calls' :=
    [Reconfigure (Some "missing"); Dispatch (Sample.hello 2048)] in
  let c' := run Sample.world sched (boot st calls') in
  (one_reconfigure calls
   /\ exists state, (pool c !! 1%nat ≫= held) = Some state
        /\ s_model_kind state = "base"
        /\ exists ls, state = view ls
             /\ (ls = st
                 \/ (exists t' ckpt,
                       calls !! t' = Some (Reconfigure ckpt)
                       /\ pool c !! t' = Some (ReloadReturned ls)
                       /\ load Sample.world (Py.strip (Py.or_empty ckpt))
                          = inr ls)
                 \/ (ls = unloaded
                     /\ exists t' ckpt e,
                          calls !! t' = Some (Reconfigure ckpt)
                          /\ pool c !! t' = Some (ReloadRaised e)
                          /\ load Sample.world (Py.strip (Py.or_empty ckpt))
                             = inl e
                          /\ is_Exception e = true)))
  /\ (one_reconfigure calls'
      /\ exists state, (pool c' !! 1%nat ≫= held) = Some state
           /\ s_tts state = None
           /\ exists ls, state = view ls
                /\ (ls = st
                    \/ (exists t' ckpt,
                          calls' !! t' = Some (Reconfigure ckpt)
                          /\ pool c' !! t' = Some (ReloadReturned ls)
                          /\ load Sample.world (Py.strip (Py.or_empty ckpt))
                             = inr ls)
                    \/ (ls = unloaded
                        /\ exists t' ckpt e,
                             calls' !! t' = Some (Reconfigure ckpt)
                             /\ pool c' !! t' = Some (ReloadRaised e)
                             /\ load Sample.world
                                  (Py.strip (Py.or_empty ckpt)) = inl e
                             /\ is_Exception e = true))).
Proof.
  intros B st sched calls c calls' c'.
  assert (forall k, one_reconfigure [Reconfigure k;
                                     Dispatch (Sample.hello 2048)]) as H1.
  { intros k [|[|t1]] [|[|t2]] k1 k2 Hk1 Hk2; simpl in Hk1, Hk2;
      try discriminate; reflexivity. }
  split.
  - split; [apply H1|].
    eexists. split; [vm_compute; reflexivity|]. split; [reflexivity|].
    eapply (snapshots_are_settled Sample.world st calls sched 1%nat);
      [apply H1|vm_compute; reflexivity|vm_compute; reflexivity].
  - split; [apply H1|].
    eexists. split; [vm_compute; reflexivity|]. split; [reflexivity|].
    eapply (snapshots_are_settled Sample.world st calls' sched 1%nat);
      [apply H1|vm_compute; reflexivity|vm_compute; reflexivity].
Defined.

(** A lone reconfigure call that has returned. *)
Lemma lone_reconfigure_outcome_witness :
  let B := "Qwen/Qwen3-TTS-12Hz-1.7B-Base" in
  let calls := [Reconfigure (Some (" " +:+ B))] in
  let c := run Sample.world [0; 0; 0; 0; 0; 0; 0; 0; 0; 0]%nat
             (boot (Sample.state "custom_voice") calls) in
  one_reconfigure calls
  /\ exists state, pool c !! 0%nat = Some (ReloadReturned state)
       /\ load Sample.world B = inr state
       /\ loaded (ms c) = state /\ reloading (ms c) = false.
Proof.
  intros B calls c.
  assert (H1 : one_reconfigure calls).
  { intros [|t1] [|t2] k1 k2 Hk1 Hk2; simpl in Hk1, Hk2;
      try discriminate; reflexivity. }
  split; [exact H1|].
  destruct (lone_reconfigure_outcome Sample.world
              (Sample.state "custom_voice") calls
              [0; 0; 0; 0; 0; 0; 0; 0; 0; 0]%nat 0%nat (Some (" " +:+ B))
              H1 eq_refl) as (H & _).
  eexists. split; [vm_compute; reflexivity|].
  edestruct H as (Hb & Hl & Hr); [vm_compute; reflexivity|].
  exact (conj Hb (conj Hl Hr)).
Defined.

(** The dropdowns of the state built for a model with two languages and
    two speakers. *)
Lemma dropdowns_resolve_to_supported_names_witness :
  _build_model_state Fixture.model "local" = inr Fixture.state
  /\ (dict_get (lang_map Fixture.state) (Some "Klingon") "Auto" = "Auto"
      \/ dict_get (lang_map Fixture.state) (Some "Klingon") "Auto"
         ∈ ["english"; "chinese"])
  /\ is_Some (lang_map Fixture.state !! "Chinese")
  /\ spk_map Fixture.state !! "Ryan" = Some "ryan".
Proof.
  assert (Hb : _build_model_state Fixture.model "local" = inr Fixture.state)
    by (vm_compute; reflexivity).
  destruct (dropdowns_resolve_to_supported_names Fixture.model "local"
              Fixture.state Hb) as (Hl & Hk & _ & Hs).
  assert (Hn : NoDup (spk_choices_disp Fixture.state))
    by (apply (bool_decide_unpack _); vm_compute; exact I).
  split; [exact Hb|]. split; [exact (Hl (Some "Klingon"))|]. split.
  - apply Hk. vm_compute. apply elem_of_cons. right.
    apply elem_of_cons. right. apply elem_of_cons. left. reflexivity.
  - apply (Hs Hn "ryan").
    vm_compute. apply elem_of_cons. right. apply elem_of_cons. left.
    reflexivity.
Defined.

(** A CustomVoice click on a CustomVoice model, at its [finally]. *)
Lemma handlers_invoke_only_what_the_model_serves_witness :
  let c := run Sample.world [0; 0; 0; 0; 0]%nat
             (boot (Sample.state "custom_voice")
                [Dispatch (Sample.hello 2048)]) in
  exists state call,
    (pool c !! 0%nat ≫= record_of)
    = Some (Sample.hello 2048, state, [call])
    /\ capability call = CustomVoice
    /\ s_model_kind state = kind_of CustomVoice
    /\ is_Some (s_tts state).
Proof.
  intros c. eexists _, _. split; [vm_compute; reflexivity|].
  eapply (handlers_invoke_only_what_the_model_serves Sample.world
            (Sample.state "custom_voice") [Dispatch (Sample.hello 2048)]
            [0; 0; 0; 0; 0]%nat 0%nat _ (Sample.hello 2048) CustomVoice).
  - vm_compute; reflexivity.
  - vm_compute; reflexivity.
  - reflexivity.
  - apply elem_of_cons. left. reflexivity.
Defined.

(** The invocation of that click carries the text "hi". *)
Lemma handlers_send_tidy_arguments_witness :
  let c := run Sample.world [0; 0; 0; 0; 0]%nat
             (boot (Sample.state "custom_voice")
                [Dispatch (Sample.hello 2048)]) in
  exists state call,
    (pool c !! 0%nat ≫= record_of)
    = Some (Sample.hello 2048, state, [call])
    /\ text_of call = "hi" /\ tidy call.
Proof.
  intros c. eexists _, _. split; [vm_compute; reflexivity|].
  split; [reflexivity|].
  eapply (handlers_send_tidy_arguments Sample.world
            (Sample.state "custom_voice") [Dispatch (Sample.hello 2048)]
            [0; 0; 0; 0; 0]%nat 0%nat _ (Sample.hello 2048)).
  - vm_compute; reflexivity.
  - vm_compute; reflexivity.
  - eexists; reflexivity.
  - apply elem_of_cons. left. reflexivity.
Defined.

(** A click with the language dropdown at "English", served after a
    reload of the same checkpoint: the engine is asked for "english". *)
Lemma handlers_ask_only_for_supported_languages_witness :
  let calls := [Reconfigure (Some "local"); Dispatch Fixture.english] in
  let c := run Fixture.world
             [0; 0; 0; 0; 0; 0; 0; 0; 0; 0; 1; 1; 1; 1; 1]%nat
             (boot Fixture.state calls) in
  one_reconfigure calls /\ built Fixture.state
  /\ exists state call,
       (pool c !! 1%nat ≫= record_of) = Some (Fixture.english, state, [call])
       /\ language_of call = "english"
       /\ (language_of call = "Auto"
           \/ language_of call ∈ languages_of state).
Proof.
  intros calls c.
  assert (H1 : one_reconfigure calls).
  { intros [|[|t1]] [|[|t2]] k1 k2 Hk1 Hk2; simpl in Hk1, Hk2;
      try discriminate; reflexivity. }
  assert (Hb : built Fixture.state).
  { exists Fixture.model, "local". vm_compute; reflexivity. }
  split; [exact H1|]. split; [exact Hb|].
  eexists _, _. split; [vm_compute; reflexivity|].
  split; [reflexivity|].
  eapply (handlers_ask_only_for_supported_languages Fixture.world
            Fixture.state calls
            [0; 0; 0; 0; 0; 0; 0; 0; 0; 0; 1; 1; 1; 1; 1]%nat 1%nat _
            Fixture.english).
  - exact H1.
  - exact Hb.
  - vm_compute; reflexivity.
  - vm_compute; reflexivity.
  - eexists; reflexivity.
  - apply elem_of_cons. left. reflexivity.
Defined.

(** A service without a model answers 503; the gateway answers 500. *)
Lemma upstream_status_is_never_passed_on_witness :
  Gateway.status_of (Gateway.tts_simple Fixture.net "hi" (Some "calm")) = 500
  /\ Gateway.tts_load_model Fixture.net Gateway.JNull
     = Gateway.HTTPException 500 "Model not loaded".
Proof.
  destruct (upstream_status_is_never_passed_on Fixture.net 503
              "Model not loaded"
              (inr (Gateway.JDict
                      [("detail", Gateway.JStr "Model not loaded")])))
    as (_ & _ & _ & Hs & Hl); [discriminate|].
  split.
  - rewrite (Hs "hi" (Some "calm")); reflexivity.
  - apply Hl. reflexivity.
Defined.
